(** * SBCL runtime: page-table scan-start codec, contiguous-block oracle,
      static-space bump allocator, code-object allocator, allocation profiler

    A shallow embedding of [src/runtime/gencgc-private.h] and
    [src/runtime/alloc.c].  C integers are modelled as [Z] with the
    wrap-around of their width written out, the page table as a list of
    page records indexed from 0, and every call as a computation in the
    [outcome] monad, which separates a normal return from [lose()] and from
    an access outside the modelled object. *)

From Stdlib Require Import ZArith Lia Bool List.
From stdpp Require Import base option list gmap.

Local Open Scope Z_scope.

(** ** Outcomes of a call *)

Inductive outcome (A : Type) : Type :=
  | Ok (a : A)      (* the call returns [a] *)
  | Lose            (* [lose()] / [gc_abort()]: the runtime stops with a diagnostic *)
  | Undefined       (* access outside the page table or the allocated block *)
  | OutOfFuel.      (* the unrolling bound of a loop was reached *)

Arguments Ok {A} a.
Arguments Lose {A}.
Arguments Undefined {A}.
Arguments OutOfFuel {A}.

Definition outcome_bind {A B} (f : A → outcome B) (m : outcome A) : outcome B :=
  match m with
  | Ok a => f a
  | Lose => Lose
  | Undefined => Undefined
  | OutOfFuel => OutOfFuel
  end.

#[global] Instance outcome_mret : MRet outcome := @Ok.
#[global] Instance outcome_mbind : MBind outcome := @outcome_bind.

(** ** Build-time configuration

    Constants and feature switches that the two files take from headers
    which are generated at build time or live elsewhere in the runtime
    ([genesis/constants.h], [gencgc-internal.h], [validate.h], the compiler
    command line).  They are parameters of the model. *)

Class platform := {
  N_WORD_BITS : Z;             (* width of [uword_t], of pointers and of [os_vm_size_t] *)
  N_WORD_BYTES : Z;
  WORD_SHIFT : Z;
  LOWTAG_MASK : Z;
  OTHER_POINTER_LOWTAG : Z;
  GENCGC_CARD_SHIFT : Z;
  GENCGC_PAGE_BYTES : Z;
  GENCGC_PAGE_WORDS : Z;
  STATIC_SPACE_END : Z;
  CODE_HEADER_SIZE_SHIFT : Z;
  CODE_HEADER_WIDETAG : Z;
  code_boxed_size_slot : Z;    (* word index of [boxed_size] in [struct code] *)
  code_debug_info_slot : Z;    (* word index of [debug_info] in [struct code] *)
  REQUIRE_GC_INHIBIT : bool;   (* 0 on x86-64 other than win32, 1 elsewhere *)
  DEBUG : bool;                (* [#ifdef DEBUG] *)
  NDEBUG : bool                (* [#ifdef NDEBUG]: assertions compiled out *)
}.

(** [unsigned int] and [uword_t] arithmetic. *)
Definition UINT_MAX : Z := 2 ^ 32 - 1.
Definition SCAN_START_OFS_MAX : Z := UINT_MAX.
Definition uint (z : Z) : Z := z mod 2 ^ 32.

Section Runtime.
Context `{P : platform}.

Definition uword (z : Z) : Z := z mod 2 ^ N_WORD_BITS.

(** [gc_assert(ex)] of gc-internal.h: nothing under NDEBUG, otherwise
    [gc_abort()], which is [lose(...)]. *)
Definition gc_assert (ex : bool) : outcome unit :=
  if NDEBUG then Ok tt else if ex then Ok tt else Lose.

(** Modelled from the spec: the macro [IS_ALIGNED] of align.h is not among
    the sources; section 4.1 reads its use as "[byte_offset] is an exact
    multiple of the full page size". *)
Definition IS_ALIGNED (a b : Z) : bool := a mod b =? 0.

(** ** Page table *)

Record page := {
  scan_start_offset_ : Z;      (* [unsigned int] under CONDENSED_PAGE_TABLE *)
  words_used_ : Z;
  need_zerofill : bool;
  type : Z;
  gen : Z
}.

Record heap := {
  page_table : list page;
  next_free_page : Z
}.

(** [page_table[index]] as an rvalue. *)
Definition page_at (h : heap) (index : Z) : outcome page :=
  if index <? 0 then Undefined
  else match page_table h !! Z.to_nat index with
       | Some pg => Ok pg
       | None => Undefined
       end.

(** [page_table[index].scan_start_offset_ = v]. *)
Definition store_scan_start (h : heap) (index v : Z) : outcome heap :=
  pg ← page_at h index;
  Ok {| page_table :=
          <[Z.to_nat index :=
              {| scan_start_offset_ := uint v;
                 words_used_ := words_used_ pg;
                 need_zerofill := need_zerofill pg;
                 type := type pg;
                 gen := gen pg |}]> (page_table h);
        next_free_page := next_free_page h |}.

Definition page_words_used (h : heap) (index : Z) : outcome Z :=
  pg ← page_at h index; Ok (words_used_ pg).

(** ** Scan-start codec (the CONDENSED_PAGE_TABLE branch) *)

Definition set_page_scan_start_offset (h : heap) (index offset : Z)
  : outcome heap :=
  (* If the offset is nonzero and page-aligned *)
  let lsb : Z :=
    if negb (offset =? 0) && IS_ALIGNED offset GENCGC_PAGE_BYTES then 1 else 0 in
  let scaled : Z :=
    Z.lor (Z.shiftr offset (if lsb =? 1 then GENCGC_CARD_SHIFT - 1 else WORD_SHIFT))
          lsb in
  if scaled >? SCAN_START_OFS_MAX then
    _ ← gc_assert (lsb =? 1);
    store_scan_start h index SCAN_START_OFS_MAX
  else
    store_scan_start h index scaled.

(** The [do ... while (offset == SCAN_START_OFS_MAX)] loop, unrolled at most
    [fuel] times.  [page_index_t] is signed and at least as wide as
    [unsigned int]; the running total never leaves its range while the
    look-back page stays inside the table. *)
Fixpoint scan_start_offset_loop (fuel : nat) (h : heap) (index : Z)
    (tot_offset_in_pages : Z) : outcome Z :=
  match fuel with
  | O => OutOfFuel
  | S fuel' =>
      let lookback_page := index - tot_offset_in_pages in
      pg ← page_at h lookback_page;
      let offset := scan_start_offset_ pg in
      let tot_offset_in_pages := tot_offset_in_pages + Z.shiftr offset 1 in
      if offset =? SCAN_START_OFS_MAX
      then scan_start_offset_loop fuel' h index tot_offset_in_pages
      else Ok tot_offset_in_pages
  end.

Definition scan_start_offset_iterated (h : heap) (index : Z) : outcome Z :=
  tot ← scan_start_offset_loop (S (length (page_table h))) h index 0;
  Ok (uword (Z.shiftl tot GENCGC_CARD_SHIFT)).

Definition page_scan_start_offset (h : heap) (index : Z) : outcome Z :=
  pg ← page_at h index;
  let s := scan_start_offset_ pg in
  if negb (s =? SCAN_START_OFS_MAX) then
    (* [s & ~1]: the int -2 converted to unsigned int is 0xFFFFFFFE *)
    Ok (uword (Z.shiftl (Z.land s (UINT_MAX - 1))
                        (if Z.land s 1 =? 1 then GENCGC_CARD_SHIFT - 1
                         else WORD_SHIFT)))
  else scan_start_offset_iterated h index.

(** ** Contiguous-block boundary oracle *)

(* True if the page starts a contiguous block. *)
Definition page_starts_contiguous_block_p (h : heap) (page_index : Z)
  : outcome bool :=
  pg ← page_at h page_index;
  Ok (scan_start_offset_ pg =? 0).

(** C's [a || b] on computations: [b] is not evaluated when [a] holds. *)
Definition orelse (a b : outcome bool) : outcome bool :=
  x ← a; if x : bool then Ok true else b.

(* True if the page is the last page in a contiguous block. *)
Definition page_ends_contiguous_block_p (h : heap) (page_index g : Z)
  : outcome bool :=
  answer ←
    orelse (w ← page_words_used h page_index; Ok (w <? GENCGC_PAGE_WORDS))
           (page_starts_contiguous_block_p h (page_index + 1));
  if DEBUG then
    safe_answer ←
      orelse (w ← page_words_used h page_index; Ok (w <? GENCGC_PAGE_WORDS))
     (orelse (Ok (page_index + 1 >=? next_free_page h))
     (orelse (w ← page_words_used h (page_index + 1); Ok (w =? 0))
     (orelse (pg ← page_at h (page_index + 1); Ok (negb (gen pg =? g)))
             (page_starts_contiguous_block_p h (page_index + 1)))));
    _ ← gc_assert (eqb answer safe_answer);
    Ok answer
  else Ok answer.

(** The [while (!page_ends_contiguous_block_p(last, ...)) ++last;] loop. *)
Fixpoint final_page_loop (fuel : nat) (h : heap) (first last : Z)
  : outcome Z :=
  match fuel with
  | O => OutOfFuel
  | S fuel' =>
      pg ← page_at h first;
      e ← page_ends_contiguous_block_p h last (gen pg);
      if e : bool then Ok last else final_page_loop fuel' h first (last + 1)
  end.

Definition contiguous_block_final_page (h : heap) (first : Z) : outcome Z :=
  final_page_loop (S (length (page_table h))) h first first.

(** ** Lock-free bump allocator for static space (alloc.c)

    [static_space_free_pointer] is shared with other threads.  [others]
    lists, for each compare-and-swap this call attempts, what another thread
    stored into the cell between this thread's last read and the swap
    ([None]: nothing was stored; past the end of the list nobody interferes
    any more).  Addresses are unsigned words; pointer addition wraps.  The
    result pairs the returned pointer (0 is the null pointer) with the value
    of the cell when the call returns. *)
Fixpoint bump_loop (others : list (option Z)) (nbytes claimed_ptr : Z)
  : outcome (Z * Z) :=
  let new := uword (claimed_ptr + nbytes) in
  (* Fail if space exhausted or bogusly wrapped around *)
  if (new >? STATIC_SPACE_END) || (new <? claimed_ptr) then Ok (0, claimed_ptr)
  else
    match others with
    | [] => Ok (claimed_ptr, new)
    | o :: rest =>
        let actual_old := default claimed_ptr o in
        if actual_old =? claimed_ptr then Ok (claimed_ptr, new)
        else bump_loop rest nbytes actual_old
    end.

Definition atomic_bump_static_space_free_ptr (others : list (option Z))
    (static_space_free_pointer nbytes : Z) : outcome (Z * Z) :=
  _ ← gc_assert (Z.land nbytes LOWTAG_MASK =? 0);
  bump_loop others nbytes static_space_free_pointer.

(** ** Threads *)

Record thread := {
  gc_inhibit : bool;           (* [read_TLS(GC_INHIBIT, th) != NIL] *)
  profile_data : Z             (* [th->profile_data], 0 when null *)
}.

(** ** Code-object allocator (alloc.c)

    [lisp_alloc] is the region allocator of gencgc.c: for a byte count it
    hands out an address together with the words found there, whatever an
    earlier object left in them.  [make_lispobj] tags a native pointer.
    Both are external to the two files.  The mutex calls and [THREAD_JIT]
    do not touch the object and are left out. *)
Section CodeAllocator.
Variable lisp_alloc : Z → Z * list Z.
Variable make_lispobj : Z → Z → Z.

(** [((lispobj* )code)[i] = v].  C makes no bounds check: a store outside
    the words [lisp_alloc] handed out is undefined behaviour, [Undefined]
    here.  What is proved of a call that returns is therefore proved of
    the calls whose four stores stay inside the block. *)
Definition store_word (mem : list Z) (i v : Z) : outcome (list Z) :=
  if (i <? 0) || (Z.of_nat (length mem) <=? i) then Undefined
  else Ok (<[Z.to_nat i := v]> mem).

Definition alloc_code_object (th : thread) (total_words : Z)
  : outcome (Z * list Z) :=
  _ ← (if REQUIRE_GC_INHIBIT
        then if gc_inhibit th then Ok tt else Lose
        else Ok tt);
  (* [total_words*N_WORD_BYTES] is an [unsigned] product *)
  let '(code, mem) := lisp_alloc (uint (total_words * N_WORD_BYTES)) in
  mem ← store_word mem 0
          (Z.lor (uword (Z.shiftl total_words CODE_HEADER_SIZE_SHIFT))
                 CODE_HEADER_WIDETAG);
  mem ← store_word mem code_boxed_size_slot 0;
  mem ← store_word mem code_debug_info_slot 0;
  (* zeroize the simple-fun table count *)
  mem ← store_word mem (uint (total_words - 1)) 0;
  Ok (make_lispobj code OTHER_POINTER_LOWTAG, mem).

End CodeAllocator.

(** ** Allocation profiler (alloc.c) *)

(** What [alloc_profile_data] points at, as far as
    [simple_vector_p] and [vector_len] can tell. *)
Inductive lisp_object :=
  | simple_vector (len : Z)
  | other_object.

Definition simple_vector_p (o : lisp_object) : bool :=
  match o with simple_vector _ => true | other_object => false end.

Definition vector_len (o : lisp_object) : Z :=
  match o with simple_vector len => len | other_object => 0 end.

(** Lines written to stdout and stderr. *)
Inductive message :=
  | using_cells (cells size buffer : Z)
      (* using %d cells (0x%x bytes) for profile buffer @ %p *)
  | profiler_threads (n : Z)
      (* allocation profiler: %d thread%s *)
  | unsafely_changed
      (* WARNING: Unsafely changed alloc profile buffer *)
  | already_started
      (* allocation profiler already started *)
  | metadata_not_created
      (* profile metadata not created *)
  | not_started.
      (* allocation profiler not started *)

Record runtime := {
  alloc_profile_buffer : Z;          (* array of counters *)
  profile_buffer_size : Z;
  alloc_profile_data : lisp_object;  (* SIMPLE-VECTOR of <code-component,PC> *)
  alloc_profiling : Z;               (* enabled flag *)
  max_alloc_point_counters : Z;
  all_threads : list thread;
  os_mappings : gmap Z Z;            (* address ↦ length of the live mappings *)
  stdout : list message;
  stderr : list message
}.

(** [os_allocate] and [os_deallocate] belong to the operating-system layer.
    [os_allocate_addr] is the address the layer picks for a new mapping of
    the given length; the layer hands out zero-filled memory. *)
Section Profiler.
Variable os_allocate_addr : gmap Z Z → Z → Z.

Definition os_allocate (m : gmap Z Z) (len : Z) : Z * gmap Z Z :=
  let addr := os_allocate_addr m len in (addr, <[addr := len]> m).

Definition os_deallocate (m : gmap Z Z) (addr len : Z) : gmap Z Z :=
  delete addr m.

Definition set_profile_data (v : Z) (th : thread) : thread :=
  {| gc_inhibit := gc_inhibit th; profile_data := v |}.

Definition allocation_profiler_start (s : runtime) : runtime :=
  if (alloc_profiling s =? 0) && simple_vector_p (alloc_profile_data s) then
    let max_alloc_point_counters :=
      uint (Z.quot (vector_len (alloc_profile_data s)) 2) in
    (* an [int] times an [unsigned int] *)
    let size := uint (N_WORD_BYTES * max_alloc_point_counters) in
    let old_buffer := 0 in
    let '(profile_buffer_size, old_buffer, alloc_profile_buffer, mappings, out) :=
      if negb (size =? profile_buffer_size s) then
        let '(buffer, mappings) := os_allocate (os_mappings s) size in
        (size, alloc_profile_buffer s, buffer, mappings,
         stdout s ++ [using_cells max_alloc_point_counters size buffer])
      else
        (profile_buffer_size s, old_buffer, alloc_profile_buffer s,
         os_mappings s, stdout s) in
    let threads := set_profile_data alloc_profile_buffer <$> all_threads s in
    let n := Z.of_nat (length (all_threads s)) in
    let out := out ++ [profiler_threads n] in
    let '(mappings, out) :=
      if negb (old_buffer =? 0) then
        (* Thread-safely switching buffers would entail lazy reclamation
           of the old one. *)
        (os_deallocate mappings alloc_profile_buffer profile_buffer_size,
         out ++ [unsafely_changed])
      else (mappings, out) in
    {| alloc_profile_buffer := alloc_profile_buffer;
       profile_buffer_size := profile_buffer_size;
       alloc_profile_data := alloc_profile_data s;
       alloc_profiling := 1;
       max_alloc_point_counters := max_alloc_point_counters;
       all_threads := threads;
       os_mappings := mappings;
       stdout := out;
       stderr := stderr s |}
  else
    {| alloc_profile_buffer := alloc_profile_buffer s;
       profile_buffer_size := profile_buffer_size s;
       alloc_profile_data := alloc_profile_data s;
       alloc_profiling := alloc_profiling s;
       max_alloc_point_counters := max_alloc_point_counters s;
       all_threads := all_threads s;
       os_mappings := os_mappings s;
       stdout := stdout s;
       stderr := stderr s ++
         [if negb (alloc_profiling s =? 0) then already_started
          else metadata_not_created] |}.

(* This is not exactly threadsafe. Don't try anything fancy. *)
Definition allocation_profiler_stop (s : runtime) : runtime :=
  if negb (alloc_profiling s =? 0) then
    {| alloc_profile_buffer := alloc_profile_buffer s;
       profile_buffer_size := profile_buffer_size s;
       alloc_profile_data := alloc_profile_data s;
       alloc_profiling := 0;
       max_alloc_point_counters := max_alloc_point_counters s;
       all_threads := set_profile_data 0 <$> all_threads s;
       os_mappings := os_mappings s;
       stdout := stdout s;
       stderr := stderr s |}
  else
    {| alloc_profile_buffer := alloc_profile_buffer s;
       profile_buffer_size := profile_buffer_size s;
       alloc_profile_data := alloc_profile_data s;
       alloc_profiling := alloc_profiling s;
       max_alloc_point_counters := max_alloc_point_counters s;
       all_threads := all_threads s;
       os_mappings := os_mappings s;
       stdout := stdout s;
       stderr := stderr s ++ [not_started] |}.

(** The Lisp side installing another metadata vector. *)
Definition with_profile_data (o : lisp_object) (s : runtime) : runtime :=
  {| alloc_profile_buffer := alloc_profile_buffer s;
     profile_buffer_size := profile_buffer_size s;
     alloc_profile_data := o;
     alloc_profiling := alloc_profiling s;
     max_alloc_point_counters := max_alloc_point_counters s;
     all_threads := all_threads s;
     os_mappings := os_mappings s;
     stdout := stdout s;
     stderr := stderr s |}.

End Profiler.

End Runtime.

(** The value of the local variable [answer] of
    [page_ends_contiguous_block_p], before the DEBUG cross-check. *)
Definition ends_answer `{P : platform} (h : heap) (p : Z) : outcome bool :=
  orelse (w ← page_words_used h p; Ok (w <? GENCGC_PAGE_WORDS))
         (page_starts_contiguous_block_p h (p + 1)).

(** ** A concrete configuration and concrete states

    A 64-bit build with 32 KiB pages, assertions on and the DEBUG
    cross-check off; [debug_build] switches the cross-check on,
    [ndebug_build] compiles the assertions out. *)

Definition linux_x86_64 : platform := {|
  N_WORD_BITS := 64;
  N_WORD_BYTES := 8;
  WORD_SHIFT := 3;
  LOWTAG_MASK := 15;
  OTHER_POINTER_LOWTAG := 15;
  GENCGC_CARD_SHIFT := 15;
  GENCGC_PAGE_BYTES := 32768;
  GENCGC_PAGE_WORDS := 4096;
  STATIC_SPACE_END := 0x50100000 + 0x2000;
  CODE_HEADER_SIZE_SHIFT := 32;
  CODE_HEADER_WIDETAG := 0x2D;
  code_boxed_size_slot := 1;
  code_debug_info_slot := 2;
  REQUIRE_GC_INHIBIT := false;
  DEBUG := false;
  NDEBUG := false
|}.

(** [p] rebuilt with other values for the three feature switches. *)
Definition with_switches (require_gc_inhibit debug ndebug : bool)
    (p : platform) : platform := {|
  N_WORD_BITS := @N_WORD_BITS p;
  N_WORD_BYTES := @N_WORD_BYTES p;
  WORD_SHIFT := @WORD_SHIFT p;
  LOWTAG_MASK := @LOWTAG_MASK p;
  OTHER_POINTER_LOWTAG := @OTHER_POINTER_LOWTAG p;
  GENCGC_CARD_SHIFT := @GENCGC_CARD_SHIFT p;
  GENCGC_PAGE_BYTES := @GENCGC_PAGE_BYTES p;
  GENCGC_PAGE_WORDS := @GENCGC_PAGE_WORDS p;
  STATIC_SPACE_END := @STATIC_SPACE_END p;
  CODE_HEADER_SIZE_SHIFT := @CODE_HEADER_SIZE_SHIFT p;
  CODE_HEADER_WIDETAG := @CODE_HEADER_WIDETAG p;
  code_boxed_size_slot := @code_boxed_size_slot p;
  code_debug_info_slot := @code_debug_info_slot p;
  REQUIRE_GC_INHIBIT := require_gc_inhibit;
  DEBUG := debug;
  NDEBUG := ndebug
|}.

Definition debug_build : platform := with_switches true true false linux_x86_64.
Definition ndebug_build : platform := with_switches false false true linux_x86_64.

(** Static space of the concrete configuration: 8192 bytes from [static_base]. *)
Definition static_base : Z := 0x50100000.

(** What the arithmetic of the codec relies on: [WORD_SHIFT] turns words
    into bytes (as in [page_bytes_used]), [GENCGC_CARD_SHIFT] pages into
    bytes, and a word has at least 64 bits where the page table is
    condensed. *)
Record platform_wf `{P : platform} : Prop := {
  wf_word_shift : 0 ≤ WORD_SHIFT;
  wf_card_shift : WORD_SHIFT < GENCGC_CARD_SHIFT;
  wf_page_bytes : GENCGC_PAGE_BYTES = 2 ^ GENCGC_CARD_SHIFT;
  wf_word_bytes : N_WORD_BYTES = 2 ^ WORD_SHIFT;
  wf_card_fits : GENCGC_CARD_SHIFT ≤ 32;
  wf_word_bits : 64 ≤ N_WORD_BITS
}.

Definition free_page : page :=
  {| scan_start_offset_ := 0; words_used_ := 0; need_zerofill := false;
     type := 0; gen := 0 |}.

Definition used_page (offset words : Z) : page :=
  {| scan_start_offset_ := offset; words_used_ := words; need_zerofill := false;
     type := 1; gen := 0 |}.

Definition one_page_heap : heap :=
  {| page_table := [free_page]; next_free_page := 0 |}.

(** The span an offset must stay below for the encoder not to clip it:
    [SCAN_START_OFS_MAX >> 1] pages for a page-aligned offset,
    [SCAN_START_OFS_MAX] words (inclusive) otherwise. *)
Definition within_scan_start_span `{P : platform} (o : Z) : Prop :=
  if IS_ALIGNED o GENCGC_PAGE_BYTES
  then o / GENCGC_PAGE_BYTES < Z.shiftr SCAN_START_OFS_MAX 1
  else Z.shiftr o WORD_SHIFT ≤ SCAN_START_OFS_MAX.

(** ** The reader's iteration, as section 4.1 of the specification words it

    [lookback_walk h p d]: starting at page [p], moving back by
    "stored value >> 1" pages for as long as the stored value of the page
    visited equals the sentinel, the page distances sum to [d]. *)
Inductive lookback_walk (h : heap) : Z → Z → Prop :=
  | lookback_stop (p : Z) (pg : page) :
      page_at h p = Ok pg →
      scan_start_offset_ pg ≠ SCAN_START_OFS_MAX →
      lookback_walk h p (Z.shiftr (scan_start_offset_ pg) 1)
  | lookback_step (p : Z) (pg : page) (d : Z) :
      page_at h p = Ok pg →
      scan_start_offset_ pg = SCAN_START_OFS_MAX →
      lookback_walk h (p - Z.shiftr (scan_start_offset_ pg) 1) d →
      lookback_walk h p (Z.shiftr (scan_start_offset_ pg) 1 + d).

(** The scenario of section 8 on [linux_x86_64]: a region of three pages
    that starts at page 0 (pages 1 and 2 store the page-scaled distances 1
    and 2 with the scale bit set), pages 0 and 1 full, 10 words on page 2. *)
Definition three_page_region : heap :=
  {| page_table := [used_page 0 4096; used_page 3 4096; used_page 5 10];
     next_free_page := 3 |}.

Definition three_page_blank : heap :=
  {| page_table := [used_page 0 4096; used_page 0 4096; used_page 0 10];
     next_free_page := 3 |}.

(** One page holding the sentinel: its look-back leaves the table. *)
Definition sentinel_heap : heap :=
  {| page_table := [used_page SCAN_START_OFS_MAX 4096]; next_free_page := 1 |}.

(** Two full pages of generation 0, the second continuing the first. *)
Definition two_full_pages : heap :=
  {| page_table := [used_page 0 4096; used_page 3 4096; free_page];
     next_free_page := 2 |}.

(** One page whose entry the encoder wrote for an offset of one page. *)
Definition back_one_page : page :=
  {| scan_start_offset_ := 3; words_used_ := 0; need_zerofill := false;
     type := 0; gen := 0 |}.

Definition one_page_back : heap :=
  {| page_table := [back_one_page]; next_free_page := 0 |}.

(** A region allocator that hands out words an earlier object has left
    behind, and the pointer tagging of the runtime. *)
Definition stale_alloc (nbytes : Z) : Z * list Z :=
  (0x52000000, replicate (Z.to_nat (nbytes / 8)) 0xDEADBEEF).

Definition tag_pointer (o low_tag : Z) : Z := Z.lor o low_tag.

Definition mutator : thread := {| gc_inhibit := false; profile_data := 0 |}.

(** An operating-system layer that places every new mapping above the ones
    it has handed out so far, and a runtime that has never profiled. *)
Definition next_mapping (m : gmap Z Z) (len : Z) : Z :=
  0x7f0000000000 + 0x10000 * Z.of_nat (size m).

Definition cold_runtime (data : lisp_object) (threads : list thread) : runtime :=
  {| alloc_profile_buffer := 0;
     profile_buffer_size := 0;
     alloc_profile_data := data;
     alloc_profiling := 0;
     max_alloc_point_counters := 0;
     all_threads := threads;
     os_mappings := ∅;
     stdout := [];
     stderr := [] |}.

(** The byte size [allocation_profiler_start] computes for a metadata vector. *)
Definition profile_size `{P : platform} (o : lisp_object) : Z :=
  uint (N_WORD_BYTES * uint (Z.quot (vector_len o) 2)).

(** A runtime with two threads that profiles with a metadata vector of 4
    entries, stops, and is handed a vector of 8 entries. *)
Definition resized_metadata `{P : platform} : runtime :=
  with_profile_data (simple_vector 8)
    (allocation_profiler_stop
       (allocation_profiler_start next_mapping
          (cold_runtime (simple_vector 4) [mutator; mutator]))).

(** What the encoder stores for an offset of [k] whole pages: zero for the
    page that starts the region, else [2k+1] clipped to the sentinel. *)
Definition clipped_page_distance (k : Z) : Z :=
  if k =? 0 then 0 else Z.min (2 * k + 1) SCAN_START_OFS_MAX.

(** The pages [start .. last] form the head of one region: each of them
    holds what the encoder stores for its distance from [start]. *)
Definition region_encoded (h : heap) (start last : Z) : Prop :=
  ∀ j, start ≤ j ≤ last →
       ∃ pg, page_at h j = Ok pg ∧
             scan_start_offset_ pg = clipped_page_distance (j - start).

(** ** Compositions of the operations above *)

(** Writing the entries of a region of [n] pages from page [start + k] on,
    front to back, the first of them at a distance of [k] pages from the
    start of the region. *)
Fixpoint mark_region `{P : platform} (n : nat) (h : heap) (start k : Z)
  : outcome heap :=
  match n with
  | O => Ok h
  | S n' =>
      h' ← set_page_scan_start_offset h (start + k) (k * GENCGC_PAGE_BYTES);
      mark_region n' h' start (k + 1)
  end.

(** ** Page accessors of gencgc-private.h

    [page_words_bits] is the width of the field [words_used_], which
    gencgc-internal.h declares; a store into the field keeps that many
    bits.  [page_bytes_t] is [unsigned int]. *)
Section PageAccessors.
Context `{P : platform}.
Variable page_words_bits : Z.

(* #define page_bytes_used(index)
     ((page_bytes_t)page_table[index].words_used_<<WORD_SHIFT) *)
Definition page_bytes_used (h : heap) (index : Z) : outcome Z :=
  pg ← page_at h index;
  Ok (uint (Z.shiftl (uint (words_used_ pg)) WORD_SHIFT)).

(* #define set_page_bytes_used(index,val)
     page_table[index].words_used_ = ((val)>>WORD_SHIFT) *)
Definition set_page_bytes_used (h : heap) (index val : Z) : outcome heap :=
  pg ← page_at h index;
  Ok {| page_table :=
          <[Z.to_nat index :=
              {| scan_start_offset_ := scan_start_offset_ pg;
                 words_used_ := Z.shiftr val WORD_SHIFT mod 2 ^ page_words_bits;
                 need_zerofill := need_zerofill pg;
                 type := type pg;
                 gen := gen pg |}]> (page_table h);
        next_free_page := next_free_page h |}.

(* #define page_need_to_zero(index) page_table[index].need_zerofill *)
Definition page_need_to_zero (h : heap) (index : Z) : outcome bool :=
  pg ← page_at h index; Ok (need_zerofill pg).

(* #define set_page_need_to_zero(index,val)
     page_table[index].need_zerofill = val *)
Definition set_page_need_to_zero (h : heap) (index : Z) (val : bool)
  : outcome heap :=
  pg ← page_at h index;
  Ok {| page_table :=
          <[Z.to_nat index :=
              {| scan_start_offset_ := scan_start_offset_ pg;
                 words_used_ := words_used_ pg;
                 need_zerofill := val;
                 type := type pg;
                 gen := gen pg |}]> (page_table h);
        next_free_page := next_free_page h |}.

End PageAccessors.

(** One thread claiming static space for each byte count of a list in turn,
    nobody interfering: the pointers returned and the final frontier. *)
Fixpoint claim_each `{P : platform} (sizes : list Z) (fp : Z)
  : outcome (list Z * Z) :=
  match sizes with
  | [] => Ok ([], fp)
  | nbytes :: rest =>
      rc ← atomic_bump_static_space_free_ptr [] fp nbytes;
      rs ← claim_each rest rc.2;
      Ok (rc.1 :: rs.1, rs.2)
  end.

(** The runtime after one more line on stderr. *)
Definition log_stderr (m : message) (s : runtime) : runtime :=
  {| alloc_profile_buffer := alloc_profile_buffer s;
     profile_buffer_size := profile_buffer_size s;
     alloc_profile_data := alloc_profile_data s;
     alloc_profiling := alloc_profiling s;
     max_alloc_point_counters := max_alloc_point_counters s;
     all_threads := all_threads s;
     os_mappings := os_mappings s;
     stdout := stdout s;
     stderr := stderr s ++ [m] |}.

(** ** Protection mode (gencgc-private.h, builds without soft card marks)

    [PAGE_TYPE_MASK] and [PAGE_TYPE_CODE] come from gencgc-internal.h. *)
Inductive prot_mode := PHYSICAL | LOGICAL.

Section ProtectionMode.
Variables PAGE_TYPE_MASK PAGE_TYPE_CODE : Z.

(* #define is_code(type) ((type & PAGE_TYPE_MASK) == PAGE_TYPE_CODE) *)
Definition is_code (type : Z) : bool :=
  Z.land type PAGE_TYPE_MASK =? PAGE_TYPE_CODE.

Definition protection_mode (h : heap) (page : Z) : outcome prot_mode :=
  (* code pages can be marked as logically read-only without OS protection,
     and everything else uses hardware-based protection where applicable. *)
  pg ← page_at h page;
  Ok (if is_code (type pg) then LOGICAL else PHYSICAL).

End ProtectionMode.

(** ** Searching a space (gc-internal.h)

    [gc_search_space3] is defined in gc-common.c; [gc_search_space] calls it
    with the end of the double word that holds [pointer] as the limit. *)
Section SearchSpace.
Context `{P : platform}.
Variable gc_search_space3 : Z → Z → Z → Z.

Definition gc_search_space (start pointer : Z) : Z :=
  gc_search_space3 pointer start (uword (1 + Z.lor pointer LOWTAG_MASK)).

End SearchSpace.

(** ** Metaspace pointers (alloc.c, LISP_FEATURE_METASPACE)

    A slab is [METASPACE_SLAB_SIZE] bytes with a header at its base; its
    chunks are laid out downwards from its end.  [slab_at] is the header
    that memory holds at an address and [widetag_of] the widetag of the word
    there; [ALIGN_DOWN] is the macro of align.h.  The header fields are
    integers narrower than a word; the quotient is taken on unsigned words
    and stored in an [int]. *)
Record slab_header := {
  capacity : Z;
  chunksize : Z
}.

Inductive metaspace_message :=
  | slab_line (slab chunk_size capacity : Z)
      (* slab base %p chunk_size %d capacity %d *)
  | word_is_good (obj_base : Z).
      (* word @ %p is good *)

Definition sint (z : Z) : Z := (z + 2 ^ 31) mod 2 ^ 32 - 2 ^ 31.

Section Metaspace.
Context `{P : platform}.
Variable METASPACE_SLAB_SIZE : Z.
Variable INSTANCE_WIDETAG : Z.
Variable ALIGN_DOWN : Z → Z → Z.
Variable slab_at : Z → slab_header.
Variable widetag_of : Z → Z.

(** The value returned and the lines written to stderr. *)
Definition valid_metaspace_ptr_p (addr : Z)
  : outcome (Z * list metaspace_message) :=
  let slab := ALIGN_DOWN addr METASPACE_SLAB_SIZE in
  let log := [slab_line slab (chunksize (slab_at slab))
                (capacity (slab_at slab))] in
  if capacity (slab_at slab) =? 0 then Ok (0, log)
  else
    let slab_end := uword (slab + METASPACE_SLAB_SIZE) in
    if uword (chunksize (slab_at slab)) =? 0 then Undefined
    else
      let index :=
        sint (uword (slab_end - addr) / uword (chunksize (slab_at slab))) in
      if index <? capacity (slab_at slab) then
        let obj_base :=
          uword (slab_end - sint ((index + 1) * chunksize (slab_at slab))) in
        if widetag_of obj_base =? INSTANCE_WIDETAG
        then Ok (obj_base, log ++ [word_is_good obj_base])
        else Ok (0, log)
      else Ok (0, log).

End Metaspace.

(** A slab of 2048 bytes at 4096 with ten chunks of 64 bytes, every chunk
    holding an instance (widetag 1 here); alignment by masking. *)
Definition align_down (value granularity : Z) : Z :=
  Z.land value (Z.lnot (granularity - 1)).

Definition sample_slab (slab : Z) : slab_header :=
  {| capacity := 10; chunksize := 64 |}.

Definition all_instances (obj_base : Z) : Z := 1.

(** * Further states and relations used in the proofs *)

(** One page whose entry the encoder wrote for an offset of one word. *)
Definition back_one_word : page :=
  {| scan_start_offset_ := 1; words_used_ := 0; need_zerofill := false;
     type := 0; gen := 0 |}.

Definition one_word_back : heap :=
  {| page_table := [back_one_word]; next_free_page := 0 |}.

(** A region of [n] full pages that starts at page 0: every entry holds
    what the encoder stores for the page's distance from page 0. *)
Definition encoded_region (n : Z) : heap :=
  {| page_table :=
       (λ j, used_page (clipped_page_distance j) 4096) <$> seqZ 0 n;
     next_free_page := n |}.

(** A region long enough for its last page to hold the sentinel: the
    sentinel stands for [2^31 - 1] pages, so the region has [2^31]. *)
Definition long_region : heap := encoded_region (2 ^ 31).

Section LostRaces.
Context `{P : platform}.

(** [lost_races nbytes claimed others last rest]: a call of
    [atomic_bump_static_space_free_ptr] that has read [claimed] from the
    frontier, with the interference [others] ahead of it, loses one
    compare-and-swap after the other until it has read [last], with [rest]
    still ahead.  It loses a race only if it enters it: the advanced
    frontier passes the range test, and another thread has stored a value
    other than the one read. *)
Inductive lost_races (nbytes : Z)
  : Z → list (option Z) → Z → list (option Z) → Prop :=
  | lost_none (claimed : Z) (others : list (option Z)) :
      lost_races nbytes claimed others claimed others
  | lost_one (claimed v : Z) (others : list (option Z))
             (last : Z) (rest : list (option Z)) :
      (uword (claimed + nbytes) >? STATIC_SPACE_END)
        || (uword (claimed + nbytes) <? claimed) = false →
      v ≠ claimed →
      lost_races nbytes v others last rest →
      lost_races nbytes claimed (Some v :: others) last rest.

(** The iteration that has read [last] is the final one: it fails the range
    test, or its compare-and-swap meets the value read (no interference is
    left, or the next one leaves the frontier at [last]). *)
Definition final_read (nbytes last : Z) (rest : list (option Z)) : Prop :=
  (uword (last + nbytes) >? STATIC_SPACE_END)
    || (uword (last + nbytes) <? last) = true
  ∨ match rest with
    | [] => True
    | o :: _ => default last o = last
    end.

End LostRaces.

(** A region allocator that hands out at least four words, whatever the
    byte count: the block of a one-word object has room behind it. *)
Definition padded_alloc (nbytes : Z) : Z * list Z :=
  (0x52000000, replicate (Z.to_nat (Z.max 4 (nbytes / 8))) 0xDEADBEEF).

(** * Proofs *)

(** ** Arithmetic of the scale bit *)

Lemma lor_even_1 (k : Z) : Z.lor (2 * k) 1 = 2 * k + 1.
Proof.
  pose proof (Z.add_lor_land (2 * k) 1) as H.
  assert (Z.land (2 * k) 1 = 0) as E.
  { change 1 with (Z.ones 1). rewrite Z.land_ones by lia.
    change (2 ^ 1) with 2. rewrite Z.mul_comm. apply Z.mod_mul. lia. }
  lia.
Qed.

Lemma land_1_mod (s : Z) : Z.land s 1 = s mod 2.
Proof. change 1 with (Z.ones 1). now rewrite Z.land_ones by lia. Qed.

Lemma land_clear_scale_bit (s : Z) :
  0 ≤ s < 2 ^ 32 → Z.land s (UINT_MAX - 1) = 2 * (s / 2).
Proof.
  intros Hs. apply Z.bits_inj'. intros n Hn.
  rewrite Z.land_spec.
  replace (2 * (s / 2)) with (Z.shiftl (Z.shiftr s 1) 1)
    by (rewrite Z.shiftl_mul_pow2, Z.shiftr_div_pow2 by lia;
        change (2 ^ 1) with 2; lia).
  change (UINT_MAX - 1) with (Z.shiftl (Z.ones 31) 1).
  rewrite !Z.shiftl_spec by lia.
  destruct (Z.ltb_spec n 1).
  - rewrite (Z.testbit_neg_r (Z.ones 31) (n - 1)), (Z.testbit_neg_r (Z.shiftr s 1) (n - 1)) by lia.
    apply andb_false_r.
  - rewrite Z.shiftr_spec by lia. replace (n - 1 + 1) with n by lia.
    destruct (Z.ltb_spec n 32).
    + rewrite Z.ones_spec_low by lia. apply andb_true_r.
    + rewrite Z.ones_spec_high by lia. rewrite andb_false_r.
      symmetry. apply Z.bits_above_log2; [lia|].
      destruct (Z.eq_dec s 0) as [->|]; [simpl; lia|].
      assert (2 ^ 32 ≤ 2 ^ n) by (apply Z.pow_le_mono_r; lia).
      apply Z.log2_lt_pow2; lia.
Qed.

Section CodecProofs.
Context `{P : platform}.

Lemma page_at_Ok (h : heap) (index : Z) (pg : page) :
  page_at h index = Ok pg ↔
  0 ≤ index ∧ page_table h !! Z.to_nat index = Some pg.
Proof.
  unfold page_at. destruct (Z.ltb_spec index 0).
  - split; [discriminate | lia].
  - destruct (page_table h !! Z.to_nat index) eqn:E; split.
    + intros [= ->]. done.
    + intros [_ [= ->]]. done.
    + discriminate.
    + intros [_ ?]. discriminate.
Qed.

Lemma page_at_range (h : heap) (index : Z) :
  (∃ pg, page_at h index = Ok pg) ↔
  0 ≤ index < Z.of_nat (length (page_table h)).
Proof.
  split.
  - intros [pg [H1 H2]%page_at_Ok]. apply lookup_lt_Some in H2. lia.
  - intros H. destruct (lookup_lt_is_Some_2 (page_table h) (Z.to_nat index))
      as [pg Hpg]; [lia|].
    exists pg. apply page_at_Ok. split; [lia | done].
Qed.

Lemma page_at_cases (h : heap) (index : Z) :
  (∃ pg, page_at h index = Ok pg) ∨ page_at h index = Undefined.
Proof.
  unfold page_at. destruct (index <? 0); [by right|].
  destruct (page_table h !! Z.to_nat index); [left; eauto | by right].
Qed.

(** Reading back the entry that [store_scan_start] has just written. *)
Lemma store_scan_start_read (h h' : heap) (index v : Z) :
  store_scan_start h index v = Ok h' →
  ∃ pg', page_at h' index = Ok pg' ∧ scan_start_offset_ pg' = uint v.
Proof.
  unfold store_scan_start. destruct (page_at h index) as [pg| | |] eqn:E;
    simpl; try discriminate.
  intros [= <-]. apply page_at_Ok in E as [H0 Hl].
  eexists. split.
  - apply page_at_Ok. split; [done|]. simpl.
    apply list_lookup_insert_eq. by eapply lookup_lt_Some.
  - done.
Qed.

Lemma store_scan_start_defined (h : heap) (index v : Z) (pg : page) :
  page_at h index = Ok pg → ∃ h', store_scan_start h index v = Ok h'.
Proof. intros E. unfold store_scan_start. rewrite E. simpl. eauto. Qed.

(** The decoder on an entry below the sentinel: one lookup, no iteration. *)
Lemma page_scan_start_offset_direct (h : heap) (index : Z) (pg : page) :
  page_at h index = Ok pg →
  scan_start_offset_ pg ≠ SCAN_START_OFS_MAX →
  page_scan_start_offset h index =
    Ok (uword (Z.shiftl (Z.land (scan_start_offset_ pg) (UINT_MAX - 1))
                 (if Z.land (scan_start_offset_ pg) 1 =? 1
                  then GENCGC_CARD_SHIFT - 1 else WORD_SHIFT))).
Proof.
  intros E Hne. unfold page_scan_start_offset. rewrite E. simpl.
  destruct (Z.eqb_spec (scan_start_offset_ pg) SCAN_START_OFS_MAX); done.
Qed.

Lemma uint_small (z : Z) : 0 ≤ z < 2 ^ 32 → uint z = z.
Proof. intros H. unfold uint. by apply Z.mod_small. Qed.

Lemma uword_small (z : Z) : 0 ≤ z < 2 ^ N_WORD_BITS → uword z = z.
Proof. intros H. unfold uword. by apply Z.mod_small. Qed.

(** The encoder on a page-aligned, non-zero offset of [k] pages. *)
Lemma scaled_page_aligned (k : Z) :
  platform_wf → 0 ≤ k →
  Z.lor (Z.shiftr (k * GENCGC_PAGE_BYTES) (GENCGC_CARD_SHIFT - 1)) 1 = 2 * k + 1.
Proof.
  intros [] Hk. rewrite wf_page_bytes0, Z.shiftr_div_pow2 by lia.
  replace (2 ^ GENCGC_CARD_SHIFT) with (2 * 2 ^ (GENCGC_CARD_SHIFT - 1))
    by (rewrite <- Z.pow_succ_r by lia; f_equal; lia).
  assert (0 < 2 ^ (GENCGC_CARD_SHIFT - 1)) by (apply Z.pow_pos_nonneg; lia).
  replace (k * (2 * 2 ^ (GENCGC_CARD_SHIFT - 1)))
    with (2 * k * 2 ^ (GENCGC_CARD_SHIFT - 1)) by lia.
  rewrite Z.div_mul by lia. apply lor_even_1.
Qed.

(** What the encoder stores for a double-word-aligned offset inside the span:
    a value below the sentinel, zero exactly for the offset zero, from which
    the decoder's shift recovers the offset. *)
Lemma encoder_stores (h : heap) (index o : Z) :
  platform_wf →
  0 ≤ o < 2 ^ N_WORD_BITS →
  o mod (2 * N_WORD_BYTES) = 0 →
  within_scan_start_span o →
  ∃ v, 0 ≤ v < SCAN_START_OFS_MAX ∧ (v = 0 ↔ o = 0) ∧
       set_page_scan_start_offset h index o = store_scan_start h index v ∧
       Z.shiftl (Z.land v (UINT_MAX - 1))
         (if Z.land v 1 =? 1 then GENCGC_CARD_SHIFT - 1 else WORD_SHIFT) = o.
Proof.
  intros Hwf Ho Hal Hspan. pose proof Hwf as [HW HC HPB HWB HC32 HN].
  assert (0 < 2 ^ WORD_SHIFT) as HpW by (apply Z.pow_pos_nonneg; lia).
  assert (0 < GENCGC_PAGE_BYTES) as HpP
    by (rewrite HPB; apply Z.pow_pos_nonneg; lia).
  unfold set_page_scan_start_offset, within_scan_start_span, IS_ALIGNED in *.
  destruct (Z.eqb_spec o 0) as [->|Hnz]; simpl.
  { (* offset 0 *)
    exists 0. rewrite Z.shiftr_0_l. simpl. rewrite Z.shiftl_0_l.
    unfold SCAN_START_OFS_MAX, UINT_MAX. repeat split; lia. }
  destruct (Z.eqb_spec (o mod GENCGC_PAGE_BYTES) 0) as [Hpa|Hna]; simpl.
  - (* page-aligned: the scale bit is set *)
    apply Z.mod_divide in Hpa as [k ->]; [|lia].
    rewrite Z.div_mul in Hspan by lia.
    change (Z.shiftr SCAN_START_OFS_MAX 1) with (2 ^ 31 - 1) in Hspan.
    assert (0 < k) by nia.
    rewrite scaled_page_aligned by (done || lia).
    destruct (Z.gtb_spec (2 * k + 1) SCAN_START_OFS_MAX) as [Hgt|_];
      [unfold SCAN_START_OFS_MAX, UINT_MAX in Hgt; lia|].
    exists (2 * k + 1). unfold SCAN_START_OFS_MAX, UINT_MAX.
    split; [lia|]. split; [lia|]. split; [done|].
    rewrite land_clear_scale_bit, land_1_mod by lia.
    replace ((2 * k + 1) mod 2) with 1
      by (rewrite Z.add_comm, Z.mul_comm, Z.mod_add by lia; done).
    replace ((2 * k + 1) / 2) with k
      by (rewrite Z.add_comm, Z.mul_comm, Z.div_add by lia; done).
    simpl. rewrite Z.shiftl_mul_pow2 by lia.
    rewrite HPB.
    replace (2 ^ GENCGC_CARD_SHIFT) with (2 * 2 ^ (GENCGC_CARD_SHIFT - 1))
      by (rewrite <- Z.pow_succ_r by lia; f_equal; lia).
    lia.
  - (* not page-aligned: scaled by words, scale bit clear *)
    rewrite HWB in Hal. apply Z.mod_divide in Hal as [m ->]; [|lia].
    rewrite Z.shiftr_div_pow2 in * by lia.
    replace (m * (2 * 2 ^ WORD_SHIFT)) with (2 * m * 2 ^ WORD_SHIFT) in * by lia.
    rewrite Z.div_mul in * by lia. rewrite Z.lor_0_r.
    unfold SCAN_START_OFS_MAX, UINT_MAX in *.
    destruct (Z.gtb_spec (2 * m) (2 ^ 32 - 1)) as [Hgt|_]; [lia|].
    assert (0 ≤ m) by nia.
    exists (2 * m). split; [lia|]. split; [nia|]. split; [done|].
    rewrite land_clear_scale_bit, land_1_mod by lia.
    replace ((2 * m) mod 2) with 0 by (rewrite Z.mul_comm, Z.mod_mul by lia; done).
    replace (2 * m / 2) with m by (rewrite Z.mul_comm, Z.div_mul by lia; done).
    simpl. rewrite Z.shiftl_mul_pow2 by lia. done.
Qed.

(** Encoding a valid offset, then reading the entry back: the stored field
    is zero exactly for the offset zero, and the decoder returns the offset. *)
Lemma encode_then_read (h h' : heap) (index o : Z) :
  platform_wf →
  0 ≤ o < 2 ^ N_WORD_BITS →
  o mod (2 * N_WORD_BYTES) = 0 →
  within_scan_start_span o →
  set_page_scan_start_offset h index o = Ok h' →
  ∃ pg', page_at h' index = Ok pg' ∧
         (scan_start_offset_ pg' = 0 ↔ o = 0) ∧
         page_scan_start_offset h' index = Ok o.
Proof.
  intros Hwf Ho Hal Hspan Hset. pose proof Hwf as [HW HC HPB HWB HC32 HN].
  destruct (encoder_stores h index o Hwf Ho Hal Hspan)
    as (v & Hv & Hz & Hst & Hdec).
  rewrite Hst in Hset.
  destruct (store_scan_start_read _ _ _ _ Hset) as (pg' & Hpg' & Hs).
  unfold SCAN_START_OFS_MAX, UINT_MAX in Hv.
  rewrite uint_small in Hs by lia.
  exists pg'. split; [done|]. split; [by rewrite Hs|].
  rewrite (page_scan_start_offset_direct _ _ _ Hpg'), Hs
    by (rewrite Hs; unfold SCAN_START_OFS_MAX, UINT_MAX; lia).
  rewrite Hdec. f_equal. by apply uword_small.
Qed.

(** C1 (amended).  For every byte offset [o] that is a multiple of TWO words
    (the double-lispword unit of the stored field) and lies within the span
    the field can hold without clipping, decoding after encoding returns [o]:
    [page_scan_start_offset(p) == o] after [set_page_scan_start_offset(p, o)]. *)
Theorem scan_start_offset_roundtrip (h : heap) (index o : Z) :
  platform_wf →
  0 ≤ index < Z.of_nat (length (page_table h)) →
  0 ≤ o < 2 ^ N_WORD_BITS →
  o mod (2 * N_WORD_BYTES) = 0 →
  within_scan_start_span o →
  ∃ h', set_page_scan_start_offset h index o = Ok h' ∧
        page_scan_start_offset h' index = Ok o.
Proof.
  intros Hwf Hidx Ho Hal Hspan.
  apply page_at_range in Hidx as [pg Hpg].
  destruct (encoder_stores h index o Hwf Ho Hal Hspan)
    as (v & _ & _ & Hst & _).
  destruct (store_scan_start_defined h index v pg Hpg) as [h' Hh'].
  rewrite <- Hst in Hh'. exists h'. split; [done|].
  by destruct (encode_then_read h h' index o Hwf Ho Hal Hspan Hh')
    as (_ & _ & _ & ?).
Qed.

(** For a power of two the boundary test is the mask test of the C macro. *)
Lemma IS_ALIGNED_mask (a n : Z) :
  0 ≤ n → IS_ALIGNED a (2 ^ n) = (Z.land a (2 ^ n - 1) =? 0).
Proof.
  intros Hn. unfold IS_ALIGNED.
  by rewrite <- Z.land_ones, Z.ones_equiv, Z.sub_1_r by lia.
Qed.

(** The encoder on an offset of [k] whole pages, clipping included. *)
Lemma encoder_stores_pages (h : heap) (index k : Z) :
  platform_wf → 0 ≤ k →
  set_page_scan_start_offset h index (k * GENCGC_PAGE_BYTES)
  = store_scan_start h index (clipped_page_distance k).
Proof.
  intros Hwf Hk. pose proof Hwf as [HW HC HPB HWB HC32 HN].
  assert (0 < GENCGC_PAGE_BYTES) as HpP
    by (rewrite HPB; apply Z.pow_pos_nonneg; lia).
  unfold set_page_scan_start_offset, clipped_page_distance, IS_ALIGNED.
  destruct (Z.eqb_spec k 0) as [->|Hnz].
  { rewrite Z.mul_0_l. simpl. by rewrite Z.shiftr_0_l. }
  destruct (Z.eqb_spec (k * GENCGC_PAGE_BYTES) 0) as [|_]; [nia|].
  rewrite Z.mod_mul by lia. simpl.
  rewrite scaled_page_aligned by done.
  destruct (Z.gtb_spec (2 * k + 1) SCAN_START_OFS_MAX).
  - unfold gc_assert. rewrite Z.min_r by lia. by destruct NDEBUG.
  - by rewrite Z.min_l by lia.
Qed.

End CodecProofs.

Lemma scan_start_offset_roundtrip_witness :
  @platform_wf linux_x86_64 ∧
  0 ≤ 0 < Z.of_nat (length (page_table one_page_heap)) ∧
  0 ≤ 3 * 32768 < 2 ^ @N_WORD_BITS linux_x86_64 ∧
  (3 * 32768) mod (2 * @N_WORD_BYTES linux_x86_64) = 0 ∧
  @within_scan_start_span linux_x86_64 (3 * 32768) ∧
  ∃ h', @set_page_scan_start_offset linux_x86_64 one_page_heap 0 (3 * 32768) = Ok h' ∧
        @page_scan_start_offset linux_x86_64 h' 0 = Ok (3 * 32768).
Proof.
  assert (@platform_wf linux_x86_64) as Hwf by (split; simpl; lia).
  assert (0 ≤ 0 < Z.of_nat (length (page_table one_page_heap))) as Hi
    by (simpl; lia).
  assert (0 ≤ 3 * 32768 < 2 ^ @N_WORD_BITS linux_x86_64) as Ho by (simpl; lia).
  assert ((3 * 32768) mod (2 * @N_WORD_BYTES linux_x86_64) = 0) as Ha
    by reflexivity.
  assert (@within_scan_start_span linux_x86_64 (3 * 32768)) as Hs
    by (vm_compute; reflexivity).
  repeat (split; [assumption|]).
  exact (@scan_start_offset_roundtrip linux_x86_64 one_page_heap 0 (3 * 32768)
           Hwf Hi Ho Ha Hs).
Defined.

(** Beyond the span: a page-aligned offset is clipped to the sentinel, any
    other offset trips the assertion. *)
Example encoder_clips_page_aligned :
  (h' ← @set_page_scan_start_offset linux_x86_64 one_page_heap 0
          (2 ^ 31 * 32768);
   pg ← page_at h' 0; Ok (scan_start_offset_ pg)) = Ok SCAN_START_OFS_MAX.
Proof. reflexivity. Qed.

Example encoder_rejects_unaligned_beyond_span :
  @set_page_scan_start_offset linux_x86_64 one_page_heap 0 (2 ^ 35 + 16) = Lose.
Proof. reflexivity. Qed.

(** C1 as worded: offsets that are multiples of ONE word.  The offset 8 is
    stored as 1, which the decoder reads as a page-scaled 0. *)
Lemma scan_start_roundtrip_word_multiple_fails :
  ¬ (∀ (h : heap) (index o : Z),
       0 ≤ index < Z.of_nat (length (page_table h)) →
       0 ≤ o < 2 ^ @N_WORD_BITS linux_x86_64 →
       o mod @N_WORD_BYTES linux_x86_64 = 0 →
       @within_scan_start_span linux_x86_64 o →
       ∃ h', @set_page_scan_start_offset linux_x86_64 h index o = Ok h' ∧
             @page_scan_start_offset linux_x86_64 h' index = Ok o).
Proof.
  intros H.
  destruct (H one_page_heap 0 8) as (h' & Hset & Hget).
  - simpl; lia.
  - simpl; lia.
  - reflexivity.
  - vm_compute. discriminate.
  - vm_compute in Hset. injection Hset as <-.
    vm_compute in Hget. discriminate.
Qed.

(** ** The iterated decoder *)

Section IterationProofs.
Context `{P : platform}.

Lemma sentinel_half : Z.shiftr SCAN_START_OFS_MAX 1 = 2 ^ 31 - 1.
Proof. reflexivity. Qed.

(** What the loop returns is a walk from its current look-back page. *)
Lemma scan_start_offset_loop_walk (h : heap) (index : Z) (fuel : nat) :
  ∀ tot t, scan_start_offset_loop fuel h index tot = Ok t →
           lookback_walk h (index - tot) (t - tot).
Proof.
  induction fuel as [|fuel IH]; intros tot t; simpl; [discriminate|].
  destruct (page_at h (index - tot)) as [pg| | |] eqn:E; simpl; try discriminate.
  destruct (Z.eqb_spec (scan_start_offset_ pg) SCAN_START_OFS_MAX) as [Hs|Hs].
  - intros Hl%IH.
    replace (t - tot)
      with (Z.shiftr (scan_start_offset_ pg) 1
            + (t - (tot + Z.shiftr (scan_start_offset_ pg) 1))) by lia.
    eapply lookback_step; [done..|].
    by replace (index - tot - Z.shiftr (scan_start_offset_ pg) 1)
      with (index - (tot + Z.shiftr (scan_start_offset_ pg) 1)) by lia.
  - intros [= <-].
    replace (tot + Z.shiftr (scan_start_offset_ pg) 1 - tot)
      with (Z.shiftr (scan_start_offset_ pg) 1) by lia.
    by apply lookback_stop.
Qed.

Lemma lookback_walk_in_table (h : heap) (p d : Z) :
  lookback_walk h p d → 0 ≤ p.
Proof. intros [? ? [? _]%page_at_Ok|? ? ? [? _]%page_at_Ok]; done. Qed.

(** Every walk is found by the loop, given one unrolling per page that lies
    at or before the look-back page. *)
Lemma lookback_walk_loop (h : heap) (index p d : Z) :
  lookback_walk h p d →
  ∀ tot fuel, p = index - tot → p < Z.of_nat fuel →
    scan_start_offset_loop fuel h index tot = Ok (tot + d).
Proof.
  induction 1 as [p pg E Hs|p pg d E Hs Hw IH]; intros tot fuel -> Hf.
  - destruct fuel as [|fuel]; simpl.
    { apply page_at_Ok in E. lia. }
    rewrite E. simpl.
    by destruct (Z.eqb_spec (scan_start_offset_ pg) SCAN_START_OFS_MAX).
  - destruct fuel as [|fuel]; simpl.
    { apply page_at_Ok in E. lia. }
    rewrite E. simpl.
    destruct (Z.eqb_spec (scan_start_offset_ pg) SCAN_START_OFS_MAX); [|done].
    rewrite Z.add_assoc. apply IH; [lia|].
    apply lookback_walk_in_table in Hw.
    rewrite Hs, sentinel_half in *. lia.
Qed.

(** The unrolling bound is never the reason the loop stops. *)
Lemma scan_start_offset_loop_fuel (h : heap) (index : Z) (fuel : nat) :
  ∀ tot, index - tot < Z.of_nat fuel →
         scan_start_offset_loop (S fuel) h index tot ≠ OutOfFuel ∧
         scan_start_offset_loop (S fuel) h index tot ≠ Lose.
Proof.
  induction fuel as [|fuel IH]; intros tot Hf.
  - simpl. unfold page_at.
    destruct (Z.ltb_spec (index - tot) 0); [done | lia].
  - change (scan_start_offset_loop (S (S fuel)) h index tot)
      with (pg ← page_at h (index - tot);
            if scan_start_offset_ pg =? SCAN_START_OFS_MAX
            then scan_start_offset_loop (S fuel) h index
                   (tot + Z.shiftr (scan_start_offset_ pg) 1)
            else Ok (tot + Z.shiftr (scan_start_offset_ pg) 1)).
    destruct (page_at_cases h (index - tot)) as [[pg E]| ->]; [|done].
    rewrite E. simpl.
    destruct (Z.eqb_spec (scan_start_offset_ pg) SCAN_START_OFS_MAX) as [Hs|];
      [|done].
    apply IH. rewrite Hs, sentinel_half. lia.
Qed.

(** In a region whose entries the encoder wrote, the walk from a page sums
    to the page's distance from the start of the region, however often the
    stored distance was clipped. *)
Lemma region_walk (h : heap) (start last : Z) :
  region_encoded h start last →
  ∀ k, 0 ≤ k → start + k ≤ last → lookback_walk h (start + k) k.
Proof.
  intros Hreg.
  enough (∀ k, 0 ≤ k →
               0 ≤ k → start + k ≤ last → lookback_walk h (start + k) k)
    by eauto.
  apply (Z_lt_induction
           (λ k, 0 ≤ k → start + k ≤ last → lookback_walk h (start + k) k)).
  intros k IH Hk Hlast.
  destruct (Hreg (start + k)) as (pg & E & Hs); [lia|].
  replace (start + k - start) with k in Hs by lia.
  unfold clipped_page_distance in Hs.
  destruct (Z.eqb_spec k 0) as [->|Hnz].
  { replace 0 with (Z.shiftr (scan_start_offset_ pg) 1) at 2
      by (by rewrite Hs).
    apply lookback_stop; [done|]. by rewrite Hs. }
  destruct (Z.le_gt_cases SCAN_START_OFS_MAX (2 * k + 1)) as [Hclip|Hfit].
  - (* clipped: one hop of [SCAN_START_OFS_MAX >> 1] pages *)
    rewrite Z.min_r in Hs by lia.
    unfold SCAN_START_OFS_MAX, UINT_MAX in Hclip.
    replace k with (Z.shiftr (scan_start_offset_ pg) 1 + (k - (2 ^ 31 - 1)))
      at 2 by (rewrite Hs, sentinel_half; lia).
    apply lookback_step; [done..|].
    rewrite Hs, sentinel_half.
    replace (start + k - (2 ^ 31 - 1)) with (start + (k - (2 ^ 31 - 1))) by lia.
    apply IH; lia.
  - rewrite Z.min_l in Hs by lia.
    replace k with (Z.shiftr (scan_start_offset_ pg) 1) at 2.
    + apply lookback_stop; [done|]. rewrite Hs. lia.
    + rewrite Hs, Z.shiftr_div_pow2 by lia. change (2 ^ 1) with 2.
      rewrite Z.add_comm, Z.mul_comm, Z.div_add by lia. done.
Qed.

(** The decoder always comes back: with a byte offset, or by reading
    outside the table. *)
Lemma page_scan_start_offset_terminates (h : heap) (index : Z) :
  page_scan_start_offset h index ≠ OutOfFuel ∧
  page_scan_start_offset h index ≠ Lose.
Proof.
  unfold page_scan_start_offset.
  destruct (page_at_cases h index) as [[pg E]| ->]; [|done].
  rewrite E. simpl. destruct (negb _); [done|].
  unfold scan_start_offset_iterated.
  destruct (scan_start_offset_loop_fuel h index (length (page_table h)) 0)
    as [Hf Hl].
  { apply page_at_Ok in E as [? ?%lookup_lt_Some]. lia. }
  by destruct (scan_start_offset_loop _ h index 0).
Qed.

(** C2.  On a page whose stored field is the sentinel, the decoder returns
    the byte offset of the walk: back by "stored >> 1" pages while the page
    visited holds the sentinel, the distances summed and shifted left by
    the page-size log.  When the walk leaves the page table there is no
    such sum and the C code reads outside the table.  In a region whose
    entries the encoder wrote, the sum is the true distance of the page from
    the start of its region. *)
Theorem page_scan_start_offset_iterates (h : heap) (index : Z) (pg : page) :
  page_at h index = Ok pg →
  scan_start_offset_ pg = SCAN_START_OFS_MAX →
  (∀ d, lookback_walk h index d →
        page_scan_start_offset h index
        = Ok (uword (Z.shiftl d GENCGC_CARD_SHIFT))) ∧
  (∀ r, page_scan_start_offset h index = Ok r →
        ∃ d, lookback_walk h index d ∧
             r = uword (Z.shiftl d GENCGC_CARD_SHIFT)) ∧
  ((¬ ∃ d, lookback_walk h index d) →
   page_scan_start_offset h index = Undefined) ∧
  (∀ start, start ≤ index → region_encoded h start index →
            page_scan_start_offset h index
            = Ok (uword (Z.shiftl (index - start) GENCGC_CARD_SHIFT))).
Proof.
  intros E Hs.
  assert (∀ start, start ≤ index → region_encoded h start index →
                   lookback_walk h index (index - start)) as Hregion.
  { intros start Hle Hreg.
    pose proof (region_walk h start index Hreg (index - start)) as Hw.
    replace (start + (index - start)) with index in Hw by lia.
    apply Hw; lia. }
  assert (page_scan_start_offset h index = scan_start_offset_iterated h index)
    as ->.
  { unfold page_scan_start_offset. rewrite E. simpl.
    by destruct (Z.eqb_spec (scan_start_offset_ pg) SCAN_START_OFS_MAX). }
  assert (index < Z.of_nat (length (page_table h))) as Hlen.
  { apply page_at_Ok in E as [? ?%lookup_lt_Some]. lia. }
  unfold scan_start_offset_iterated.
  assert (∀ r, (tot ← scan_start_offset_loop (S (length (page_table h))) h index 0;
                Ok (uword (Z.shiftl tot GENCGC_CARD_SHIFT))) = Ok r →
               ∃ d, lookback_walk h index d ∧
                    r = uword (Z.shiftl d GENCGC_CARD_SHIFT)) as Hret.
  { intros r.
    destruct (scan_start_offset_loop _ h index 0) as [t| | |] eqn:El;
      try discriminate.
    intros [= <-]. exists t. split; [|done].
    apply scan_start_offset_loop_walk in El.
    by rewrite !Z.sub_0_r in El. }
  assert (∀ d, lookback_walk h index d →
               (tot ← scan_start_offset_loop (S (length (page_table h))) h index 0;
                Ok (uword (Z.shiftl tot GENCGC_CARD_SHIFT)))
               = Ok (uword (Z.shiftl d GENCGC_CARD_SHIFT))) as Hwalk.
  { intros d Hw.
    rewrite (lookback_walk_loop h index index d Hw 0) by lia. done. }
  split; [|split; [|split]].
  - exact Hwalk.
  - exact Hret.
  - intros Hno.
    destruct (scan_start_offset_loop_fuel h index (length (page_table h)) 0)
      as [Hf Hl]; [lia|].
    destruct (scan_start_offset_loop _ h index 0) as [t| | |] eqn:El;
      try done.
    destruct (Hret _ eq_refl) as (d & Hw & _). destruct Hno. eauto.
  - intros start Hle Hreg. by apply Hwalk, Hregion.
Qed.

(** Entry [j] of a region of [n] pages written by the encoder. *)
Lemma encoded_region_page_at (n j : Z) :
  0 ≤ j < n →
  page_at (encoded_region n) j
  = Ok (used_page (clipped_page_distance j) 4096).
Proof.
  intros Hj. apply page_at_Ok. split; [lia|].
  unfold encoded_region. cbn [page_table].
  rewrite list_lookup_fmap, lookup_seqZ_lt by lia.
  cbn [fmap option_fmap option_map]. do 3 f_equal. lia.
Qed.

Lemma encoded_region_encoded (n last : Z) :
  last < n → region_encoded (encoded_region n) 0 last.
Proof.
  intros Hn j Hj. exists (used_page (clipped_page_distance j) 4096).
  split; [apply encoded_region_page_at; lia|].
  cbn [scan_start_offset_ used_page]. f_equal. lia.
Qed.

End IterationProofs.

Lemma page_scan_start_offset_iterates_witness :
  page_at long_region (2 ^ 31 - 1) = Ok (used_page SCAN_START_OFS_MAX 4096) ∧
  scan_start_offset_ (used_page SCAN_START_OFS_MAX 4096) = SCAN_START_OFS_MAX ∧
  page_at long_region 0 = Ok (used_page 0 4096) ∧
  lookback_walk long_region (2 ^ 31 - 1) (2 ^ 31 - 1) ∧
  region_encoded long_region 0 (2 ^ 31 - 1) ∧
  @page_scan_start_offset linux_x86_64 long_region (2 ^ 31 - 1)
  = Ok ((2 ^ 31 - 1) * 32768).
Proof.
  assert (page_at long_region (2 ^ 31 - 1)
          = Ok (used_page SCAN_START_OFS_MAX 4096)) as E.
  { exact (encoded_region_page_at (2 ^ 31) (2 ^ 31 - 1) ltac:(lia)). }
  assert (scan_start_offset_ (used_page SCAN_START_OFS_MAX 4096)
          = SCAN_START_OFS_MAX) as Hs by reflexivity.
  assert (page_at long_region 0 = Ok (used_page 0 4096)) as E0.
  { exact (encoded_region_page_at (2 ^ 31) 0 ltac:(lia)). }
  assert (lookback_walk long_region (2 ^ 31 - 1) (2 ^ 31 - 1)) as Hw.
  { exact (lookback_step long_region (2 ^ 31 - 1)
             (used_page SCAN_START_OFS_MAX 4096) 0 E Hs
             (lookback_stop long_region 0 (used_page 0 4096) E0
                ltac:(discriminate))). }
  assert (region_encoded long_region 0 (2 ^ 31 - 1)) as Hreg.
  { exact (encoded_region_encoded (2 ^ 31) (2 ^ 31 - 1) ltac:(lia)). }
  destruct (@page_scan_start_offset_iterates linux_x86_64 long_region
              (2 ^ 31 - 1) _ E Hs) as (Hwalk & _ & _ & Hregion).
  split; [exact E|]. split; [exact Hs|]. split; [exact E0|].
  split; [exact Hw|]. split; [exact Hreg|].
  exact (Hregion 0 ltac:(lia) Hreg).
Defined.

(** The same offset follows from the walk itself: one sentinel hop from
    page [2^31 - 1] lands on page 0, whose field is 0. *)
Example long_region_walk_decoded :
  @page_scan_start_offset linux_x86_64 long_region (2 ^ 31 - 1)
  = Ok ((2 ^ 31 - 1) * 32768) ∧
  Z.shiftr SCAN_START_OFS_MAX 1 = 2 ^ 31 - 1.
Proof.
  split; [|reflexivity].
  assert (page_at long_region (2 ^ 31 - 1)
          = Ok (used_page SCAN_START_OFS_MAX 4096)) as E.
  { exact (encoded_region_page_at (2 ^ 31) (2 ^ 31 - 1) ltac:(lia)). }
  assert (page_at long_region 0 = Ok (used_page 0 4096)) as E0.
  { exact (encoded_region_page_at (2 ^ 31) 0 ltac:(lia)). }
  unfold page_scan_start_offset. rewrite E.
  cbn [mbind outcome_bind used_page scan_start_offset_].
  change (negb (SCAN_START_OFS_MAX =? SCAN_START_OFS_MAX)) with false.
  cbv iota.
  unfold scan_start_offset_iterated.
  rewrite (lookback_walk_loop long_region (2 ^ 31 - 1) (2 ^ 31 - 1)
             (2 ^ 31 - 1)
             (lookback_step long_region (2 ^ 31 - 1)
                (used_page SCAN_START_OFS_MAX 4096) 0 E eq_refl
                (lookback_stop long_region 0 (used_page 0 4096) E0
                   ltac:(discriminate))) 0).
  - reflexivity.
  - lia.
  - unfold long_region, encoded_region. cbn [page_table].
    rewrite length_fmap, length_seqZ. lia.
Qed.

(** A lone sentinel page: the first hop leaves the table, and the C code
    reads in front of it. *)
Example lone_sentinel_leaves_table :
  @page_scan_start_offset linux_x86_64 sentinel_heap 0 = Undefined.
Proof. reflexivity. Qed.

(** ** The contiguous-block oracle *)

Section OracleProofs.
Context `{P : platform}.

Lemma page_words_used_Ok (h : heap) (p : Z) (pg : page) :
  page_at h p = Ok pg → page_words_used h p = Ok (words_used_ pg).
Proof. intros E. unfold page_words_used. by rewrite E. Qed.

Lemma page_starts_Ok (h : heap) (p : Z) (pg : page) :
  page_at h p = Ok pg →
  page_starts_contiguous_block_p h p = Ok (scan_start_offset_ pg =? 0).
Proof. intros E. unfold page_starts_contiguous_block_p. by rewrite E. Qed.

Lemma page_starts_true (h : heap) (p : Z) :
  page_starts_contiguous_block_p h p = Ok true ↔
  ∃ pg, page_at h p = Ok pg ∧ scan_start_offset_ pg = 0.
Proof.
  unfold page_starts_contiguous_block_p. split.
  - destruct (page_at h p) as [pg| | |]; simpl; try discriminate.
    intros [= ?%Z.eqb_eq]. eauto.
  - intros (pg & -> & Hz). simpl. by rewrite Hz.
Qed.

(** Below the sentinel the decoder reads the field alone, and reads the
    offset zero from the fields 0 and 1: bit 0 is the scale flag, cleared
    before the shift. *)
Lemma decoded_zero_fields (h : heap) (p : Z) (pg : page) :
  platform_wf →
  page_at h p = Ok pg →
  0 ≤ scan_start_offset_ pg < SCAN_START_OFS_MAX →
  (page_scan_start_offset h p = Ok 0 ↔
   scan_start_offset_ pg = 0 ∨ scan_start_offset_ pg = 1).
Proof.
  intros [] E Hs.
  assert (SCAN_START_OFS_MAX = 2 ^ 32 - 1) as HMAX by reflexivity.
  rewrite (page_scan_start_offset_direct _ _ _ E) by lia.
  rewrite land_clear_scale_bit by lia.
  set (s := scan_start_offset_ pg) in *.
  set (sh := if Z.land s 1 =? 1 then GENCGC_CARD_SHIFT - 1 else WORD_SHIFT).
  assert (0 ≤ sh ≤ 31) as Hsh by (unfold sh; case_match; lia).
  assert (0 ≤ s / 2 < 2 ^ 31) as Hhalf.
  { split; [apply Z.div_pos; lia|]. apply Z.div_lt_upper_bound; lia. }
  assert (0 < 2 ^ sh ≤ 2 ^ 31) as Hp.
  { split; [apply Z.pow_pos_nonneg; lia|]. apply Z.pow_le_mono_r; lia. }
  assert (2 ^ 64 ≤ 2 ^ N_WORD_BITS) by (apply Z.pow_le_mono_r; lia).
  rewrite Z.shiftl_mul_pow2 by lia.
  rewrite uword_small by nia.
  assert (s = 2 * (s / 2) + s mod 2) as Hdm by (apply Z.div_mod; lia).
  assert (0 ≤ s mod 2 < 2) by (apply Z.mod_pos_bound; lia).
  split.
  - intros [= Hz]. assert (s / 2 = 0) by nia. lia.
  - intros Hz. f_equal. assert (s / 2 = 0) as ->; [|lia].
    apply Z.div_small. lia.
Qed.

(** C5 (amended).  [page_starts_contiguous_block_p] is the test "the page's
    stored scan-start field is zero".  A zero field decodes to the offset
    zero.  The converse holds for every field below the sentinel other
    than 1, and so for every entry the encoder wrote for a
    double-word-aligned offset within the span of the field: there the page
    starts a block exactly when the decoded offset is zero.  (The field 1,
    which the encoder writes for an offset of one word, decodes to zero on a
    page that does not start a block.) *)
Theorem page_starts_contiguous_block_p_iff (h : heap) (p : Z) (pg : page) :
  page_at h p = Ok pg →
  page_starts_contiguous_block_p h p = Ok (scan_start_offset_ pg =? 0) ∧
  (scan_start_offset_ pg = 0 → page_scan_start_offset h p = Ok 0) ∧
  (platform_wf →
   0 ≤ scan_start_offset_ pg < SCAN_START_OFS_MAX →
   scan_start_offset_ pg ≠ 1 →
   (page_starts_contiguous_block_p h p = Ok true ↔
    page_scan_start_offset h p = Ok 0)) ∧
  (∀ h0 o, platform_wf →
           0 ≤ o < 2 ^ N_WORD_BITS →
           o mod (2 * N_WORD_BYTES) = 0 →
           within_scan_start_span o →
           set_page_scan_start_offset h0 p o = Ok h →
           (page_starts_contiguous_block_p h p = Ok true ↔
            page_scan_start_offset h p = Ok 0)).
Proof.
  intros E. split; [by apply page_starts_Ok|]. split; [|split].
  - intros Hz. rewrite (page_scan_start_offset_direct _ _ _ E).
    + rewrite Hz. simpl. by rewrite Z.shiftl_0_l.
    + by rewrite Hz.
  - intros Hwf Hs Hne.
    rewrite (decoded_zero_fields h p pg Hwf E Hs), page_starts_true. split.
    + intros (pg' & E' & Hz). assert (pg' = pg) as -> by congruence.
      by left.
    + intros [Hz|Hz]; [|done]. by exists pg.
  - intros h0 o Hwf Ho Hal Hspan Hset.
    destruct (encode_then_read h0 h p o Hwf Ho Hal Hspan Hset)
      as (pg' & Hpg' & Hz & Hdec).
    rewrite Hdec, page_starts_true. split.
    + intros (pg'' & E'' & Hz''). assert (pg'' = pg') as -> by congruence.
      f_equal. by apply Hz.
    + intros [= ->]. exists pg'. split; [done|]. by apply Hz.
Qed.

Lemma page_ends_release (h : heap) (p g : Z) :
  DEBUG = false → page_ends_contiguous_block_p h p g = ends_answer h p.
Proof.
  intros HD. unfold page_ends_contiguous_block_p, ends_answer. rewrite HD.
  by destruct (orelse _ _).
Qed.

Lemma page_ends_returns (h : heap) (p g : Z) (b : bool) :
  page_ends_contiguous_block_p h p g = Ok b → ends_answer h p = Ok b.
Proof.
  unfold page_ends_contiguous_block_p. fold (ends_answer h p).
  destruct (ends_answer h p) as [a| | |]; simpl; try discriminate.
  destruct DEBUG; [|done].
  destruct (orelse _ _) as [sa| | |]; simpl; try discriminate.
  destruct (gc_assert _); simpl; try discriminate. done.
Qed.

Lemma ends_answer_true (h : heap) (p : Z) (b : bool) :
  ends_answer h p = Ok b →
  (b = true ↔
   (∃ w, page_words_used h p = Ok w ∧ w < GENCGC_PAGE_WORDS) ∨
   page_starts_contiguous_block_p h (p + 1) = Ok true).
Proof.
  unfold ends_answer, orelse.
  destruct (page_words_used h p) as [w| | |] eqn:Ew; simpl; try discriminate.
  destruct (Z.ltb_spec w GENCGC_PAGE_WORDS) as [Hw|Hw].
  - intros [= <-]. split; [|done]. intros _. left. eauto.
  - intros ->. split; [intros ->; by right|].
    intros [(w' & [= <-] & ?)| [= ->]]; [lia | done].
Qed.

Lemma ends_answer_defined (h : heap) (p : Z) (pg : page) :
  page_at h p = Ok pg →
  words_used_ pg < GENCGC_PAGE_WORDS ∨ p + 1 < Z.of_nat (length (page_table h)) →
  ∃ b, ends_answer h p = Ok b.
Proof.
  intros E Hn. unfold ends_answer, orelse.
  rewrite (page_words_used_Ok _ _ _ E). simpl.
  destruct (Z.ltb_spec (words_used_ pg) GENCGC_PAGE_WORDS) as [Hw|Hw]; [eauto|].
  destruct (proj2 (page_at_range h (p + 1))) as [pg1 E1].
  { apply page_at_Ok in E. lia. }
  rewrite (page_starts_Ok _ _ _ E1). eauto.
Qed.

End OracleProofs.

Section BlockProofs.
Context `{P : platform}.

(** C4.  Whenever [page_ends_contiguous_block_p(p, g)] returns, it returns
    true exactly when the page is not fully used ([words_used] below the page
    capacity) or the next page starts its own block; without the DEBUG
    cross-check it returns whenever the entries it reads are in the table. *)
Theorem page_ends_contiguous_block_p_iff (h : heap) (p g : Z) :
  (∀ b, page_ends_contiguous_block_p h p g = Ok b →
        (b = true ↔
         (∃ w, page_words_used h p = Ok w ∧ w < GENCGC_PAGE_WORDS) ∨
         page_starts_contiguous_block_p h (p + 1) = Ok true)) ∧
  (DEBUG = false →
   ∀ pg, page_at h p = Ok pg →
         words_used_ pg < GENCGC_PAGE_WORDS ∨
           p + 1 < Z.of_nat (length (page_table h)) →
         ∃ b, page_ends_contiguous_block_p h p g = Ok b).
Proof.
  split.
  - intros b Hb%page_ends_returns. by apply ends_answer_true.
  - intros HD pg E Hn. rewrite page_ends_release by done.
    by eapply ends_answer_defined.
Qed.

(** C10.  Without the DEBUG cross-check the generation argument plays no
    part in [page_ends_contiguous_block_p]. *)
Theorem page_ends_generation_independent (h : heap) (p g1 g2 : Z) :
  DEBUG = false →
  page_ends_contiguous_block_p h p g1 = page_ends_contiguous_block_p h p g2.
Proof. intros HD. by rewrite !page_ends_release. Qed.

(** *** The forward scan *)

Lemma final_page_loop_sound (h : heap) (first : Z) (fuel : nat) :
  ∀ last q, final_page_loop fuel h first last = Ok q →
    ∃ pg, page_at h first = Ok pg ∧ last ≤ q ∧
          page_ends_contiguous_block_p h q (gen pg) = Ok true ∧
          ∀ r, last ≤ r < q →
               page_ends_contiguous_block_p h r (gen pg) = Ok false.
Proof.
  induction fuel as [|fuel IH]; intros last q; simpl; [discriminate|].
  destruct (page_at h first) as [pg| | |] eqn:E; simpl; try discriminate.
  destruct (page_ends_contiguous_block_p h last (gen pg)) as [[]| | |] eqn:Ee;
    simpl; try discriminate.
  - intros [= <-]. exists pg. repeat split; [lia | done | lia].
  - intros (pg' & [= <-] & Hle & Hq & Hbetween)%IH.
    exists pg. repeat split; [lia | done |].
    intros r Hr. destruct (decide (r = last)) as [->|]; [done|].
    apply Hbetween. lia.
Qed.

Lemma final_page_loop_complete (h : heap) (first : Z) (pg : page) (q : Z) :
  page_at h first = Ok pg →
  page_ends_contiguous_block_p h q (gen pg) = Ok true →
  ∀ fuel last,
    last ≤ q → q - last < Z.of_nat fuel →
    (∀ r, last ≤ r < q →
          page_ends_contiguous_block_p h r (gen pg) = Ok false) →
    final_page_loop fuel h first last = Ok q.
Proof.
  intros E Hq. induction fuel as [|fuel IH]; intros last Hle Hf Hbetween;
    [lia|].
  simpl. rewrite E. simpl.
  destruct (decide (last = q)) as [->|Hne].
  - by rewrite Hq.
  - rewrite Hbetween by lia. simpl.
    apply IH; [lia..|]. intros r Hr. apply Hbetween. lia.
Qed.

Lemma page_ends_in_table (h : heap) (p g : Z) (b : bool) :
  page_ends_contiguous_block_p h p g = Ok b →
  0 ≤ p < Z.of_nat (length (page_table h)).
Proof.
  intros Hb%page_ends_returns. apply page_at_range.
  unfold ends_answer, orelse, page_words_used in Hb.
  destruct (page_at h p) as [pg| | |]; simpl in Hb; try discriminate. eauto.
Qed.

Lemma page_ends_no_fuel (h : heap) (p g : Z) :
  page_ends_contiguous_block_p h p g ≠ OutOfFuel.
Proof.
  unfold page_ends_contiguous_block_p, orelse, page_words_used,
    page_starts_contiguous_block_p, gc_assert.
  destruct (page_at_cases h p) as [[pg ->]| ->]; [|done].
  destruct (page_at_cases h (p + 1)) as [[pg1 ->]| ->]; simpl;
    repeat (case_match; simpl; try done).
Qed.

(** The scan stops because it finds a final page or leaves the table, never
    because the unrolling bound is reached. *)
Lemma final_page_loop_fuel (h : heap) (first : Z) (fuel : nat) :
  ∀ last, Z.of_nat (length (page_table h)) - last ≤ Z.of_nat fuel →
          final_page_loop (S fuel) h first last ≠ OutOfFuel.
Proof.
  induction fuel as [|fuel IH]; intros last Hf.
  - simpl. destruct (page_at_cases h first) as [[a ->]| ->]; simpl; try done.
    pose proof (page_ends_no_fuel h last (gen a)).
    destruct (page_ends_contiguous_block_p h last (gen a)) as [[]| | |] eqn:Ee;
      simpl; try done.
    apply page_ends_in_table in Ee. lia.
  - change (final_page_loop (S (S fuel)) h first last)
      with (pg ← page_at h first;
            e ← page_ends_contiguous_block_p h last (gen pg);
            if e : bool then Ok last
            else final_page_loop (S fuel) h first (last + 1)).
    destruct (page_at_cases h first) as [[a ->]| ->]; simpl; try done.
    pose proof (page_ends_no_fuel h last (gen a)).
    destruct (page_ends_contiguous_block_p h last (gen a)) as [[]| | |];
      simpl; try done.
    apply IH. lia.
Qed.

Lemma contiguous_block_final_page_terminates (h : heap) (first : Z) :
  contiguous_block_final_page h first ≠ OutOfFuel.
Proof.
  unfold contiguous_block_final_page.
  destruct (Z.le_gt_cases 0 first).
  - apply final_page_loop_fuel. lia.
  - simpl. unfold page_at. by destruct (Z.ltb_spec first 0); [|lia].
Qed.

Lemma contiguous_block_final_page_iff (h : heap) (first : Z) (pg : page) (q : Z) :
  page_at h first = Ok pg →
  (contiguous_block_final_page h first = Ok q ↔
   first ≤ q ∧
   page_ends_contiguous_block_p h q (gen pg) = Ok true ∧
   ∀ r, first ≤ r < q →
        page_ends_contiguous_block_p h r (gen pg) = Ok false).
Proof.
  intros E. unfold contiguous_block_final_page. split.
  - intros (pg' & E' & ?)%final_page_loop_sound.
    by assert (pg' = pg) as -> by congruence.
  - intros (Hle & Hq & Hbetween).
    apply (final_page_loop_complete h first pg q); try done.
    apply page_ends_in_table in Hq. apply page_at_Ok in E as [? _]. lia.
Qed.

(** The three-page region of section 8.  With the DEBUG cross-check compiled
    in, the check agrees when the three pages lie below [next_free_page] and
    pages 1 and 2 are of the generation of page 0. *)
Lemma three_page_scenario (h : heap) (p0 p1 p2 : page) (rest : list page) :
  10 < GENCGC_PAGE_WORDS →
  page_table h = p0 :: p1 :: p2 :: rest →
  scan_start_offset_ p0 = 0 →
  scan_start_offset_ p1 ≠ 0 →
  scan_start_offset_ p2 ≠ 0 →
  words_used_ p0 = GENCGC_PAGE_WORDS →
  words_used_ p1 = GENCGC_PAGE_WORDS →
  words_used_ p2 = 10 →
  (DEBUG = true →
   3 ≤ next_free_page h ∧ gen p1 = gen p0 ∧ gen p2 = gen p0) →
  page_starts_contiguous_block_p h 0 = Ok true ∧
  page_starts_contiguous_block_p h 1 = Ok false ∧
  page_starts_contiguous_block_p h 2 = Ok false ∧
  page_ends_contiguous_block_p h 0 (gen p0) = Ok false ∧
  page_ends_contiguous_block_p h 1 (gen p0) = Ok false ∧
  page_ends_contiguous_block_p h 2 (gen p0) = Ok true ∧
  contiguous_block_final_page h 0 = Ok 2.
Proof.
  intros Hcap Hpt Hs0 Hs1 Hs2 Hw0 Hw1 Hw2 Hdebug.
  assert (page_at h 0 = Ok p0) as E0 by (unfold page_at; by rewrite Hpt).
  assert (page_at h 1 = Ok p1) as E1 by (unfold page_at; by rewrite Hpt).
  assert (page_at h 2 = Ok p2) as E2 by (unfold page_at; by rewrite Hpt).
  assert (page_starts_contiguous_block_p h 0 = Ok true) as S0.
  { rewrite (page_starts_Ok _ _ _ E0), Hs0. done. }
  assert (page_starts_contiguous_block_p h 1 = Ok false) as S1.
  { rewrite (page_starts_Ok _ _ _ E1). f_equal. by apply Z.eqb_neq. }
  assert (page_starts_contiguous_block_p h 2 = Ok false) as S2.
  { rewrite (page_starts_Ok _ _ _ E2). f_equal. by apply Z.eqb_neq. }
  assert (page_ends_contiguous_block_p h 0 (gen p0) = Ok false ∧
          page_ends_contiguous_block_p h 1 (gen p0) = Ok false ∧
          page_ends_contiguous_block_p h 2 (gen p0) = Ok true) as He.
  { unfold page_ends_contiguous_block_p, orelse, gc_assert.
    change (0 + 1) with 1. change (1 + 1) with 2.
    rewrite !(page_words_used_Ok _ _ _ E0), !(page_words_used_Ok _ _ _ E1),
      !(page_words_used_Ok _ _ _ E2), Hw0, Hw1, Hw2, S1, S2, E1, E2. simpl.
    rewrite Z.ltb_irrefl.
    destruct (Z.ltb_spec 10 GENCGC_PAGE_WORDS); [|lia].
    destruct DEBUG; [|done].
    destruct Hdebug as (Hnfp & -> & ->); [done|].
    rewrite Z.eqb_refl. simpl.
    destruct (Z.geb_spec 1 (next_free_page h)); [lia|].
    destruct (Z.geb_spec 2 (next_free_page h)); [lia|].
    destruct (Z.eqb_spec GENCGC_PAGE_WORDS 0); [lia|]. simpl.
    by destruct NDEBUG. }
  repeat split; try done; try apply He.
  apply (contiguous_block_final_page_iff h 0 p0 2 E0).
  split; [lia|]. split; [apply He|].
  intros r Hr. destruct (decide (r = 0)) as [->|]; [apply He|].
  assert (r = 1) as -> by lia. apply He.
Qed.

(** C6.  On a region of three pages that starts at page 0, with pages 0 and 1
    full and 10 words used on page 2: page 0 starts a block and pages 1 and 2
    do not, pages 0 and 1 do not end the block and page 2 does, and the final
    page of the block of page 0 is page 2.  In general
    [contiguous_block_final_page(first)] returns [q] exactly when [q] is the
    least page at or after [first] that ends a block: [q] ends one, and no
    page from [first] up to [q] (exclusive) does. *)
Theorem contiguous_block_final_page_least :
  (∀ (h : heap) (p0 p1 p2 : page) (rest : list page),
     10 < GENCGC_PAGE_WORDS →
     page_table h = p0 :: p1 :: p2 :: rest →
     scan_start_offset_ p0 = 0 →
     scan_start_offset_ p1 ≠ 0 →
     scan_start_offset_ p2 ≠ 0 →
     words_used_ p0 = GENCGC_PAGE_WORDS →
     words_used_ p1 = GENCGC_PAGE_WORDS →
     words_used_ p2 = 10 →
     (DEBUG = true →
      3 ≤ next_free_page h ∧ gen p1 = gen p0 ∧ gen p2 = gen p0) →
     page_starts_contiguous_block_p h 0 = Ok true ∧
     page_starts_contiguous_block_p h 1 = Ok false ∧
     page_starts_contiguous_block_p h 2 = Ok false ∧
     page_ends_contiguous_block_p h 0 (gen p0) = Ok false ∧
     page_ends_contiguous_block_p h 1 (gen p0) = Ok false ∧
     page_ends_contiguous_block_p h 2 (gen p0) = Ok true ∧
     contiguous_block_final_page h 0 = Ok 2) ∧
  (∀ (h : heap) (first : Z) (pg : page) (q : Z),
     page_at h first = Ok pg →
     (contiguous_block_final_page h first = Ok q ↔
      first ≤ q ∧
      page_ends_contiguous_block_p h q (gen pg) = Ok true ∧
      ∀ r, first ≤ r < q →
           page_ends_contiguous_block_p h r (gen pg) = Ok false)) ∧
  (∀ (h : heap) (first : Z),
     contiguous_block_final_page h first ≠ OutOfFuel).
Proof.
  split; [|split].
  - apply three_page_scenario.
  - apply contiguous_block_final_page_iff.
  - apply contiguous_block_final_page_terminates.
Qed.

End BlockProofs.

(** The encoder builds the scenario's table from the offsets 0, one page and
    two pages. *)
Example three_page_region_encoded :
  (h1 ← @set_page_scan_start_offset linux_x86_64 three_page_blank 0 0;
   h2 ← @set_page_scan_start_offset linux_x86_64 h1 1 32768;
   @set_page_scan_start_offset linux_x86_64 h2 2 65536) = Ok three_page_region.
Proof. reflexivity. Qed.

Lemma page_starts_contiguous_block_p_iff_witness :
  page_at one_page_back 0 = Ok back_one_page ∧
  @page_starts_contiguous_block_p one_page_back 0 = Ok false ∧
  (0 ≤ scan_start_offset_ back_one_page < SCAN_START_OFS_MAX →
   scan_start_offset_ back_one_page ≠ 1 →
   (page_starts_contiguous_block_p one_page_back 0 = Ok true ↔
    @page_scan_start_offset linux_x86_64 one_page_back 0 = Ok 0)) ∧
  (@set_page_scan_start_offset linux_x86_64 one_page_heap 0 32768
     = Ok one_page_back →
   (page_starts_contiguous_block_p one_page_back 0 = Ok true ↔
    @page_scan_start_offset linux_x86_64 one_page_back 0 = Ok 0)).
Proof.
  assert (page_at one_page_back 0 = Ok back_one_page) as E by reflexivity.
  assert (@platform_wf linux_x86_64) as Hwf by (split; simpl; lia).
  destruct (@page_starts_contiguous_block_p_iff linux_x86_64
              one_page_back 0 back_one_page E) as (Hs & _ & Hf & Hd).
  split; [exact E|]. split; [exact Hs|]. split.
  - exact (Hf Hwf).
  - apply (Hd one_page_heap 32768).
    + exact Hwf.
    + simpl; lia.
    + reflexivity.
    + vm_compute. reflexivity.
Defined.

(** C5 as worded: a page starts a block exactly when its decoded offset is
    zero.  The encoder stores the field 1 for an offset of one word (8
    bytes); the page does not start a block, and the decoder, taking bit 0
    for the scale flag, reads the offset 0. *)
Lemma page_starts_differs_from_decoded_zero :
  @set_page_scan_start_offset linux_x86_64 one_page_heap 0 8
  = Ok one_word_back ∧
  page_starts_contiguous_block_p one_word_back 0 = Ok false ∧
  @page_scan_start_offset linux_x86_64 one_word_back 0 = Ok 0 ∧
  ¬ (page_starts_contiguous_block_p one_word_back 0 = Ok true ↔
     @page_scan_start_offset linux_x86_64 one_word_back 0 = Ok 0).
Proof.
  split; [reflexivity|]. split; [reflexivity|]. split; [reflexivity|].
  intros [_ H]. discriminate (H eq_refl).
Qed.

(** The same for every table: no reading of C5 on the decoded offset holds
    for all entries the encoder can write. *)
Remark page_starts_not_decoded_zero_in_general :
  ¬ (∀ (h0 h : heap) (p o : Z),
       @set_page_scan_start_offset linux_x86_64 h0 p o = Ok h →
       (page_starts_contiguous_block_p h p = Ok true ↔
        @page_scan_start_offset linux_x86_64 h p = Ok 0)).
Proof.
  intros H.
  assert (@set_page_scan_start_offset linux_x86_64 one_page_heap 0 8
          = Ok one_word_back) as Hset by reflexivity.
  assert (@page_scan_start_offset linux_x86_64 one_word_back 0 = Ok 0)
    as Hdec by reflexivity.
  apply (H _ _ _ _ Hset) in Hdec. vm_compute in Hdec. discriminate.
Qed.

Lemma page_ends_contiguous_block_p_iff_witness :
  @DEBUG linux_x86_64 = false ∧
  page_at three_page_region 2 = Ok (used_page 5 10) ∧
  (words_used_ (used_page 5 10) < @GENCGC_PAGE_WORDS linux_x86_64 ∨
   2 + 1 < Z.of_nat (length (page_table three_page_region))) ∧
  ∃ b, @page_ends_contiguous_block_p linux_x86_64 three_page_region 2 0 = Ok b ∧
       (b = true ↔
        (∃ w, page_words_used three_page_region 2 = Ok w ∧
              w < @GENCGC_PAGE_WORDS linux_x86_64) ∨
        page_starts_contiguous_block_p three_page_region (2 + 1) = Ok true).
Proof.
  assert (@DEBUG linux_x86_64 = false) as HD by reflexivity.
  assert (page_at three_page_region 2 = Ok (used_page 5 10)) as E
    by reflexivity.
  assert (words_used_ (used_page 5 10) < @GENCGC_PAGE_WORDS linux_x86_64 ∨
          2 + 1 < Z.of_nat (length (page_table three_page_region))) as Hn
    by (left; simpl; lia).
  destruct (@page_ends_contiguous_block_p_iff linux_x86_64 three_page_region 2 0)
    as [Hiff Hdef].
  destruct (Hdef HD _ E Hn) as [b Hb].
  split; [exact HD|]. split; [exact E|]. split; [exact Hn|].
  exists b. split; [exact Hb|]. exact (Hiff b Hb).
Defined.

Lemma page_ends_generation_independent_witness :
  @DEBUG linux_x86_64 = false ∧
  @page_ends_contiguous_block_p linux_x86_64 two_full_pages 0 0
  = @page_ends_contiguous_block_p linux_x86_64 two_full_pages 0 1.
Proof.
  split; [reflexivity|].
  apply (@page_ends_generation_independent linux_x86_64 two_full_pages 0 0 1).
  reflexivity.
Defined.

(** With the DEBUG cross-check compiled in, the generation argument is read:
    on a full page followed by its continuation the check passes for the
    generation of the next page and aborts for another one. *)
Remark debug_cross_check_reads_generation :
  @page_ends_contiguous_block_p debug_build two_full_pages 0 0 = Ok false ∧
  @page_ends_contiguous_block_p debug_build two_full_pages 0 1 = Lose.
Proof. split; reflexivity. Qed.

Lemma contiguous_block_final_page_least_witness :
  10 < @GENCGC_PAGE_WORDS debug_build ∧
  (@DEBUG debug_build = true →
   3 ≤ next_free_page three_page_region ∧
   gen (used_page 3 4096) = gen (used_page 0 4096) ∧
   gen (used_page 5 10) = gen (used_page 0 4096)) ∧
  page_starts_contiguous_block_p three_page_region 0 = Ok true ∧
  page_starts_contiguous_block_p three_page_region 1 = Ok false ∧
  page_starts_contiguous_block_p three_page_region 2 = Ok false ∧
  @page_ends_contiguous_block_p debug_build three_page_region 0 0 = Ok false ∧
  @page_ends_contiguous_block_p debug_build three_page_region 1 0 = Ok false ∧
  @page_ends_contiguous_block_p debug_build three_page_region 2 0 = Ok true ∧
  @contiguous_block_final_page debug_build three_page_region 0 = Ok 2.
Proof.
  assert (10 < @GENCGC_PAGE_WORDS debug_build) as Hcap by (simpl; lia).
  assert (@DEBUG debug_build = true →
          3 ≤ next_free_page three_page_region ∧
          gen (used_page 3 4096) = gen (used_page 0 4096) ∧
          gen (used_page 5 10) = gen (used_page 0 4096)) as Hdebug
    by (intros _; simpl; repeat split; lia).
  split; [exact Hcap|]. split; [exact Hdebug|].
  apply (proj1 (@contiguous_block_final_page_least debug_build)
           three_page_region (used_page 0 4096) (used_page 3 4096)
           (used_page 5 10) [] Hcap);
    try reflexivity; try exact Hdebug; simpl; lia.
Defined.

(** The same scenario without the cross-check. *)
Example three_page_region_release :
  @page_ends_contiguous_block_p linux_x86_64 three_page_region 0 0 = Ok false ∧
  @page_ends_contiguous_block_p linux_x86_64 three_page_region 1 0 = Ok false ∧
  @page_ends_contiguous_block_p linux_x86_64 three_page_region 2 0 = Ok true ∧
  @contiguous_block_final_page linux_x86_64 three_page_region 0 = Ok 2.
Proof. repeat split. Qed.

(** ** The static-space bump allocator *)

Section BumpProofs.
Context `{P : platform}.

(** The loop returns from the iteration whose compare-and-swap meets the
    value it has read, [claimed]: the initial frontier or a value another
    thread stored. *)
Lemma bump_loop_returns (nbytes : Z) (others : list (option Z)) :
  ∀ claimed0, ∃ claimed,
    (claimed = claimed0 ∨ Some claimed ∈ others) ∧
    bump_loop others nbytes claimed0 =
      if (uword (claimed + nbytes) >? STATIC_SPACE_END)
         || (uword (claimed + nbytes) <? claimed)
      then Ok (0, claimed)
      else Ok (claimed, uword (claimed + nbytes)).
Proof.
  induction others as [|o rest IH]; intros claimed0.
  - exists claimed0. split; [by left|]. simpl. by case_match.
  - simpl.
    destruct ((uword (claimed0 + nbytes) >? STATIC_SPACE_END)
              || (uword (claimed0 + nbytes) <? claimed0)) eqn:Hfail.
    { exists claimed0. split; [by left|]. by rewrite Hfail. }
    destruct (Z.eqb_spec (default claimed0 o) claimed0) as [Heq|Hne].
    { exists claimed0. split; [by left|]. by rewrite Hfail. }
    destruct o as [v|]; simpl in *; [|done].
    destruct (IH v) as (claimed & [Hc|Hin] & Hres); exists claimed.
    + split; [right; rewrite Hc; left | done].
    + split; [right; by right | done].
Qed.

(** A frontier that has not wrapped has advanced by the byte count. *)
Lemma bump_exact (claimed nbytes : Z) :
  0 ≤ claimed < 2 ^ N_WORD_BITS →
  0 ≤ nbytes < 2 ^ N_WORD_BITS →
  claimed ≤ uword (claimed + nbytes) →
  uword (claimed + nbytes) = claimed + nbytes.
Proof.
  intros Hc Hn Hle. unfold uword in *.
  destruct (Z.lt_ge_cases (claimed + nbytes) (2 ^ N_WORD_BITS)) as [Hlt|Hge].
  - apply Z.mod_small. lia.
  - replace (claimed + nbytes)
      with ((claimed + nbytes - 2 ^ N_WORD_BITS) + 1 * 2 ^ N_WORD_BITS) in Hle
      by lia.
    rewrite Z.mod_add, Z.mod_small in Hle by lia. lia.
Qed.

(** C3 (amended).  In a build that keeps assertions ([NDEBUG] off) a byte
    count that is not a multiple of the lowtag alignment trips [gc_assert]:
    the call is fatal, it does not return null.  In every build, for an
    aligned byte count the call returns null, leaving the frontier as it
    found it, when the advanced frontier would exceed [STATIC_SPACE_END] or
    wraps around the address space; otherwise it returns the frontier it
    found and advances the frontier by exactly the byte count. *)
Theorem atomic_bump_static_space_free_ptr_spec
    (others : list (option Z)) (fp nbytes : Z) :
  32 ≤ N_WORD_BITS →
  - 2 ^ 31 ≤ nbytes < 2 ^ 31 →
  0 ≤ fp < 2 ^ N_WORD_BITS →
  (∀ v, Some v ∈ others → 0 ≤ v < 2 ^ N_WORD_BITS) →
  (NDEBUG = false →
   Z.land nbytes LOWTAG_MASK ≠ 0 →
   atomic_bump_static_space_free_ptr others fp nbytes = Lose) ∧
  (Z.land nbytes LOWTAG_MASK = 0 →
   ∃ claimed,
     (claimed = fp ∨ Some claimed ∈ others) ∧
     (others = [] → claimed = fp) ∧
     if (uword (claimed + nbytes) >? STATIC_SPACE_END)
        || (uword (claimed + nbytes) <? claimed)
     then atomic_bump_static_space_free_ptr others fp nbytes = Ok (0, claimed)
     else atomic_bump_static_space_free_ptr others fp nbytes
          = Ok (claimed, uword (claimed + nbytes)) ∧
          claimed ≤ uword (claimed + nbytes) ≤ STATIC_SPACE_END ∧
          (0 ≤ nbytes → uword (claimed + nbytes) = claimed + nbytes)).
Proof.
  intros HN Hn Hfp Hothers.
  unfold atomic_bump_static_space_free_ptr, gc_assert.
  split.
  - intros -> Hmis. by destruct (Z.eqb_spec (Z.land nbytes LOWTAG_MASK) 0).
  - intros ->. replace (if NDEBUG then Ok tt else if 0 =? 0 then Ok tt else Lose)
      with (Ok tt : outcome unit) by (by destruct NDEBUG).
    simpl.
    destruct (bump_loop_returns nbytes others fp) as (claimed & Hin & Hres).
    exists claimed. split; [done|]. split.
    { intros ->. destruct Hin as [|Hin]; [done|]. by apply elem_of_nil in Hin. }
    rewrite Hres.
    destruct (Z.gtb_spec (uword (claimed + nbytes)) STATIC_SPACE_END);
      destruct (Z.ltb_spec (uword (claimed + nbytes)) claimed); simpl; try done.
    split; [done|]. split; [lia|]. intros Hpos.
    assert (2 ^ 31 ≤ 2 ^ N_WORD_BITS) by (apply Z.pow_le_mono_r; lia).
    apply bump_exact; [|lia|done].
    destruct Hin as [->|Hin]; [done | by apply Hothers].
Qed.

End BumpProofs.

Lemma atomic_bump_static_space_free_ptr_spec_witness :
  32 ≤ @N_WORD_BITS linux_x86_64 ∧
  - 2 ^ 31 ≤ 4096 < 2 ^ 31 ∧
  0 ≤ static_base < 2 ^ @N_WORD_BITS linux_x86_64 ∧
  Z.land 4096 (@LOWTAG_MASK linux_x86_64) = 0 ∧
  ∃ claimed,
    (claimed = static_base ∨ Some claimed ∈ [Some (static_base + 4096)]) ∧
    @atomic_bump_static_space_free_ptr linux_x86_64
      [Some (static_base + 4096)] static_base 4096
    = Ok (claimed, claimed + 4096).
Proof.
  assert (32 ≤ @N_WORD_BITS linux_x86_64) as HN by (simpl; lia).
  assert (- 2 ^ 31 ≤ 4096 < 2 ^ 31) as Hn by lia.
  assert (0 ≤ static_base < 2 ^ @N_WORD_BITS linux_x86_64) as Hfp
    by (unfold static_base; simpl; lia).
  assert (∀ v, Some v ∈ [Some (static_base + 4096)] →
               0 ≤ v < 2 ^ @N_WORD_BITS linux_x86_64) as Hothers.
  { intros v [= ->]%list_elem_of_singleton. unfold static_base; simpl; lia. }
  assert (Z.land 4096 (@LOWTAG_MASK linux_x86_64) = 0) as Hal by reflexivity.
  repeat (split; [assumption|]).
  destruct (proj2 (@atomic_bump_static_space_free_ptr_spec linux_x86_64
                     [Some (static_base + 4096)] static_base 4096
                     HN Hn Hfp Hothers) Hal)
    as (claimed & Hin & _ & Hres).
  exists claimed. split; [exact Hin|].
  destruct Hin as [->|[= ->]%list_elem_of_singleton].
  - vm_compute in Hres. discriminate (proj1 Hres).
  - exact (proj1 Hres).
Defined.

(** C3 as worded: a misaligned byte count is answered with null.  With
    [LOWTAG_MASK] 15 a request for 4 bytes aborts instead. *)
Lemma misaligned_claim_is_fatal :
  ¬ (∀ fp nbytes : Z,
       0 ≤ fp < 2 ^ @N_WORD_BITS linux_x86_64 →
       - 2 ^ 31 ≤ nbytes < 2 ^ 31 →
       Z.land nbytes (@LOWTAG_MASK linux_x86_64) ≠ 0 →
       ∃ frontier,
         @atomic_bump_static_space_free_ptr linux_x86_64 [] fp nbytes
         = Ok (0, frontier)).
Proof.
  intros H. destruct (H static_base 4) as [frontier Hf].
  - unfold static_base; simpl; lia.
  - lia.
  - discriminate.
  - vm_compute in Hf. discriminate.
Qed.

(** With the assertions compiled out the same request is served: 4 bytes
    are claimed, no null is returned. *)
Remark misaligned_claim_under_NDEBUG :
  @atomic_bump_static_space_free_ptr ndebug_build [] static_base 4
  = Ok (static_base, static_base + 4).
Proof. reflexivity. Qed.

(** An aligned request is served alike with and without the assertions. *)
Remark aligned_claim_in_both_builds :
  @atomic_bump_static_space_free_ptr linux_x86_64 [] static_base 4096
  = Ok (static_base, static_base + 4096) ∧
  @atomic_bump_static_space_free_ptr ndebug_build [] static_base 4096
  = Ok (static_base, static_base + 4096).
Proof. split; reflexivity. Qed.

(** The scenario of section 8: three claims of 4096 bytes from a static
    space of 8192 bytes. *)
Example three_static_claims :
  @atomic_bump_static_space_free_ptr linux_x86_64 [] static_base 4096
  = Ok (static_base, static_base + 4096) ∧
  @atomic_bump_static_space_free_ptr linux_x86_64 [] (static_base + 4096) 4096
  = Ok (static_base + 4096, static_base + 8192) ∧
  @atomic_bump_static_space_free_ptr linux_x86_64 [] (static_base + 8192) 4096
  = Ok (0, static_base + 8192).
Proof. repeat split. Qed.

(** ** The code-object allocator *)

Section CodeProofs.
Context `{P : platform}.
Variable lisp_alloc : Z → Z * list Z.
Variable make_lispobj : Z → Z → Z.

(** The region allocator hands out the bytes it was asked for. *)
Hypothesis lisp_alloc_size :
  ∀ nbytes, 0 ≤ nbytes →
            Z.of_nat (length (lisp_alloc nbytes).2) = nbytes / N_WORD_BYTES.

Lemma store_word_Ok (mem mem' : list Z) (i v : Z) :
  store_word mem i v = Ok mem' →
  0 ≤ i < Z.of_nat (length mem) ∧ mem' = <[Z.to_nat i := v]> mem.
Proof.
  unfold store_word.
  destruct (Z.ltb_spec i 0); destruct (Z.leb_spec (Z.of_nat (length mem)) i);
    simpl; try discriminate.
  intros [= <-]. split; [lia | done].
Qed.

Lemma store_word_defined (mem : list Z) (i v : Z) :
  0 ≤ i < Z.of_nat (length mem) →
  store_word mem i v = Ok (<[Z.to_nat i := v]> mem).
Proof.
  intros Hi. unfold store_word.
  destruct (Z.ltb_spec i 0); destruct (Z.leb_spec (Z.of_nat (length mem)) i);
    simpl; try lia. done.
Qed.

(** A word stays zero under a store of zero, and becomes zero under a store
    of zero to it. *)
Lemma insert_zero_lookup (l : list Z) (i j : nat) :
  (j < length l)%nat →
  i = j ∨ l !! i = Some 0 →
  <[j := 0]> l !! i = Some 0.
Proof.
  intros Hj [->|Hi].
  - by apply list_lookup_insert_eq.
  - destruct (decide (j = i)) as [->|Hne].
    + by apply list_lookup_insert_eq.
    + by rewrite list_lookup_insert_ne.
Qed.

(** C7.  When [alloc_code_object(total_words)] returns, word 0 of the new
    object is the header [(total_words << CODE_HEADER_SIZE_SHIFT) |
    CODE_HEADER_WIDETAG], the [boxed_size] and [debug_info] slots are zero and
    so is the trailing word, at index [total_words - 1], whatever the words
    held before.  It returns for every object large enough to hold its
    slots, unless the collector had to be inhibited and is not. *)
Theorem alloc_code_object_initialises (th : thread) (total_words : Z) :
  0 < N_WORD_BYTES →
  0 < code_boxed_size_slot →
  0 < code_debug_info_slot →
  0 ≤ total_words < 2 ^ 32 →
  (∀ obj mem,
     alloc_code_object lisp_alloc make_lispobj th total_words = Ok (obj, mem) →
     obj = make_lispobj (lisp_alloc (uint (total_words * N_WORD_BYTES))).1
                        OTHER_POINTER_LOWTAG ∧
     length mem = length (lisp_alloc (uint (total_words * N_WORD_BYTES))).2 ∧
     mem !! 0%nat
       = Some (Z.lor (uword (Z.shiftl total_words CODE_HEADER_SIZE_SHIFT))
                     CODE_HEADER_WIDETAG) ∧
     mem !! Z.to_nat code_boxed_size_slot = Some 0 ∧
     mem !! Z.to_nat code_debug_info_slot = Some 0 ∧
     mem !! Z.to_nat (total_words - 1) = Some 0) ∧
  ((REQUIRE_GC_INHIBIT = true → gc_inhibit th = true) →
   code_boxed_size_slot < total_words →
   code_debug_info_slot < total_words →
   total_words * N_WORD_BYTES < 2 ^ 32 →
   ∃ obj mem,
     alloc_code_object lisp_alloc make_lispobj th total_words = Ok (obj, mem)) ∧
  (REQUIRE_GC_INHIBIT = true → gc_inhibit th = false →
   alloc_code_object lisp_alloc make_lispobj th total_words = Lose).
Proof.
  intros HNWB Hsb Hsd Htw. unfold alloc_code_object.
  pose proof (lisp_alloc_size (uint (total_words * N_WORD_BYTES))) as Hlen.
  specialize (Hlen (proj1 (Z.mod_pos_bound _ (2 ^ 32) eq_refl))).
  destruct (lisp_alloc (uint (total_words * N_WORD_BYTES))) as [code mem0].
  simpl in Hlen. split; [|split].
  - intros obj mem.
    destruct (if REQUIRE_GC_INHIBIT then _ else _) as [[]| | |]; simpl;
      try discriminate.
    destruct (store_word mem0 0 _) as [mem1| | |] eqn:E1; simpl;
      try discriminate.
    destruct (store_word mem1 code_boxed_size_slot 0) as [mem2| | |] eqn:E2;
      simpl; try discriminate.
    destruct (store_word mem2 code_debug_info_slot 0) as [mem3| | |] eqn:E3;
      simpl; try discriminate.
    destruct (store_word mem3 (uint (total_words - 1)) 0) as [mem4| | |] eqn:E4;
      simpl; try discriminate.
    intros [= <- <-].
    apply store_word_Ok in E1 as [H1 ->], E2 as [H2 ->], E3 as [H3 ->],
      E4 as [H4 ->].
    rewrite ?length_insert in *.
    (* the object holds more than its header, so [total_words - 1] is not 0 *)
    assert (2 ≤ total_words) as Htw2.
    { destruct (decide (total_words ≤ 1)) as [Hle|]; [exfalso|lia].
      assert (total_words = 0 ∨ total_words = 1) as [->| ->] by lia.
      - rewrite Z.mul_0_l in Hlen. change (uint 0) with 0 in Hlen.
        rewrite Z.div_0_l in Hlen by lia. lia.
      - rewrite Z.mul_1_l in Hlen.
        assert (uint N_WORD_BYTES ≤ N_WORD_BYTES)
          by (unfold uint; apply Z.mod_le; lia).
        assert (uint N_WORD_BYTES / N_WORD_BYTES ≤ 1).
        { apply Z.div_le_upper_bound; lia. }
        lia. }
    rewrite uint_small in * by lia.
    split; [done|]. split; [done|]. split; [|split; [|split]].
    + rewrite !list_lookup_insert_ne by lia.
      apply list_lookup_insert_eq. lia.
    + apply insert_zero_lookup; [rewrite !length_insert; lia|]. right.
      apply insert_zero_lookup; [rewrite !length_insert; lia|]. right.
      apply list_lookup_insert_eq. rewrite !length_insert. lia.
    + apply insert_zero_lookup; [rewrite !length_insert; lia|]. right.
      apply list_lookup_insert_eq. rewrite !length_insert. lia.
    + apply list_lookup_insert_eq. rewrite !length_insert. lia.
  - intros Hgc Hb Hd Hsz.
    rewrite uint_small in Hlen by nia.
    rewrite Z.div_mul in Hlen by lia.
    assert ((if REQUIRE_GC_INHIBIT
             then if gc_inhibit th then Ok () else Lose else Ok ()) = Ok ())
      as ->.
    { destruct REQUIRE_GC_INHIBIT; [|done]. by rewrite Hgc. }
    simpl.
    rewrite store_word_defined by lia. simpl.
    rewrite store_word_defined by (rewrite !length_insert; lia). simpl.
    rewrite store_word_defined by (rewrite !length_insert; lia). simpl.
    rewrite store_word_defined
      by (rewrite !length_insert, uint_small; lia). simpl.
    eauto.
  - intros -> ->. done.
Qed.

End CodeProofs.

Lemma alloc_code_object_initialises_witness :
  (∀ nbytes, 0 ≤ nbytes →
             Z.of_nat (length (stale_alloc nbytes).2)
             = nbytes / @N_WORD_BYTES linux_x86_64) ∧
  0 < @N_WORD_BYTES linux_x86_64 ∧
  0 < @code_boxed_size_slot linux_x86_64 ∧
  0 < @code_debug_info_slot linux_x86_64 ∧
  0 ≤ 4 < 2 ^ 32 ∧
  ∃ obj mem,
    @alloc_code_object linux_x86_64 stale_alloc tag_pointer mutator 4
    = Ok (obj, mem).
Proof.
  assert (∀ nbytes, 0 ≤ nbytes →
                    Z.of_nat (length (stale_alloc nbytes).2)
                    = nbytes / @N_WORD_BYTES linux_x86_64) as Hsz.
  { intros nbytes Hn. simpl. rewrite length_replicate.
    assert (0 ≤ nbytes / 8) by (apply Z.div_pos; lia). lia. }
  split; [exact Hsz|]. repeat (split; [simpl; lia|]).
  apply (@alloc_code_object_initialises linux_x86_64 stale_alloc tag_pointer
           Hsz mutator 4); simpl; lia.
Defined.

(** Four words on the concrete configuration; and an object of one word,
    whose [boxed_size] slot would lie outside the object. *)
Example alloc_code_object_four_words :
  @alloc_code_object linux_x86_64 stale_alloc tag_pointer mutator 4
  = Ok (0x5200000F, [0x40000002D; 0; 0; 0]).
Proof. reflexivity. Qed.

Example alloc_code_object_one_word :
  @alloc_code_object linux_x86_64 stale_alloc tag_pointer mutator 1 = Undefined.
Proof. reflexivity. Qed.

Example alloc_code_object_gc_enabled :
  @alloc_code_object debug_build stale_alloc tag_pointer mutator 4 = Lose.
Proof. reflexivity. Qed.

(** ** The allocation profiler *)

Section ProfilerProofs.
Context `{P : platform}.
Variable os_allocate_addr : gmap Z Z → Z → Z.


(** A start that finds the buffer size unchanged: nothing is mapped or
    unmapped, one line is printed, every thread receives the buffer. *)
Lemma start_same_size (s : runtime) :
  alloc_profiling s = 0 →
  simple_vector_p (alloc_profile_data s) = true →
  profile_size (alloc_profile_data s) = profile_buffer_size s →
  allocation_profiler_start os_allocate_addr s =
    {| alloc_profile_buffer := alloc_profile_buffer s;
       profile_buffer_size := profile_buffer_size s;
       alloc_profile_data := alloc_profile_data s;
       alloc_profiling := 1;
       max_alloc_point_counters :=
         uint (Z.quot (vector_len (alloc_profile_data s)) 2);
       all_threads := set_profile_data (alloc_profile_buffer s) <$> all_threads s;
       os_mappings := os_mappings s;
       stdout := stdout s ++ [profiler_threads (Z.of_nat (length (all_threads s)))];
       stderr := stderr s |}.
Proof.
  intros Hp Hv Hsz. unfold allocation_profiler_start, profile_size in *.
  rewrite Hp, Hv, Hsz, !Z.eqb_refl. simpl. done.
Qed.

(** A start that finds another buffer size. *)
Lemma start_other_size (s : runtime) :
  alloc_profiling s = 0 →
  simple_vector_p (alloc_profile_data s) = true →
  profile_size (alloc_profile_data s) ≠ profile_buffer_size s →
  let size := profile_size (alloc_profile_data s) in
  let buffer := os_allocate_addr (os_mappings s) size in
  allocation_profiler_start os_allocate_addr s =
    {| alloc_profile_buffer := buffer;
       profile_buffer_size := size;
       alloc_profile_data := alloc_profile_data s;
       alloc_profiling := 1;
       max_alloc_point_counters :=
         uint (Z.quot (vector_len (alloc_profile_data s)) 2);
       all_threads := set_profile_data buffer <$> all_threads s;
       os_mappings :=
         if alloc_profile_buffer s =? 0 then <[buffer := size]> (os_mappings s)
         else delete buffer (<[buffer := size]> (os_mappings s));
       stdout :=
         stdout s
         ++ [using_cells (uint (Z.quot (vector_len (alloc_profile_data s)) 2))
                         size buffer]
         ++ [profiler_threads (Z.of_nat (length (all_threads s)))]
         ++ (if alloc_profile_buffer s =? 0 then [] else [unsafely_changed]);
       stderr := stderr s |}.
Proof.
  intros Hp Hv Hsz. unfold allocation_profiler_start, profile_size in *.
  rewrite Hp, Hv. simpl.
  destruct (Z.eqb_spec (uint (N_WORD_BYTES *
              uint (Z.quot (vector_len (alloc_profile_data s)) 2)))
              (profile_buffer_size s)) as [|_]; [done|].
  simpl. unfold os_deallocate.
  destruct (alloc_profile_buffer s =? 0); simpl;
    rewrite <- ?app_assoc, ?app_nil_r; done.
Qed.

Lemma start_running (s : runtime) :
  alloc_profiling s = 0 →
  simple_vector_p (alloc_profile_data s) = true →
  alloc_profiling (allocation_profiler_start os_allocate_addr s) = 1 ∧
  profile_buffer_size (allocation_profiler_start os_allocate_addr s)
  = profile_size (alloc_profile_data s) ∧
  alloc_profile_data (allocation_profiler_start os_allocate_addr s)
  = alloc_profile_data s ∧
  length (all_threads (allocation_profiler_start os_allocate_addr s))
  = length (all_threads s).
Proof.
  intros Hp Hv.
  destruct (decide (profile_size (alloc_profile_data s) = profile_buffer_size s))
    as [Hsz|Hsz].
  - rewrite start_same_size by done. simpl. by rewrite length_fmap.
  - rewrite start_other_size by done. simpl. by rewrite length_fmap.
Qed.


Lemma set_profile_data_all (v : Z) (threads : list thread) :
  Forall (λ th, profile_data th = v) (set_profile_data v <$> threads).
Proof. apply Forall_fmap, Forall_true. done. Qed.


(** What the code does on a resize (C9): the buffer handed to the threads is
    the new one, and the new one is what [os_deallocate] receives; the
    previous buffer stays mapped. *)
Theorem profiler_resize_releases_new_buffer (s : runtime) :
  alloc_profiling s = 0 →
  simple_vector_p (alloc_profile_data s) = true →
  profile_size (alloc_profile_data s) ≠ profile_buffer_size s →
  alloc_profile_buffer s ≠ 0 →
  os_mappings s !! alloc_profile_buffer s = Some (profile_buffer_size s) →
  os_allocate_addr (os_mappings s) (profile_size (alloc_profile_data s))
  ≠ alloc_profile_buffer s →
  let s' := allocation_profiler_start os_allocate_addr s in
  alloc_profiling s' = 1 ∧
  alloc_profile_buffer s'
  = os_allocate_addr (os_mappings s) (profile_size (alloc_profile_data s)) ∧
  Forall (λ th, profile_data th = alloc_profile_buffer s') (all_threads s') ∧
  last (stdout s') = Some unsafely_changed ∧
  os_mappings s' !! alloc_profile_buffer s' = None ∧
  os_mappings s' !! alloc_profile_buffer s = Some (profile_buffer_size s).
Proof.
  intros Hp Hv Hsz Hold Hmapped Hfresh s'. unfold s'.
  rewrite start_other_size by done. simpl.
  destruct (Z.eqb_spec (alloc_profile_buffer s) 0) as [|_]; [done|].
  repeat split.
  - apply set_profile_data_all.
  - by rewrite last_app.
  - apply lookup_delete_eq.
  - rewrite lookup_delete_ne, lookup_insert_ne by done. done.
Qed.

End ProfilerProofs.


Lemma profiler_resize_releases_new_buffer_witness :
  let s := @resized_metadata linux_x86_64 in
  let s' := @allocation_profiler_start linux_x86_64 next_mapping s in
  alloc_profiling s = 0 ∧
  simple_vector_p (alloc_profile_data s) = true ∧
  @profile_size linux_x86_64 (alloc_profile_data s) ≠ profile_buffer_size s ∧
  alloc_profile_buffer s ≠ 0 ∧
  os_mappings s !! alloc_profile_buffer s = Some (profile_buffer_size s) ∧
  next_mapping (os_mappings s) (@profile_size linux_x86_64 (alloc_profile_data s))
  ≠ alloc_profile_buffer s ∧
  Forall (λ th, profile_data th = alloc_profile_buffer s') (all_threads s') ∧
  last (stdout s') = Some unsafely_changed ∧
  os_mappings s' !! alloc_profile_buffer s' = None ∧
  os_mappings s' !! alloc_profile_buffer s = Some (profile_buffer_size s).
Proof.
  intros s s'.
  assert (alloc_profiling s = 0) as Hp by reflexivity.
  assert (simple_vector_p (alloc_profile_data s) = true) as Hv by reflexivity.
  assert (@profile_size linux_x86_64 (alloc_profile_data s)
          ≠ profile_buffer_size s) as Hsz by (vm_compute; discriminate).
  assert (alloc_profile_buffer s ≠ 0) as Hold by (vm_compute; discriminate).
  assert (os_mappings s !! alloc_profile_buffer s
          = Some (profile_buffer_size s)) as Hmapped by (vm_compute; reflexivity).
  assert (next_mapping (os_mappings s)
            (@profile_size linux_x86_64 (alloc_profile_data s))
          ≠ alloc_profile_buffer s) as Hfresh by (vm_compute; discriminate).
  destruct (@profiler_resize_releases_new_buffer linux_x86_64 next_mapping
              s Hp Hv Hsz Hold Hmapped Hfresh)
    as (_ & _ & Hth & Hlast & Hnew & Hkept).
  repeat (split; [assumption|]). exact Hkept.
Defined.

(** The same run, evaluated: the first buffer sits at 0x7f0000000000 with 16
    bytes; after the resize the threads point at 0x7f0000010000, which is no
    longer mapped, and the first buffer still is. *)
Example profiler_resize_evaluated :
  let s' := @allocation_profiler_start linux_x86_64 next_mapping
              (@resized_metadata linux_x86_64) in
  alloc_profile_buffer (@resized_metadata linux_x86_64) = 0x7f0000000000 ∧
  alloc_profile_buffer s' = 0x7f0000010000 ∧
  profile_data <$> all_threads s' = [0x7f0000010000; 0x7f0000010000] ∧
  os_mappings s' !! 0x7f0000010000 = None ∧
  os_mappings s' !! 0x7f0000000000 = Some 16 ∧
  stdout s' = [using_cells 2 16 0x7f0000000000; profiler_threads 2;
               using_cells 4 32 0x7f0000010000; profiler_threads 2;
               unsafely_changed].
Proof. vm_compute. repeat split. Qed.

(** * Further properties of the codec *)

Section CodecFrame.
Context `{P : platform}.

Lemma store_scan_start_frame (h h' : heap) (index v : Z) :
  store_scan_start h index v = Ok h' →
  length (page_table h') = length (page_table h) ∧
  next_free_page h' = next_free_page h ∧
  (∀ j, j ≠ index → page_at h' j = page_at h j) ∧
  ∃ pg pg', page_at h index = Ok pg ∧ page_at h' index = Ok pg' ∧
            scan_start_offset_ pg' = uint v ∧
            words_used_ pg' = words_used_ pg ∧
            need_zerofill pg' = need_zerofill pg ∧
            type pg' = type pg ∧ gen pg' = gen pg.
Proof.
  unfold store_scan_start.
  destruct (page_at h index) as [pg| | |] eqn:E; simpl; try discriminate.
  intros [= <-]. pose proof E as [H0 Hl]%page_at_Ok. simpl.
  split; [by rewrite length_insert|]. split; [done|]. split.
  - intros j Hj. unfold page_at. simpl.
    destruct (Z.ltb_spec j 0); [done|].
    rewrite list_lookup_insert_ne by lia. done.
  - eexists pg, _. split; [done|]. split.
    + apply page_at_Ok. split; [done|]. simpl.
      apply list_lookup_insert_eq. by eapply lookup_lt_Some.
    + done.
Qed.

Lemma set_is_store (h : heap) (index o : Z) :
  (∃ v, set_page_scan_start_offset h index o = store_scan_start h index v) ∨
  set_page_scan_start_offset h index o = Lose.
Proof.
  unfold set_page_scan_start_offset, gc_assert.
  repeat case_match; simpl; eauto.
Qed.

Lemma set_page_scan_start_offset_frame_core (h h' : heap) (index o : Z) :
  set_page_scan_start_offset h index o = Ok h' →
  (∀ j, j ≠ index → page_at h' j = page_at h j) ∧
  ∃ pg pg', page_at h index = Ok pg ∧ page_at h' index = Ok pg' ∧
            type pg' = type pg.
Proof.
  intros Hset. destruct (set_is_store h index o) as [[v Hv]|Hl];
    [|congruence].
  rewrite Hv in Hset.
  destruct (store_scan_start_frame _ _ _ _ Hset)
    as (_ & _ & Hother & pg & pg' & E & E' & _ & _ & _ & Ht & _).
  split; [done|]. eauto.
Qed.

Lemma set_page_scan_start_offset_fields (h h' : heap) (index o : Z) :
  set_page_scan_start_offset h index o = Ok h' →
  length (page_table h') = length (page_table h) ∧
  next_free_page h' = next_free_page h ∧
  (∀ j, j ≠ index → page_at h' j = page_at h j) ∧
  ∃ pg pg', page_at h index = Ok pg ∧ page_at h' index = Ok pg' ∧
            0 ≤ scan_start_offset_ pg' ≤ UINT_MAX ∧
            words_used_ pg' = words_used_ pg ∧
            need_zerofill pg' = need_zerofill pg ∧
            type pg' = type pg ∧ gen pg' = gen pg.
Proof.
  intros Hset. destruct (set_is_store h index o) as [[v Hv]|Hl];
    [|congruence].
  rewrite Hv in Hset.
  destruct (store_scan_start_frame _ _ _ _ Hset)
    as (Hlen & Hnfp & Hother & pg & pg' & E & E' & Hs & Hrest).
  repeat (split; [done|]). exists pg, pg'. repeat (split; [done|]).
  split; [|done]. rewrite Hs. unfold uint, UINT_MAX.
  pose proof (Z.mod_pos_bound v (2 ^ 32)). lia.
Qed.

(** X1.  The encoder writes one field of one entry: whenever it returns, the
    table has kept its length and its allocation cursor, every other entry
    is as before, and the entry written has kept its [words_used_],
    [need_zerofill], [type] and [gen]; the stored field fits [unsigned int]. *)
Theorem set_page_scan_start_offset_frame (h h' : heap) (index o : Z) :
  set_page_scan_start_offset h index o = Ok h' →
  length (page_table h') = length (page_table h) ∧
  next_free_page h' = next_free_page h ∧
  (∀ j, j ≠ index → page_at h' j = page_at h j) ∧
  ∃ pg pg', page_at h index = Ok pg ∧ page_at h' index = Ok pg' ∧
            0 ≤ scan_start_offset_ pg' ≤ UINT_MAX ∧
            words_used_ pg' = words_used_ pg ∧
            need_zerofill pg' = need_zerofill pg ∧
            type pg' = type pg ∧ gen pg' = gen pg.
Proof. apply set_page_scan_start_offset_fields. Qed.

End CodecFrame.

Lemma set_page_scan_start_offset_frame_witness :
  @set_page_scan_start_offset linux_x86_64 three_page_blank 1 32768
  = Ok {| page_table := [used_page 0 4096; used_page 3 4096; used_page 0 10];
          next_free_page := 3 |} ∧
  page_at {| page_table := [used_page 0 4096; used_page 3 4096; used_page 0 10];
             next_free_page := 3 |} 2
  = page_at three_page_blank 2.
Proof.
  assert (@set_page_scan_start_offset linux_x86_64 three_page_blank 1 32768
          = Ok {| page_table :=
                    [used_page 0 4096; used_page 3 4096; used_page 0 10];
                  next_free_page := 3 |}) as Hset by reflexivity.
  split; [exact Hset|].
  destruct (@set_page_scan_start_offset_frame linux_x86_64 _ _ _ _ Hset)
    as (_ & _ & Hother & _).
  apply Hother. lia.
Defined.

Section CodecEdges.
Context `{P : platform}.

Lemma store_scan_start_not_Lose (h : heap) (index v : Z) :
  store_scan_start h index v ≠ Lose.
Proof.
  unfold store_scan_start.
  by destruct (page_at_cases h index) as [[pg ->]| ->].
Qed.

(** X2.  The encoder aborts exactly when assertions are compiled in and the
    offset is not a multiple of the page size and spans more than
    [UINT_MAX] words.  A page-aligned offset never aborts: it is clipped. *)
Theorem set_page_scan_start_offset_aborts (h : heap) (index o : Z) :
  platform_wf → 0 ≤ o →
  (set_page_scan_start_offset h index o = Lose ↔
   NDEBUG = false ∧ o mod GENCGC_PAGE_BYTES ≠ 0 ∧ UINT_MAX < o / N_WORD_BYTES).
Proof.
  intros Hwf Ho. pose proof Hwf as [HW HC HPB HWB HC32 HN].
  assert (0 < GENCGC_PAGE_BYTES) as HpP
    by (rewrite HPB; apply Z.pow_pos_nonneg; lia).
  unfold set_page_scan_start_offset, IS_ALIGNED, gc_assert.
  destruct (Z.eqb_spec o 0) as [->|Hnz]; simpl.
  { rewrite Z.shiftr_0_l. simpl. split.
    - intros []%store_scan_start_not_Lose.
    - intros (_ & Hna & _). by rewrite Z.mod_0_l in Hna by lia. }
  destruct (Z.eqb_spec (o mod GENCGC_PAGE_BYTES) 0) as [Hpa|Hna]; simpl.
  - split; [|intros (_ & ? & _); done].
    destruct (_ >? _); [destruct NDEBUG|]; simpl;
      by intros []%store_scan_start_not_Lose.
  - rewrite Z.lor_0_r, Z.shiftr_div_pow2, <- HWB by lia.
    unfold SCAN_START_OFS_MAX.
    destruct (Z.gtb_spec (o / N_WORD_BYTES) UINT_MAX).
    + destruct NDEBUG; simpl.
      * split; [by intros []%store_scan_start_not_Lose | by intros [? _]].
      * split; [done | done].
    + split; [by intros []%store_scan_start_not_Lose | lia].
Qed.

(** X3.  Decoding after encoding on every offset that is not a multiple of the
    page size and spans fewer than [UINT_MAX] words: an even word count
    comes back as that many words (the offset rounded down to a word); an
    odd word count sets the scale bit, and the entry decodes as that count
    less one, in half pages. *)
Theorem scan_start_offset_word_scaled (h : heap) (index o : Z) :
  platform_wf →
  0 ≤ index < Z.of_nat (length (page_table h)) →
  0 ≤ o < 2 ^ N_WORD_BITS →
  o mod GENCGC_PAGE_BYTES ≠ 0 →
  o / N_WORD_BYTES < UINT_MAX →
  ∃ h', set_page_scan_start_offset h index o = Ok h' ∧
        page_scan_start_offset h' index
        = Ok (if Z.even (o / N_WORD_BYTES)
              then o / N_WORD_BYTES * N_WORD_BYTES
              else (o / N_WORD_BYTES - 1) * (GENCGC_PAGE_BYTES / 2)).
Proof.
  intros Hwf Hidx Ho Hna Hw. pose proof Hwf as [HW HC HPB HWB HC32 HN].
  apply page_at_range in Hidx as [pg Hpg].
  assert (0 < 2 ^ WORD_SHIFT) as HpW by (apply Z.pow_pos_nonneg; lia).
  assert (0 < GENCGC_PAGE_BYTES) as HpP
    by (rewrite HPB; apply Z.pow_pos_nonneg; lia).
  set (w := o / N_WORD_BYTES) in *.
  assert (0 ≤ w) as Hw0 by (apply Z.div_pos; lia).
  assert (set_page_scan_start_offset h index o = store_scan_start h index w)
    as Hset.
  { unfold set_page_scan_start_offset, IS_ALIGNED.
    destruct (Z.eqb_spec (o mod GENCGC_PAGE_BYTES) 0); [done|].
    rewrite andb_false_r. simpl.
    rewrite Z.lor_0_r, Z.shiftr_div_pow2, <- HWB by lia. fold w.
    unfold SCAN_START_OFS_MAX.
    by destruct (Z.gtb_spec w UINT_MAX); [lia|]. }
  destruct (store_scan_start_defined h index w pg Hpg) as [h' Hh'].
  exists h'. split; [congruence|].
  destruct (store_scan_start_read _ _ _ _ Hh') as (pg' & Hpg' & Hs).
  unfold UINT_MAX in Hw. rewrite uint_small in Hs by lia.
  rewrite (page_scan_start_offset_direct _ _ _ Hpg'), Hs
    by (rewrite Hs; unfold SCAN_START_OFS_MAX, UINT_MAX; lia).
  rewrite land_clear_scale_bit, land_1_mod by lia.
  pose proof (Z.div_mod w 2 ltac:(lia)) as Hdm.
  pose proof (Z.mod_pos_bound w 2 ltac:(lia)) as Hm.
  assert (2 ^ WORD_SHIFT * w ≤ o) as Hwo.
  { unfold w. rewrite HWB. apply Z.mul_div_le. lia. }
  rewrite Zeven_mod.
  destruct (Z.eqb_spec (w mod 2) 0) as [He|Ho'].
  - rewrite He. simpl. rewrite Z.shiftl_mul_pow2, HWB by lia.
    replace (2 * (w / 2)) with w by lia.
    f_equal. apply uword_small. nia.
  - assert (w mod 2 = 1) as -> by lia. simpl.
    rewrite Z.shiftl_mul_pow2 by lia.
    replace (2 * (w / 2)) with (w - 1) by lia.
    assert (GENCGC_PAGE_BYTES / 2 = 2 ^ (GENCGC_CARD_SHIFT - 1)) as ->.
    { rewrite HPB.
      replace (2 ^ GENCGC_CARD_SHIFT) with (2 ^ (GENCGC_CARD_SHIFT - 1) * 2)
        by (rewrite Z.mul_comm, <- Z.pow_succ_r by lia; f_equal; lia).
      by rewrite Z.div_mul by lia. }
    f_equal. apply uword_small.
    assert (0 < 2 ^ (GENCGC_CARD_SHIFT - 1)) by (apply Z.pow_pos_nonneg; lia).
    assert (2 ^ (GENCGC_CARD_SHIFT - 1) ≤ 2 ^ 31)
      by (apply Z.pow_le_mono_r; lia).
    assert (2 ^ 64 ≤ 2 ^ N_WORD_BITS) by (apply Z.pow_le_mono_r; lia).
    assert (1 ≤ w) by lia.
    split; [apply Z.mul_nonneg_nonneg; lia|].
    assert ((w - 1) * 2 ^ (GENCGC_CARD_SHIFT - 1) < 2 ^ 32 * 2 ^ 31); [nia|lia].
Qed.

End CodecEdges.

Lemma set_page_scan_start_offset_aborts_witness :
  @platform_wf linux_x86_64 ∧ 0 ≤ 2 ^ 35 + 16 ∧
  @set_page_scan_start_offset linux_x86_64 one_page_heap 0 (2 ^ 35 + 16) = Lose.
Proof.
  assert (@platform_wf linux_x86_64) as Hwf by (split; simpl; lia).
  assert (0 ≤ 2 ^ 35 + 16) as Ho by lia.
  split; [exact Hwf|]. split; [exact Ho|].
  apply (@set_page_scan_start_offset_aborts linux_x86_64 one_page_heap 0 _
           Hwf Ho).
  split; [reflexivity|]. split; [vm_compute; discriminate|].
  vm_compute. reflexivity.
Defined.

Lemma scan_start_offset_word_scaled_witness :
  @platform_wf linux_x86_64 ∧
  0 ≤ 0 < Z.of_nat (length (page_table one_page_heap)) ∧
  0 ≤ 24 < 2 ^ @N_WORD_BITS linux_x86_64 ∧
  24 mod @GENCGC_PAGE_BYTES linux_x86_64 ≠ 0 ∧
  24 / @N_WORD_BYTES linux_x86_64 < UINT_MAX ∧
  ∃ h', @set_page_scan_start_offset linux_x86_64 one_page_heap 0 24 = Ok h' ∧
        @page_scan_start_offset linux_x86_64 h' 0 = Ok 32768.
Proof.
  assert (@platform_wf linux_x86_64) as Hwf by (split; simpl; lia).
  assert (0 ≤ 0 < Z.of_nat (length (page_table one_page_heap))) as Hi
    by (simpl; lia).
  assert (0 ≤ 24 < 2 ^ @N_WORD_BITS linux_x86_64) as Ho by (simpl; lia).
  assert (24 mod @GENCGC_PAGE_BYTES linux_x86_64 ≠ 0) as Hna
    by (vm_compute; discriminate).
  assert (24 / @N_WORD_BYTES linux_x86_64 < UINT_MAX) as Hw
    by (vm_compute; reflexivity).
  repeat (split; [assumption|]).
  exact (@scan_start_offset_word_scaled linux_x86_64 one_page_heap 0 24
           Hwf Hi Ho Hna Hw).
Defined.

Section RegionProofs.
Context `{P : platform}.

(** On a sentinel entry the decoder returns the bytes of any walk from it. *)
Lemma decode_of_walk (h : heap) (index d : Z) (pg : page) :
  page_at h index = Ok pg →
  scan_start_offset_ pg = SCAN_START_OFS_MAX →
  lookback_walk h index d →
  page_scan_start_offset h index = Ok (uword (Z.shiftl d GENCGC_CARD_SHIFT)).
Proof.
  intros E Hs Hw. unfold page_scan_start_offset. rewrite E. simpl.
  destruct (Z.eqb_spec (scan_start_offset_ pg) SCAN_START_OFS_MAX); [|done].
  simpl. unfold scan_start_offset_iterated.
  rewrite (lookback_walk_loop h index index d Hw 0); [done | lia |].
  apply page_at_Ok in E as [? ?%lookup_lt_Some]. lia.
Qed.

Lemma clipped_page_distance_range (k : Z) :
  0 ≤ k → 0 ≤ clipped_page_distance k ≤ SCAN_START_OFS_MAX.
Proof.
  intros Hk. unfold clipped_page_distance, SCAN_START_OFS_MAX, UINT_MAX.
  destruct (Z.eqb_spec k 0); lia.
Qed.

(** What [mark_region] leaves in the table. *)
Lemma mark_region_entries (start : Z) (n : nat) :
  platform_wf →
  ∀ h h' k, 0 ≤ k → mark_region n h start k = Ok h' →
    (∀ j, k ≤ j < k + Z.of_nat n →
          ∃ pg, page_at h' (start + j) = Ok pg ∧
                scan_start_offset_ pg = clipped_page_distance j) ∧
    (∀ i, i < start + k → page_at h' i = page_at h i).
Proof.
  intros Hwf. induction n as [|n IH]; intros h h' k Hk; simpl.
  { intros [= <-]. split; [lia | done]. }
  rewrite encoder_stores_pages by done.
  destruct (store_scan_start h (start + k) (clipped_page_distance k))
    as [h1| | |] eqn:E1; simpl; try discriminate.
  intros Hrest. destruct (IH h1 h' (k + 1) ltac:(lia) Hrest) as [Hin Hout].
  destruct (store_scan_start_frame _ _ _ _ E1)
    as (_ & _ & Hother & pg & pg' & _ & E' & Hs & _).
  split.
  - intros j Hj. destruct (decide (j = k)) as [->|Hne].
    + exists pg'. rewrite Hout by lia. split; [done|].
      rewrite Hs. apply uint_small.
      pose proof (clipped_page_distance_range k Hk).
      unfold SCAN_START_OFS_MAX, UINT_MAX in *. lia.
    + apply Hin. lia.
  - intros i Hi. rewrite Hout by lia. apply Hother. lia.
Qed.

(** X4.  Round trip through clipping: after the entries of a region have been
    written front to back, the decoder returns for each page of the region
    its distance in bytes from the start of the region, whether the entry
    holds the distance itself or the sentinel. *)
Theorem mark_region_decodes (n : nat) (h h' : heap) (start j : Z) :
  platform_wf →
  mark_region n h start 0 = Ok h' →
  0 ≤ j < Z.of_nat n →
  page_scan_start_offset h' (start + j)
  = Ok (uword (j * GENCGC_PAGE_BYTES)).
Proof.
  intros Hwf Hmark Hj. pose proof Hwf as [HW HC HPB HWB HC32 HN].
  destruct (mark_region_entries start n Hwf h h' 0 ltac:(lia) Hmark)
    as [Hin _].
  assert (region_encoded h' start (start + j)) as Hreg.
  { intros i Hi. destruct (Hin (i - start)) as (pg & E & Hs); [lia|].
    replace (start + (i - start)) with i in E by lia. eauto. }
  destruct (Hin j) as (pg & E & Hs); [lia|].
  assert (Z.shiftl j GENCGC_CARD_SHIFT = j * GENCGC_PAGE_BYTES) as Hbytes
    by (by rewrite Z.shiftl_mul_pow2, HPB by lia).
  unfold clipped_page_distance in Hs.
  destruct (Z.eqb_spec j 0) as [->|Hnz].
  { rewrite (page_scan_start_offset_direct _ _ _ E), Hs by (by rewrite Hs).
    simpl. by rewrite Z.shiftl_0_l. }
  destruct (Z.le_gt_cases SCAN_START_OFS_MAX (2 * j + 1)) as [Hclip|Hfit].
  - rewrite Z.min_r in Hs by lia.
    rewrite (decode_of_walk h' (start + j) j pg E Hs), Hbytes; [done|].
    apply (region_walk h' start (start + j) Hreg); lia.
  - rewrite Z.min_l in Hs by lia.
    unfold SCAN_START_OFS_MAX, UINT_MAX in Hfit.
    rewrite (page_scan_start_offset_direct _ _ _ E), Hs
      by (rewrite Hs; unfold SCAN_START_OFS_MAX, UINT_MAX; lia).
    rewrite land_clear_scale_bit, land_1_mod by lia.
    replace ((2 * j + 1) mod 2) with 1
      by (rewrite Z.add_comm, Z.mul_comm, Z.mod_add by lia; done).
    replace ((2 * j + 1) / 2) with j
      by (rewrite Z.add_comm, Z.mul_comm, Z.div_add by lia; done).
    simpl. rewrite Z.shiftl_mul_pow2, HPB by lia. f_equal. f_equal.
    replace (2 ^ GENCGC_CARD_SHIFT) with (2 * 2 ^ (GENCGC_CARD_SHIFT - 1))
      by (rewrite <- Z.pow_succ_r by lia; f_equal; lia).
    lia.
Qed.

(** X5.  Whatever the table holds, a decoded offset is a multiple of two words
    that fits a machine word. *)
Theorem page_scan_start_offset_aligned (h : heap) (p r : Z) :
  platform_wf →
  page_scan_start_offset h p = Ok r →
  0 ≤ r < 2 ^ N_WORD_BITS ∧ r mod (2 * N_WORD_BYTES) = 0.
Proof.
  intros Hwf Hr. pose proof Hwf as [HW HC HPB HWB HC32 HN].
  assert (0 < 2 ^ N_WORD_BITS) as HpN by (apply Z.pow_pos_nonneg; lia).
  (* every result has the form [uword (a * 2 ^ (WORD_SHIFT + 1))] *)
  enough (∃ a, r = uword (a * 2 ^ (WORD_SHIFT + 1))) as [a ->].
  { split; [apply Z.mod_pos_bound; lia|].
    unfold uword. rewrite HWB, <- Z.pow_succ_r, <- Z.add_1_r by lia.
    replace (2 ^ N_WORD_BITS)
      with (2 ^ (N_WORD_BITS - (WORD_SHIFT + 1)) * 2 ^ (WORD_SHIFT + 1))
      by (rewrite <- Z.pow_add_r by lia; f_equal; lia).
    assert (0 < 2 ^ (WORD_SHIFT + 1)) by (apply Z.pow_pos_nonneg; lia).
    assert (0 < 2 ^ (N_WORD_BITS - (WORD_SHIFT + 1)))
      by (apply Z.pow_pos_nonneg; lia).
    rewrite Z.mul_mod_distr_r by lia. apply Z.mod_mul. lia. }
  unfold page_scan_start_offset in Hr.
  destruct (page_at h p) as [pg| | |]; simpl in Hr; try discriminate.
  destruct (negb _).
  - injection Hr as <-.
    assert (∃ e, Z.land (scan_start_offset_ pg) (UINT_MAX - 1) = 2 * e)
      as [e ->].
    { exists (Z.land (scan_start_offset_ pg) (UINT_MAX - 1) / 2).
      apply Z.div_exact; [lia|].
      rewrite <- Z.bit0_mod, Z.land_spec.
      change (Z.testbit (UINT_MAX - 1) 0) with false.
      by rewrite andb_false_r. }
    destruct (_ =? 1).
    + exists (e * 2 ^ (GENCGC_CARD_SHIFT - 1 - WORD_SHIFT)).
      rewrite Z.shiftl_mul_pow2 by lia. f_equal.
      replace (2 ^ (GENCGC_CARD_SHIFT - 1))
        with (2 ^ (GENCGC_CARD_SHIFT - 1 - WORD_SHIFT) * 2 ^ WORD_SHIFT)
        by (rewrite <- Z.pow_add_r by lia; f_equal; lia).
      rewrite Z.add_1_r, Z.pow_succ_r by lia. ring.
    + exists e. rewrite Z.shiftl_mul_pow2 by lia. f_equal.
      rewrite Z.add_1_r, Z.pow_succ_r by lia. ring.
  - unfold scan_start_offset_iterated in Hr.
    destruct (scan_start_offset_loop _ _ _ _) as [t| | |]; simpl in Hr;
      try discriminate.
    injection Hr as <-.
    exists (t * 2 ^ (GENCGC_CARD_SHIFT - (WORD_SHIFT + 1))).
    rewrite Z.shiftl_mul_pow2 by lia. f_equal.
    replace (2 ^ GENCGC_CARD_SHIFT)
      with (2 ^ (GENCGC_CARD_SHIFT - (WORD_SHIFT + 1)) * 2 ^ (WORD_SHIFT + 1))
      by (rewrite <- Z.pow_add_r by lia; f_equal; lia).
    ring.
Qed.

End RegionProofs.

Lemma mark_region_decodes_witness :
  @platform_wf linux_x86_64 ∧
  @mark_region linux_x86_64 3 three_page_blank 0 0 = Ok three_page_region ∧
  0 ≤ 2 < Z.of_nat 3 ∧
  @page_scan_start_offset linux_x86_64 three_page_region (0 + 2)
  = Ok (@uword linux_x86_64 (2 * @GENCGC_PAGE_BYTES linux_x86_64)).
Proof.
  assert (@platform_wf linux_x86_64) as Hwf by (split; simpl; lia).
  assert (@mark_region linux_x86_64 3 three_page_blank 0 0
          = Ok three_page_region) as Hmark by reflexivity.
  assert (0 ≤ 2 < Z.of_nat 3) as Hj by (simpl; lia).
  repeat (split; [assumption|]).
  exact (@mark_region_decodes linux_x86_64 3 three_page_blank
           three_page_region 0 2 Hwf Hmark Hj).
Defined.

Lemma page_scan_start_offset_aligned_witness :
  @platform_wf linux_x86_64 ∧
  @page_scan_start_offset linux_x86_64 three_page_region 2 = Ok 65536 ∧
  0 ≤ 65536 < 2 ^ @N_WORD_BITS linux_x86_64 ∧
  65536 mod (2 * @N_WORD_BYTES linux_x86_64) = 0.
Proof.
  assert (@platform_wf linux_x86_64) as Hwf by (split; simpl; lia).
  assert (@page_scan_start_offset linux_x86_64 three_page_region 2 = Ok 65536)
    as Hr by reflexivity.
  split; [exact Hwf|]. split; [exact Hr|].
  exact (@page_scan_start_offset_aligned linux_x86_64 three_page_region 2 65536
           Hwf Hr).
Defined.

(** * Further properties of the block oracle *)

Section BlockShape.
Context `{P : platform}.

Lemma ends_answer_false (h : heap) (p : Z) :
  ends_answer h p = Ok false ↔
  (∃ pg, page_at h p = Ok pg ∧ GENCGC_PAGE_WORDS ≤ words_used_ pg) ∧
  page_starts_contiguous_block_p h (p + 1) = Ok false.
Proof.
  unfold ends_answer, orelse, page_words_used.
  destruct (page_at_cases h p) as [[pg E]|E]; rewrite E; simpl.
  - destruct (Z.ltb_spec (words_used_ pg) GENCGC_PAGE_WORDS); split.
    + discriminate.
    + intros [(pg' & [= <-] & ?) _]. lia.
    + intros ->. split; [eauto | done].
    + by intros [_ ->].
  - split; [discriminate|]. by intros [(? & ? & _) _].
Qed.

Lemma page_ends_generation_free (h : heap) (p g1 g2 : Z) :
  DEBUG = false →
  page_ends_contiguous_block_p h p g1 = page_ends_contiguous_block_p h p g2.
Proof. intros HD. by rewrite !page_ends_release. Qed.

(** X7.  The shape of a block: when [contiguous_block_final_page(first)] returns
    [q], every page from [first] up to [q] (exclusive) is full, and no page
    after [first] up to [q] (inclusive) starts a block; the final page lies
    in the table. *)
Theorem contiguous_block_interior (h : heap) (first q : Z) :
  contiguous_block_final_page h first = Ok q →
  first ≤ q < Z.of_nat (length (page_table h)) ∧
  ∀ r, first ≤ r < q →
       (∃ pg, page_at h r = Ok pg ∧ GENCGC_PAGE_WORDS ≤ words_used_ pg) ∧
       page_starts_contiguous_block_p h (r + 1) = Ok false.
Proof.
  intros (pg & E & Hle & Hq & Hbetween)%final_page_loop_sound.
  split.
  - apply page_ends_in_table in Hq. lia.
  - intros r Hr. apply ends_answer_false.
    by eapply page_ends_returns, Hbetween.
Qed.

(** X8.  Without the DEBUG cross-check, every page of a block has the final page
    of the block as its own final page. *)
Theorem contiguous_block_final_page_shared (h : heap) (first q r : Z) :
  DEBUG = false →
  contiguous_block_final_page h first = Ok q →
  first ≤ r ≤ q →
  contiguous_block_final_page h r = Ok q.
Proof.
  intros HD Hfin Hr.
  pose proof Hfin as (pg & E & Hle & Hq & Hbetween)%final_page_loop_sound.
  assert (∃ pgr, page_at h r = Ok pgr) as [pgr Er].
  { apply page_at_range. destruct (decide (r = q)) as [->|].
    - by eapply page_ends_in_table.
    - eapply page_ends_in_table, Hbetween. lia. }
  apply (contiguous_block_final_page_iff h r pgr q Er).
  split; [lia|]. split.
  - by rewrite (page_ends_generation_free h q (gen pgr) (gen pg)) by done.
  - intros r' Hr'.
    rewrite (page_ends_generation_free h r' (gen pgr) (gen pg)) by done.
    apply Hbetween. lia.
Qed.

End BlockShape.

Section BlockUpdates.
Context `{P : platform}.

Lemma ends_answer_agree (h h' : heap) (p : Z) :
  page_at h' p = page_at h p →
  page_at h' (p + 1) = page_at h (p + 1) →
  ends_answer h' p = ends_answer h p.
Proof.
  intros E0 E1.
  unfold ends_answer, orelse, page_words_used, page_starts_contiguous_block_p.
  by rewrite E0, E1.
Qed.

Lemma set_offset_zero (h : heap) (index : Z) :
  set_page_scan_start_offset h index 0 = store_scan_start h index 0.
Proof.
  unfold set_page_scan_start_offset. simpl. by rewrite Z.shiftr_0_l.
Qed.

(** X9.  Starting a new region inside a block cuts the block: without the DEBUG
    cross-check, if the block of [first] ends at [q] and the entry of a page
    [p + 1] inside it is given the offset 0, the block of [first] ends at
    [p]. *)
Theorem region_start_cuts_block (h h' : heap) (first q p : Z) :
  DEBUG = false →
  contiguous_block_final_page h first = Ok q →
  first ≤ p < q →
  set_page_scan_start_offset h (p + 1) 0 = Ok h' →
  contiguous_block_final_page h' first = Ok p.
Proof.
  intros HD Hfin Hp Hset.
  pose proof Hfin as (pg & E & Hle & Hq & Hbetween)%final_page_loop_sound.
  rewrite set_offset_zero in Hset.
  destruct (store_scan_start_frame _ _ _ _ Hset)
    as (_ & _ & Hother & pg1 & pg1' & E1 & E1' & Hs & _).
  assert (∀ r, first ≤ r ≤ p → page_at h' r = page_at h r) as Hsame
    by (intros r Hr; apply Hother; lia).
  apply (contiguous_block_final_page_iff h' first pg p).
  { rewrite Hsame by lia. done. }
  split; [lia|]. split.
  - rewrite page_ends_release by done.
    pose proof (Hbetween p ltac:(lia)) as Hp'.
    rewrite page_ends_release in Hp' by done.
    apply ends_answer_false in Hp' as [(pgp & Ep & Hfull) _].
    unfold ends_answer, orelse, page_words_used,
      page_starts_contiguous_block_p.
    rewrite (Hsame p), Ep, E1' by lia. simpl.
    destruct (Z.ltb_spec (words_used_ pgp) GENCGC_PAGE_WORDS); [done|].
    by rewrite Hs.
  - intros r Hr. rewrite page_ends_release by done.
    rewrite (ends_answer_agree h h' r) by (apply Hsame; lia).
    rewrite <- (page_ends_release h r (gen pg)) by done.
    apply Hbetween. lia.
Qed.

Variable page_words_bits : Z.

Lemma set_page_bytes_used_frame (h h' : heap) (index val : Z) :
  set_page_bytes_used page_words_bits h index val = Ok h' →
  (∀ j, j ≠ index → page_at h' j = page_at h j) ∧
  ∃ pg pg', page_at h index = Ok pg ∧ page_at h' index = Ok pg' ∧
            words_used_ pg'
            = Z.shiftr val WORD_SHIFT mod 2 ^ page_words_bits ∧
            scan_start_offset_ pg' = scan_start_offset_ pg ∧
            gen pg' = gen pg.
Proof.
  unfold set_page_bytes_used.
  destruct (page_at h index) as [pg| | |] eqn:E; simpl; try discriminate.
  intros [= <-]. pose proof E as [H0 Hl]%page_at_Ok. split.
  - intros j Hj. unfold page_at. simpl.
    destruct (Z.ltb_spec j 0); [done|].
    rewrite list_lookup_insert_ne by lia. done.
  - eexists pg, _. split; [done|]. split.
    + apply page_at_Ok. split; [done|]. simpl.
      apply list_lookup_insert_eq. by eapply lookup_lt_Some.
    + done.
Qed.

(** X12.  Bytes used, written and read back: the byte count comes back rounded
    down to a whole number of words, as long as its word count fits the
    field and the byte count fits [page_bytes_t]. *)
Theorem page_bytes_used_roundtrip (h : heap) (index val : Z) :
  0 ≤ WORD_SHIFT → N_WORD_BYTES = 2 ^ WORD_SHIFT →
  0 ≤ index < Z.of_nat (length (page_table h)) →
  0 ≤ val < 2 ^ 32 →
  val / N_WORD_BYTES < 2 ^ page_words_bits →
  ∃ h', set_page_bytes_used page_words_bits h index val = Ok h' ∧
        page_bytes_used h' index = Ok (val - val mod N_WORD_BYTES).
Proof.
  intros HW HWB Hidx Hval Hfit.
  apply page_at_range in Hidx as [pg Hpg].
  assert (0 < 2 ^ WORD_SHIFT) as HpW by (apply Z.pow_pos_nonneg; lia).
  assert (∃ h', set_page_bytes_used page_words_bits h index val = Ok h')
    as [h' Hh'] by (unfold set_page_bytes_used; rewrite Hpg; simpl; eauto).
  exists h'. split; [done|].
  destruct (set_page_bytes_used_frame _ _ _ _ Hh')
    as (_ & pg0 & pg' & _ & E' & Hw & _).
  unfold page_bytes_used. rewrite E'. simpl. rewrite Hw.
  rewrite Z.shiftr_div_pow2, <- HWB by lia.
  assert (0 ≤ val / N_WORD_BYTES) by (apply Z.div_pos; lia).
  rewrite (Z.mod_small (val / N_WORD_BYTES)) by lia.
  assert (val = N_WORD_BYTES * (val / N_WORD_BYTES) + val mod N_WORD_BYTES)
    as Hdm by (apply Z.div_mod; lia).
  assert (0 ≤ val mod N_WORD_BYTES < N_WORD_BYTES) as Hm
    by (apply Z.mod_pos_bound; lia).
  assert (val / N_WORD_BYTES ≤ val)
    by (apply Z.div_le_upper_bound; nia).
  rewrite (uint_small (val / N_WORD_BYTES)) by lia.
  rewrite Z.shiftl_mul_pow2, <- HWB by lia.
  rewrite uint_small by nia. f_equal. lia.
Qed.

(** X13.  Bytes used and the end of a block: without the DEBUG cross-check, a
    page whose used bytes are set below the page size ends its block; set
    to the page size, it ends its block exactly when the next page starts
    one. *)
Theorem set_page_bytes_used_ends_block (h h' : heap) (p g val : Z) :
  DEBUG = false →
  0 ≤ WORD_SHIFT → N_WORD_BYTES = 2 ^ WORD_SHIFT →
  GENCGC_PAGE_BYTES = GENCGC_PAGE_WORDS * N_WORD_BYTES →
  GENCGC_PAGE_WORDS < 2 ^ page_words_bits →
  0 ≤ val ≤ GENCGC_PAGE_BYTES →
  set_page_bytes_used page_words_bits h p val = Ok h' →
  page_ends_contiguous_block_p h' p g
  = if val <? GENCGC_PAGE_BYTES then Ok true
    else page_starts_contiguous_block_p h (p + 1).
Proof.
  intros HD HW HWB HPW Hbits Hval Hset.
  assert (0 < 2 ^ WORD_SHIFT) as HpW by (apply Z.pow_pos_nonneg; lia).
  destruct (set_page_bytes_used_frame _ _ _ _ Hset)
    as (Hother & pg & pg' & E & E' & Hw & Hs & _).
  rewrite page_ends_release by done.
  unfold ends_answer, orelse, page_words_used. rewrite E'. simpl.
  rewrite Hw, Z.shiftr_div_pow2, <- HWB by lia.
  assert (0 ≤ val / N_WORD_BYTES) by (apply Z.div_pos; lia).
  assert (val / N_WORD_BYTES ≤ GENCGC_PAGE_WORDS).
  { apply Z.div_le_upper_bound; lia. }
  rewrite Z.mod_small by lia.
  destruct (Z.ltb_spec val GENCGC_PAGE_BYTES) as [Hlt|Hge].
  - destruct (Z.ltb_spec (val / N_WORD_BYTES) GENCGC_PAGE_WORDS); [done|].
    assert (GENCGC_PAGE_WORDS * N_WORD_BYTES ≤ val); [|lia].
    assert (N_WORD_BYTES * (val / N_WORD_BYTES) ≤ val)
      by (apply Z.mul_div_le; lia).
    nia.
  - assert (val = GENCGC_PAGE_WORDS * N_WORD_BYTES) as -> by lia.
    rewrite Z.div_mul by lia. rewrite Z.ltb_irrefl.
    unfold page_starts_contiguous_block_p.
    by rewrite Hother by lia.
Qed.

End BlockUpdates.

Lemma contiguous_block_interior_witness :
  @contiguous_block_final_page linux_x86_64 three_page_region 0 = Ok 2 ∧
  (∃ pg, page_at three_page_region 1 = Ok pg ∧
         @GENCGC_PAGE_WORDS linux_x86_64 ≤ words_used_ pg) ∧
  page_starts_contiguous_block_p three_page_region (1 + 1) = Ok false.
Proof.
  assert (@contiguous_block_final_page linux_x86_64 three_page_region 0 = Ok 2)
    as Hfin by reflexivity.
  split; [exact Hfin|].
  apply (proj2 (@contiguous_block_interior linux_x86_64 _ _ _ Hfin) 1). lia.
Defined.

Lemma contiguous_block_final_page_shared_witness :
  @DEBUG linux_x86_64 = false ∧
  @contiguous_block_final_page linux_x86_64 three_page_region 0 = Ok 2 ∧
  0 ≤ 1 ≤ 2 ∧
  @contiguous_block_final_page linux_x86_64 three_page_region 1 = Ok 2.
Proof.
  assert (@DEBUG linux_x86_64 = false) as HD by reflexivity.
  assert (@contiguous_block_final_page linux_x86_64 three_page_region 0 = Ok 2)
    as Hfin by reflexivity.
  assert (0 ≤ 1 ≤ 2) as Hr by lia.
  repeat (split; [assumption|]).
  exact (@contiguous_block_final_page_shared linux_x86_64 three_page_region
           0 2 1 HD Hfin Hr).
Defined.

Lemma region_start_cuts_block_witness :
  @DEBUG linux_x86_64 = false ∧
  @contiguous_block_final_page linux_x86_64 three_page_region 0 = Ok 2 ∧
  0 ≤ 0 < 2 ∧
  @set_page_scan_start_offset linux_x86_64 three_page_region (0 + 1) 0
  = Ok {| page_table := [used_page 0 4096; used_page 0 4096; used_page 5 10];
          next_free_page := 3 |} ∧
  @contiguous_block_final_page linux_x86_64
    {| page_table := [used_page 0 4096; used_page 0 4096; used_page 5 10];
       next_free_page := 3 |} 0 = Ok 0.
Proof.
  assert (@DEBUG linux_x86_64 = false) as HD by reflexivity.
  assert (@contiguous_block_final_page linux_x86_64 three_page_region 0 = Ok 2)
    as Hfin by reflexivity.
  assert (0 ≤ 0 < 2) as Hp by lia.
  assert (@set_page_scan_start_offset linux_x86_64 three_page_region (0 + 1) 0
          = Ok {| page_table :=
                    [used_page 0 4096; used_page 0 4096; used_page 5 10];
                  next_free_page := 3 |}) as Hset by reflexivity.
  repeat (split; [assumption|]).
  exact (@region_start_cuts_block linux_x86_64 _ _ 0 2 0 HD Hfin Hp Hset).
Defined.

Lemma page_bytes_used_roundtrip_witness :
  0 ≤ @WORD_SHIFT linux_x86_64 ∧
  @N_WORD_BYTES linux_x86_64 = 2 ^ @WORD_SHIFT linux_x86_64 ∧
  0 ≤ 2 < Z.of_nat (length (page_table three_page_region)) ∧
  0 ≤ 1003 < 2 ^ 32 ∧
  1003 / @N_WORD_BYTES linux_x86_64 < 2 ^ 16 ∧
  ∃ h', @set_page_bytes_used linux_x86_64 16 three_page_region 2 1003 = Ok h' ∧
        @page_bytes_used linux_x86_64 h' 2 = Ok 1000.
Proof.
  assert (0 ≤ @WORD_SHIFT linux_x86_64) as HW by (simpl; lia).
  assert (@N_WORD_BYTES linux_x86_64 = 2 ^ @WORD_SHIFT linux_x86_64) as HWB
    by reflexivity.
  assert (0 ≤ 2 < Z.of_nat (length (page_table three_page_region))) as Hi
    by (simpl; lia).
  assert (0 ≤ 1003 < 2 ^ 32) as Hv by lia.
  assert (1003 / @N_WORD_BYTES linux_x86_64 < 2 ^ 16) as Hfit
    by (vm_compute; reflexivity).
  repeat (split; [assumption|]).
  exact (@page_bytes_used_roundtrip linux_x86_64 16 three_page_region 2 1003
           HW HWB Hi Hv Hfit).
Defined.

Lemma set_page_bytes_used_ends_block_witness :
  @DEBUG linux_x86_64 = false ∧
  @GENCGC_PAGE_BYTES linux_x86_64
  = @GENCGC_PAGE_WORDS linux_x86_64 * @N_WORD_BYTES linux_x86_64 ∧
  @GENCGC_PAGE_WORDS linux_x86_64 < 2 ^ 16 ∧
  0 ≤ 1000 ≤ @GENCGC_PAGE_BYTES linux_x86_64 ∧
  0 ≤ 32768 ≤ @GENCGC_PAGE_BYTES linux_x86_64 ∧
  (* page 0 of the three-page region cut down to 1000 bytes: it ends its
     block, although page 1 continues the region *)
  @set_page_bytes_used linux_x86_64 16 three_page_region 0 1000
  = Ok {| page_table := [used_page 0 125; used_page 3 4096; used_page 5 10];
          next_free_page := 3 |} ∧
  @page_ends_contiguous_block_p linux_x86_64
    {| page_table := [used_page 0 125; used_page 3 4096; used_page 5 10];
       next_free_page := 3 |} 0 0
  = Ok true ∧
  (* the last page of the region filled up: it no longer ends the block,
     page 2 of the table continues it *)
  @set_page_bytes_used linux_x86_64 16
    {| page_table := [used_page 0 4096; used_page 3 10; used_page 5 10];
       next_free_page := 3 |} 1 32768
  = Ok three_page_region ∧
  @page_ends_contiguous_block_p linux_x86_64 three_page_region 1 0
  = Ok false ∧
  (* a full page in front of a page that starts a block *)
  @set_page_bytes_used linux_x86_64 16
    {| page_table := [used_page 0 4096; used_page 3 10; free_page];
       next_free_page := 2 |} 1 32768
  = Ok two_full_pages ∧
  @page_ends_contiguous_block_p linux_x86_64 two_full_pages 1 0 = Ok true.
Proof.
  assert (@DEBUG linux_x86_64 = false) as HD by reflexivity.
  assert (0 ≤ @WORD_SHIFT linux_x86_64) as HW by (simpl; lia).
  assert (@N_WORD_BYTES linux_x86_64 = 2 ^ @WORD_SHIFT linux_x86_64) as HWB
    by reflexivity.
  assert (@GENCGC_PAGE_BYTES linux_x86_64
          = @GENCGC_PAGE_WORDS linux_x86_64 * @N_WORD_BYTES linux_x86_64)
    as HPW by reflexivity.
  assert (@GENCGC_PAGE_WORDS linux_x86_64 < 2 ^ 16) as Hbits by (simpl; lia).
  assert (0 ≤ 1000 ≤ @GENCGC_PAGE_BYTES linux_x86_64) as Hv1 by (simpl; lia).
  assert (0 ≤ 32768 ≤ @GENCGC_PAGE_BYTES linux_x86_64) as Hv2 by (simpl; lia).
  assert (@set_page_bytes_used linux_x86_64 16 three_page_region 0 1000
          = Ok {| page_table :=
                    [used_page 0 125; used_page 3 4096; used_page 5 10];
                  next_free_page := 3 |}) as Hset1 by reflexivity.
  assert (@set_page_bytes_used linux_x86_64 16
            {| page_table := [used_page 0 4096; used_page 3 10; used_page 5 10];
               next_free_page := 3 |} 1 32768
          = Ok three_page_region) as Hset2 by reflexivity.
  assert (@set_page_bytes_used linux_x86_64 16
            {| page_table := [used_page 0 4096; used_page 3 10; free_page];
               next_free_page := 2 |} 1 32768
          = Ok two_full_pages) as Hset3 by reflexivity.
  split; [exact HD|]. split; [exact HPW|]. split; [exact Hbits|].
  split; [exact Hv1|]. split; [exact Hv2|].
  split; [exact Hset1|]. split.
  { exact (@set_page_bytes_used_ends_block linux_x86_64 16 _ _ 0 0 1000
             HD HW HWB HPW Hbits Hv1 Hset1). }
  split; [exact Hset2|]. split.
  { exact (@set_page_bytes_used_ends_block linux_x86_64 16 _ _ 1 0 32768
             HD HW HWB HPW Hbits Hv2 Hset2). }
  split; [exact Hset3|].
  exact (@set_page_bytes_used_ends_block linux_x86_64 16 _ _ 1 0 32768
           HD HW HWB HPW Hbits Hv2 Hset3).
Defined.

(** * Further properties of the static-space allocator *)

Section BumpInvariants.
Context `{P : platform}.

Lemma atomic_bump_returns (others : list (option Z)) (fp nbytes r cell : Z) :
  atomic_bump_static_space_free_ptr others fp nbytes = Ok (r, cell) →
  ∃ claimed,
    (claimed = fp ∨ Some claimed ∈ others) ∧
    ((r = 0 ∧ cell = claimed) ∨
     (r = claimed ∧ cell = uword (claimed + nbytes) ∧
      claimed ≤ cell ≤ STATIC_SPACE_END)).
Proof.
  unfold atomic_bump_static_space_free_ptr.
  destruct (gc_assert _) as [[]| | |]; simpl; try discriminate.
  destruct (bump_loop_returns nbytes others fp) as (claimed & Hin & ->).
  intros Hres. exists claimed. split; [done|].
  destruct (Z.gtb_spec (uword (claimed + nbytes)) STATIC_SPACE_END);
    destruct (Z.ltb_spec (uword (claimed + nbytes)) claimed);
    simpl in Hres; injection Hres as <- <-; (by left) || (right; lia).
Qed.

(** The loop stops at the value it last read: it has lost the races in
    front of that read and the iteration on it is the final one. *)
Lemma bump_loop_last_read (nbytes : Z) (others : list (option Z)) :
  ∀ claimed, ∃ last rest,
    lost_races nbytes claimed others last rest ∧
    final_read nbytes last rest ∧
    bump_loop others nbytes claimed =
      if (uword (last + nbytes) >? STATIC_SPACE_END)
         || (uword (last + nbytes) <? last)
      then Ok (0, last)
      else Ok (last, uword (last + nbytes)).
Proof.
  induction others as [|o others IH]; intros claimed.
  - exists claimed, []. split; [constructor|]. split; [by right|].
    simpl. by case_match.
  - simpl.
    destruct ((uword (claimed + nbytes) >? STATIC_SPACE_END)
              || (uword (claimed + nbytes) <? claimed)) eqn:Hfail.
    { exists claimed, (o :: others). split; [constructor|].
      split; [by left|]. by rewrite Hfail. }
    destruct (Z.eqb_spec (default claimed o) claimed) as [Heq|Hne].
    { exists claimed, (o :: others). split; [constructor|].
      split; [by right|]. by rewrite Hfail. }
    destruct o as [v|]; simpl in *; [|done].
    destruct (IH v) as (last & rest & Hlost & Hfinal & Hres).
    exists last, rest. split; [by constructor|]. done.
Qed.

(** The value last read is determined by the frontier and the
    interference. *)
Lemma last_read_unique (nbytes : Z) (claimed : Z) (others : list (option Z))
    (last1 last2 : Z) (rest1 rest2 : list (option Z)) :
  lost_races nbytes claimed others last1 rest1 →
  final_read nbytes last1 rest1 →
  lost_races nbytes claimed others last2 rest2 →
  final_read nbytes last2 rest2 →
  last1 = last2 ∧ rest1 = rest2.
Proof.
  assert (∀ c v os, final_read nbytes c (Some v :: os) →
                    (uword (c + nbytes) >? STATIC_SPACE_END)
                      || (uword (c + nbytes) <? c) = false →
                    v ≠ c → False) as Hcontra.
  { intros c v os [Hf|Heq] Hok Hne; [congruence | by apply Hne]. }
  intros H1. revert last2 rest2.
  induction H1 as [c os|c v os l1 r1 Hok Hne H1 IH];
    intros last2 rest2 Hf1 H2 Hf2.
  - inversion H2 as [|? ? ? ? ? Hok Hne H2']; subst; [done|].
    destruct (Hcontra _ _ _ Hf1 Hok Hne).
  - inversion H2 as [|? ? ? ? ? Hok' Hne' H2']; subst.
    + destruct (Hcontra _ _ _ Hf2 Hok Hne).
    + by apply IH.
Qed.

(** X15.  The frontier never moves backwards and never passes the end of
    static space, in any build, for any byte count (negative ones
    included) and any interference.  A call that returns has lost the
    races in front of the value it last read ([lost_races]), and its
    iteration on that value was the final one ([final_read]); that value
    is the only one of which this holds.  The call leaves the frontier at
    that value when it returns null and advanced from it by the byte count
    otherwise, in both cases at or above it, and at or below
    [STATIC_SPACE_END] if the initial frontier and the other threads'
    stores were. *)
Theorem static_frontier_invariant
    (others : list (option Z)) (fp nbytes r cell : Z) :
  atomic_bump_static_space_free_ptr others fp nbytes = Ok (r, cell) →
  ∃ last rest,
    lost_races nbytes fp others last rest ∧
    final_read nbytes last rest ∧
    (∀ last' rest', lost_races nbytes fp others last' rest' →
                    final_read nbytes last' rest' →
                    last' = last ∧ rest' = rest) ∧
    (last = fp ∨ Some last ∈ others) ∧
    ((r = 0 ∧ cell = last) ∨
     (r = last ∧ cell = uword (last + nbytes))) ∧
    last ≤ cell ∧
    (fp ≤ STATIC_SPACE_END →
     (∀ v, Some v ∈ others → v ≤ STATIC_SPACE_END) →
     cell ≤ STATIC_SPACE_END).
Proof.
  unfold atomic_bump_static_space_free_ptr.
  destruct (gc_assert _) as [[]| | |]; simpl; try discriminate.
  destruct (bump_loop_last_read nbytes others fp)
    as (last & rest & Hlost & Hfinal & ->).
  intros Hres. exists last, rest.
  assert (last = fp ∨ Some last ∈ others) as Hin.
  { clear Hres Hfinal.
    induction Hlost as [c os|c v os l rs Hok Hne Hlost IH]; [by left|].
    right. destruct IH as [->|Hin]; [left | by right]. }
  split; [done|]. split; [done|]. split.
  { intros last' rest' Hlost' Hfinal'.
    by apply (last_read_unique nbytes fp others). }
  split; [done|].
  destruct (Z.gtb_spec (uword (last + nbytes)) STATIC_SPACE_END);
    destruct (Z.ltb_spec (uword (last + nbytes)) last);
    simpl in Hres; injection Hres as <- <-.
  1-3: split; [by left|]; split; [lia|]; intros Hfp Hothers;
       destruct Hin as [->|Hin]; [done | by apply Hothers].
  split; [by right|]. split; lia.
Qed.

(** One uncontended call for a non-negative byte count. *)
Lemma bump_once (fp nbytes r cell : Z) :
  0 ≤ fp < 2 ^ N_WORD_BITS →
  0 ≤ nbytes < 2 ^ N_WORD_BITS →
  atomic_bump_static_space_free_ptr [] fp nbytes = Ok (r, cell) →
  0 ≤ cell < 2 ^ N_WORD_BITS ∧
  ((r = 0 ∧ cell = fp) ∨
   (r = fp ∧ cell = fp + nbytes ∧ cell ≤ STATIC_SPACE_END)).
Proof.
  intros Hfp Hn (claimed & [->|[]%elem_of_nil] & Hcases)%atomic_bump_returns.
  destruct Hcases as [[-> ->]|(-> & -> & Hle)].
  - split; [done | by left].
  - assert (uword (fp + nbytes) = fp + nbytes) as Hex
      by (apply bump_exact; lia).
    assert (0 ≤ uword (fp + nbytes) < 2 ^ N_WORD_BITS)
      by (apply Z.mod_pos_bound; lia).
    rewrite Hex in *. split; [done | right; lia].
Qed.

Lemma claim_each_spec (sizes : list Z) :
  Forall (λ n, 0 ≤ n < 2 ^ N_WORD_BITS) sizes →
  ∀ fp rs fp',
    0 ≤ fp < 2 ^ N_WORD_BITS →
    claim_each sizes fp = Ok (rs, fp') →
    length rs = length sizes ∧ fp ≤ fp' ∧
    (fp ≤ STATIC_SPACE_END → fp' ≤ STATIC_SPACE_END) ∧
    (∀ j rj nj, rs !! j = Some rj → sizes !! j = Some nj → rj ≠ 0 →
                fp ≤ rj ∧ rj + nj ≤ fp') ∧
    (∀ i j ri rj ni, (i < j)%nat →
                     rs !! i = Some ri → rs !! j = Some rj →
                     sizes !! i = Some ni →
                     ri ≠ 0 → rj ≠ 0 → ri + ni ≤ rj).
Proof.
  induction 1 as [|n sizes Hn Hsizes IH]; intros fp rs fp' Hfp; simpl.
  { intros [= <- <-]. repeat split; try done; try lia;
      intros *; by rewrite ?lookup_nil. }
  destruct (atomic_bump_static_space_free_ptr [] fp n) as [[r c]| | |] eqn:E1;
    simpl; try discriminate.
  destruct (claim_each sizes c) as [[rs1 fp1]| | |] eqn:E2; simpl;
    try discriminate.
  intros [= <- <-].
  destruct (bump_once fp n r c Hfp Hn E1) as [Hc Hcases].
  destruct (IH c rs1 fp1 Hc E2) as (Hlen & Hmono & Hend & Hin & Hpair).
  assert (fp ≤ c) as Hfc by lia.
  split; [simpl; by rewrite Hlen|]. split; [lia|]. split; [lia|]. split.
  - intros [|j] rj nj; simpl.
    + intros [= <-] [= <-] Hnz. lia.
    + intros Hr Hs Hnz. destruct (Hin j rj nj Hr Hs Hnz). lia.
  - intros [|i] [|j] ri rj ni Hij; simpl; try lia.
    + intros [= <-] Hrj [= <-] Hri Hnz.
      assert (is_Some (sizes !! j)) as [nj Hnj].
      { apply lookup_lt_is_Some. rewrite <- Hlen.
        by eapply lookup_lt_Some. }
      destruct (Hin j rj nj Hrj Hnj Hnz). lia.
    + apply Hpair. lia.
Qed.

(** X17.  Claims do not overlap: when one thread claims static space for a list
    of byte counts in turn, any two claims that are served lie one after the
    other in the order of the calls, inside the range between the frontier
    at the start and the frontier at the end. *)
Theorem static_claims_disjoint (sizes rs : list Z) (fp fp' : Z) :
  0 ≤ fp < 2 ^ N_WORD_BITS →
  Forall (λ n, 0 ≤ n < 2 ^ N_WORD_BITS) sizes →
  claim_each sizes fp = Ok (rs, fp') →
  length rs = length sizes ∧
  (fp ≤ STATIC_SPACE_END → fp' ≤ STATIC_SPACE_END) ∧
  (∀ j rj nj, rs !! j = Some rj → sizes !! j = Some nj → rj ≠ 0 →
              fp ≤ rj ∧ rj + nj ≤ fp') ∧
  (∀ i j ri rj ni, (i < j)%nat →
                   rs !! i = Some ri → rs !! j = Some rj →
                   sizes !! i = Some ni →
                   ri ≠ 0 → rj ≠ 0 → ri + ni ≤ rj).
Proof.
  intros Hfp Hsizes Hrun.
  destruct (claim_each_spec sizes Hsizes fp rs fp' Hfp Hrun)
    as (? & ? & ? & ? & ?).
  done.
Qed.

(** X18.  Two threads racing for the frontier: a thread that has read the
    frontier [fp] and then loses the compare-and-swap to a claim of [n1]
    bytes is served, if at all, behind that claim. *)
Theorem static_claims_race (fp n1 n2 r cell : Z) :
  0 ≤ N_WORD_BITS →
  0 ≤ fp → 0 < n1 → 0 ≤ n2 < 2 ^ N_WORD_BITS →
  atomic_bump_static_space_free_ptr [] fp n1 = Ok (fp, fp + n1) →
  atomic_bump_static_space_free_ptr [Some (fp + n1)] fp n2 = Ok (r, cell) →
  r = 0 ∨ (r = fp + n1 ∧ cell = fp + n1 + n2 ∧ cell ≤ STATIC_SPACE_END).
Proof.
  intros HN Hfp Hn1 Hn2 Hwon Hlost.
  assert (0 ≤ fp + n1 < 2 ^ N_WORD_BITS) as Hfr.
  { apply atomic_bump_returns in Hwon
      as (claimed & [->|[]%elem_of_nil] & [[? ?]|(_ & Hc & _)]); [lia|].
    rewrite Hc. apply Z.mod_pos_bound. by apply Z.pow_pos_nonneg. }
  unfold atomic_bump_static_space_free_ptr in Hlost.
  destruct (gc_assert _) as [[]| | |]; simpl in Hlost; try discriminate.
  destruct (_ || _); [injection Hlost as <- <-; by left|].
  destruct (Z.eqb_spec (fp + n1) fp); [lia|].
  destruct (Z.gtb_spec (uword (fp + n1 + n2)) STATIC_SPACE_END);
    destruct (Z.ltb_spec (uword (fp + n1 + n2)) (fp + n1));
    simpl in Hlost; injection Hlost as <- <-; try (by left).
  assert (uword (fp + n1 + n2) = fp + n1 + n2) as Hex
    by (apply bump_exact; lia).
  right. rewrite Hex in *. lia.
Qed.

End BumpInvariants.

Lemma static_frontier_invariant_witness :
  @atomic_bump_static_space_free_ptr linux_x86_64
    [Some (static_base + 4096); None] static_base 4096
  = Ok (static_base + 4096, static_base + 8192) ∧
  ∃ last rest,
    @lost_races linux_x86_64 4096 static_base
      [Some (static_base + 4096); None] last rest ∧
    @final_read linux_x86_64 4096 last rest ∧
    last = static_base + 4096 ∧ rest = [None] ∧
    last ≤ static_base + 8192.
Proof.
  assert (@atomic_bump_static_space_free_ptr linux_x86_64
            [Some (static_base + 4096); None] static_base 4096
          = Ok (static_base + 4096, static_base + 8192)) as Hres
    by reflexivity.
  split; [exact Hres|].
  destruct (@static_frontier_invariant linux_x86_64 _ _ _ _ _ Hres)
    as (last & rest & Hlost & Hfinal & Huniq & _ & _ & Hle & _).
  exists last, rest.
  destruct (Huniq (static_base + 4096) [None]) as [<- <-].
  - apply lost_one; [reflexivity | discriminate | apply lost_none].
  - right. reflexivity.
  - split; [exact Hlost|]. split; [exact Hfinal|].
    split; [reflexivity|]. split; [reflexivity|]. exact Hle.
Defined.

(** The frontier is left alone by a call that finds no room behind the
    store it lost to, and by a negative byte count that would wrap. *)
Example static_frontier_left_alone :
  @atomic_bump_static_space_free_ptr linux_x86_64
    [Some (static_base + 8192)] static_base 4096
  = Ok (0, static_base + 8192) ∧
  @atomic_bump_static_space_free_ptr ndebug_build
    [Some (static_base + 4096)] static_base (-16)
  = Ok (0, static_base).
Proof. split; reflexivity. Qed.

Lemma static_claims_disjoint_witness :
  0 ≤ static_base < 2 ^ @N_WORD_BITS linux_x86_64 ∧
  Forall (λ n, 0 ≤ n < 2 ^ @N_WORD_BITS linux_x86_64) [4096; 8192; 4096] ∧
  @claim_each linux_x86_64 [4096; 8192; 4096] static_base
  = Ok ([static_base; 0; static_base + 4096], static_base + 8192) ∧
  static_base + 4096 ≤ static_base + 4096.
Proof.
  assert (0 ≤ static_base < 2 ^ @N_WORD_BITS linux_x86_64) as Hfp
    by (unfold static_base; simpl; lia).
  assert (Forall (λ n, 0 ≤ n < 2 ^ @N_WORD_BITS linux_x86_64)
            [4096; 8192; 4096]) as Hsizes
    by (repeat constructor; simpl; lia).
  assert (@claim_each linux_x86_64 [4096; 8192; 4096] static_base
          = Ok ([static_base; 0; static_base + 4096], static_base + 8192))
    as Hrun by reflexivity.
  repeat (split; [assumption|]).
  destruct (@static_claims_disjoint linux_x86_64 _ _ _ _ Hfp Hsizes Hrun)
    as (_ & _ & _ & Hpair).
  apply (Hpair 0%nat 2%nat static_base (static_base + 4096) 4096);
    [lia | reflexivity.. | |]; unfold static_base; lia.
Defined.

Lemma static_claims_race_witness :
  0 ≤ @N_WORD_BITS linux_x86_64 ∧ 0 ≤ static_base ∧ 0 < 4096 ∧
  0 ≤ 4096 < 2 ^ @N_WORD_BITS linux_x86_64 ∧
  @atomic_bump_static_space_free_ptr linux_x86_64 [] static_base 4096
  = Ok (static_base, static_base + 4096) ∧
  @atomic_bump_static_space_free_ptr linux_x86_64
    [Some (static_base + 4096)] static_base 4096
  = Ok (static_base + 4096, static_base + 8192) ∧
  (static_base + 4096 = 0 ∨
   static_base + 4096 = static_base + 4096 ∧
   static_base + 8192 = static_base + 4096 + 4096 ∧
   static_base + 8192 ≤ @STATIC_SPACE_END linux_x86_64).
Proof.
  assert (0 ≤ @N_WORD_BITS linux_x86_64) as HN by (simpl; lia).
  assert (0 ≤ static_base) as Hfp by (unfold static_base; lia).
  assert (0 < 4096) as Hn1 by lia.
  assert (0 ≤ 4096 < 2 ^ @N_WORD_BITS linux_x86_64) as Hn2 by (simpl; lia).
  assert (@atomic_bump_static_space_free_ptr linux_x86_64 [] static_base 4096
          = Ok (static_base, static_base + 4096)) as Hwon by reflexivity.
  assert (@atomic_bump_static_space_free_ptr linux_x86_64
            [Some (static_base + 4096)] static_base 4096
          = Ok (static_base + 4096, static_base + 8192)) as Hlost
    by reflexivity.
  repeat (split; [assumption|]).
  exact (@static_claims_race linux_x86_64 static_base 4096 4096 _ _
           HN Hfp Hn1 Hn2 Hwon Hlost).
Defined.

(** * Further properties of the code-object allocator *)

Section CodeEdges.
Context `{P : platform}.
Variable lisp_alloc : Z → Z * list Z.
Variable make_lispobj : Z → Z → Z.

(** X19.  The allocator initialises four words and no more: every other word of
    the new object still holds what [lisp_alloc] found there. *)
Theorem alloc_code_object_leaves_body (th : thread) (total_words obj : Z)
    (mem : list Z) (i : nat) :
  alloc_code_object lisp_alloc make_lispobj th total_words = Ok (obj, mem) →
  i ≠ 0%nat →
  i ≠ Z.to_nat code_boxed_size_slot →
  i ≠ Z.to_nat code_debug_info_slot →
  i ≠ Z.to_nat (uint (total_words - 1)) →
  mem !! i = (lisp_alloc (uint (total_words * N_WORD_BYTES))).2 !! i.
Proof.
  unfold alloc_code_object.
  destruct (lisp_alloc (uint (total_words * N_WORD_BYTES))) as [code mem0].
  destruct (if REQUIRE_GC_INHIBIT then _ else _) as [[]| | |]; simpl;
    try discriminate.
  destruct (store_word mem0 0 _) as [mem1| | |] eqn:E1; simpl;
    try discriminate.
  destruct (store_word mem1 code_boxed_size_slot 0) as [mem2| | |] eqn:E2;
    simpl; try discriminate.
  destruct (store_word mem2 code_debug_info_slot 0) as [mem3| | |] eqn:E3;
    simpl; try discriminate.
  destruct (store_word mem3 (uint (total_words - 1)) 0) as [mem4| | |] eqn:E4;
    simpl; try discriminate.
  intros [= <- <-] H0 Hb Hd Ht.
  apply store_word_Ok in E1 as [_ ->], E2 as [_ ->], E3 as [_ ->],
    E4 as [_ ->].
  by rewrite !list_lookup_insert_ne by done.
Qed.

(** X20.  The four stores are made in the order header, [boxed_size],
    [debug_info], trailing word, and the last store to a word is the one
    that stays.  Whenever the call returns, for any region allocator, the
    [boxed_size] slot, the [debug_info] slot and the word at
    [total_words - 1] (taken as [unsigned]) hold 0, and word 0 holds the
    header unless [total_words] is 1: the trailing word of a one-word
    object is word 0, and the header is overwritten with 0. *)
Theorem alloc_code_object_one_word_header (th : thread)
    (total_words obj : Z) (mem : list Z) :
  0 ≤ total_words < 2 ^ 32 →
  0 < code_boxed_size_slot →
  0 < code_debug_info_slot →
  alloc_code_object lisp_alloc make_lispobj th total_words = Ok (obj, mem) →
  mem !! 0%nat
    = Some (if total_words =? 1 then 0
            else Z.lor (uword (Z.shiftl total_words CODE_HEADER_SIZE_SHIFT))
                       CODE_HEADER_WIDETAG) ∧
  mem !! Z.to_nat code_boxed_size_slot = Some 0 ∧
  mem !! Z.to_nat code_debug_info_slot = Some 0 ∧
  mem !! Z.to_nat (uint (total_words - 1)) = Some 0 ∧
  length mem = length (lisp_alloc (uint (total_words * N_WORD_BYTES))).2.
Proof.
  intros Htw Hsb Hsd. unfold alloc_code_object.
  destruct (lisp_alloc (uint (total_words * N_WORD_BYTES))) as [code mem0].
  destruct (if REQUIRE_GC_INHIBIT then _ else _) as [[]| | |]; simpl;
    try discriminate.
  destruct (store_word mem0 0 _) as [mem1| | |] eqn:E1; simpl;
    try discriminate.
  destruct (store_word mem1 code_boxed_size_slot 0) as [mem2| | |] eqn:E2;
    simpl; try discriminate.
  destruct (store_word mem2 code_debug_info_slot 0) as [mem3| | |] eqn:E3;
    simpl; try discriminate.
  destruct (store_word mem3 (uint (total_words - 1)) 0) as [mem4| | |] eqn:E4;
    simpl; try discriminate.
  intros [= <- <-].
  apply store_word_Ok in E1 as [H1 ->], E2 as [H2 ->], E3 as [H3 ->],
    E4 as [H4 ->].
  rewrite ?length_insert in *.
  split; [|split; [|split; [|split]]].
  - destruct (Z.eqb_spec total_words 1) as [->|Hne].
    + change (uint (1 - 1)) with 0.
      apply list_lookup_insert_eq. rewrite !length_insert. lia.
    + assert (uint (total_words - 1) ≠ 0) as Hnz.
      { unfold uint. destruct (decide (total_words = 0)) as [->|]; [done|].
        rewrite Z.mod_small by lia. lia. }
      rewrite !list_lookup_insert_ne by lia.
      apply list_lookup_insert_eq. lia.
  - apply insert_zero_lookup; [rewrite !length_insert; lia|]. right.
    apply insert_zero_lookup; [rewrite !length_insert; lia|]. right.
    apply list_lookup_insert_eq. rewrite !length_insert. lia.
  - apply insert_zero_lookup; [rewrite !length_insert; lia|]. right.
    apply list_lookup_insert_eq. rewrite !length_insert. lia.
  - apply list_lookup_insert_eq. rewrite !length_insert. lia.
  - done.
Qed.

End CodeEdges.

Lemma alloc_code_object_leaves_body_witness :
  @alloc_code_object linux_x86_64 stale_alloc tag_pointer mutator 5
  = Ok (0x5200000F, [0x50000002D; 0; 0; 0xDEADBEEF; 0]) ∧
  [0x50000002D; 0; 0; 0xDEADBEEF; 0] !! 3%nat = Some 0xDEADBEEF.
Proof.
  assert (@alloc_code_object linux_x86_64 stale_alloc tag_pointer mutator 5
          = Ok (0x5200000F, [0x50000002D; 0; 0; 0xDEADBEEF; 0])) as Hrun
    by reflexivity.
  split; [exact Hrun|].
  rewrite (@alloc_code_object_leaves_body linux_x86_64 stale_alloc tag_pointer
             mutator 5 _ _ 3%nat Hrun); [reflexivity | | | |];
    vm_compute; discriminate.
Defined.

Lemma alloc_code_object_one_word_header_witness :
  0 ≤ 1 < 2 ^ 32 ∧
  0 < @code_boxed_size_slot linux_x86_64 ∧
  0 < @code_debug_info_slot linux_x86_64 ∧
  @alloc_code_object linux_x86_64 padded_alloc tag_pointer mutator 1
  = Ok (0x5200000F, [0; 0; 0; 0xDEADBEEF]) ∧
  [0; 0; 0; 0xDEADBEEF] !! 0%nat = Some 0.
Proof.
  assert (0 ≤ 1 < 2 ^ 32) as Htw by lia.
  assert (0 < @code_boxed_size_slot linux_x86_64) as Hsb by (simpl; lia).
  assert (0 < @code_debug_info_slot linux_x86_64) as Hsd by (simpl; lia).
  assert (@alloc_code_object linux_x86_64 padded_alloc tag_pointer mutator 1
          = Ok (0x5200000F, [0; 0; 0; 0xDEADBEEF])) as Hrun by reflexivity.
  repeat (split; [assumption|]).
  exact (proj1 (@alloc_code_object_one_word_header linux_x86_64 padded_alloc
                  tag_pointer mutator 1 _ _ Htw Hsb Hsd Hrun)).
Defined.

(** Any larger object keeps its header; with no words at all the trailing
    store goes to word [UINT_MAX], nowhere near the header. *)
Example alloc_code_object_two_words :
  @alloc_code_object linux_x86_64 padded_alloc tag_pointer mutator 2
  = Ok (0x5200000F, [0x20000002D; 0; 0; 0xDEADBEEF]) ∧
  uint (0 - 1) = UINT_MAX.
Proof. split; reflexivity. Qed.

(** * Further properties of the allocation profiler *)

Section ProfilerEdges.
Context `{P : platform}.
Variable os_allocate_addr : gmap Z Z → Z → Z.

(** X21.  Misuse changes nothing but stderr: a second [start()] reports "already
    started", a [start()] without a metadata vector reports "metadata not
    created", a [stop()] on a stopped profiler (a second [stop()] included)
    reports "not started"; buffer, flag, thread slots, mappings and stdout
    stay as they were. *)
Theorem profiler_misuse_is_noop (s : runtime) :
  (alloc_profiling s = 0 →
   simple_vector_p (alloc_profile_data s) = true →
   allocation_profiler_start os_allocate_addr
     (allocation_profiler_start os_allocate_addr s)
   = log_stderr already_started (allocation_profiler_start os_allocate_addr s)) ∧
  (alloc_profiling s = 0 →
   simple_vector_p (alloc_profile_data s) = false →
   allocation_profiler_start os_allocate_addr s
   = log_stderr metadata_not_created s) ∧
  (alloc_profiling s = 0 →
   allocation_profiler_stop s = log_stderr not_started s) ∧
  allocation_profiler_stop (allocation_profiler_stop s)
  = log_stderr not_started (allocation_profiler_stop s).
Proof.
  assert (∀ t, alloc_profiling t = 0 →
               allocation_profiler_stop t = log_stderr not_started t) as Hstop.
  { intros t Ht. unfold allocation_profiler_stop, log_stderr. by rewrite Ht. }
  split; [|split; [|split]].
  - intros Hp Hv.
    destruct (start_running os_allocate_addr s Hp Hv) as (Hp1 & _).
    unfold allocation_profiler_start at 1, log_stderr. by rewrite Hp1.
  - intros Hp Hv. unfold allocation_profiler_start, log_stderr.
    by rewrite Hp, Hv.
  - apply Hstop.
  - apply Hstop. unfold allocation_profiler_stop.
    by destruct (Z.eqb_spec (alloc_profiling s) 0).
Qed.

(** X22.  The first start of a profiler that holds no buffer, for metadata of a
    non-zero size: one mapping of that size is made, it is the buffer, every
    thread's slot points at it, and stdout receives the buffer line and the
    thread count, no warning. *)
Theorem profiler_cold_start (s : runtime) :
  alloc_profiling s = 0 →
  simple_vector_p (alloc_profile_data s) = true →
  alloc_profile_buffer s = 0 →
  profile_buffer_size s = 0 →
  profile_size (alloc_profile_data s) ≠ 0 →
  let s' := allocation_profiler_start os_allocate_addr s in
  let buffer :=
    os_allocate_addr (os_mappings s) (profile_size (alloc_profile_data s)) in
  alloc_profiling s' = 1 ∧
  alloc_profile_buffer s' = buffer ∧
  profile_buffer_size s' = profile_size (alloc_profile_data s) ∧
  os_mappings s'
  = <[buffer := profile_size (alloc_profile_data s)]> (os_mappings s) ∧
  os_mappings s' !! alloc_profile_buffer s' = Some (profile_buffer_size s') ∧
  Forall (λ th, profile_data th = buffer) (all_threads s') ∧
  stdout s'
  = stdout s
    ++ [using_cells (uint (Z.quot (vector_len (alloc_profile_data s)) 2))
          (profile_size (alloc_profile_data s)) buffer;
        profiler_threads (Z.of_nat (length (all_threads s)))].
Proof.
  intros Hp Hv Hb Hsz Hne s' buffer. unfold s'.
  rewrite start_other_size by (done || by rewrite Hsz).
  simpl. rewrite Hb. simpl. fold buffer.
  repeat split; try done.
  - apply lookup_insert_eq.
  - apply set_profile_data_all.
Qed.

(** X23.  Metadata of size zero (fewer than two entries, or so many that the byte
    count wraps to 0) on a profiler that holds no buffer: the profiler
    counts as started, but no buffer is mapped and every thread's slot is
    null. *)
Theorem profiler_starts_without_buffer (s : runtime) :
  alloc_profiling s = 0 →
  simple_vector_p (alloc_profile_data s) = true →
  alloc_profile_buffer s = 0 →
  profile_buffer_size s = 0 →
  profile_size (alloc_profile_data s) = 0 →
  let s' := allocation_profiler_start os_allocate_addr s in
  alloc_profiling s' = 1 ∧
  alloc_profile_buffer s' = 0 ∧
  os_mappings s' = os_mappings s ∧
  Forall (λ th, profile_data th = 0) (all_threads s') ∧
  stdout s'
  = stdout s ++ [profiler_threads (Z.of_nat (length (all_threads s)))].
Proof.
  intros Hp Hv Hb Hsz Hz s'. unfold s'.
  rewrite start_same_size by (done || by rewrite Hsz).
  simpl. rewrite Hb. repeat split; try done. apply set_profile_data_all.
Qed.

End ProfilerEdges.

Lemma profiler_misuse_is_noop_witness :
  let s := cold_runtime (simple_vector 4) [mutator; mutator] in
  alloc_profiling s = 0 ∧
  simple_vector_p (alloc_profile_data s) = true ∧
  @allocation_profiler_start linux_x86_64 next_mapping
    (@allocation_profiler_start linux_x86_64 next_mapping s)
  = log_stderr already_started
      (@allocation_profiler_start linux_x86_64 next_mapping s).
Proof.
  intros s.
  assert (alloc_profiling s = 0) as Hp by reflexivity.
  assert (simple_vector_p (alloc_profile_data s) = true) as Hv by reflexivity.
  repeat (split; [assumption|]).
  exact (proj1 (@profiler_misuse_is_noop linux_x86_64 next_mapping s) Hp Hv).
Defined.

Lemma profiler_cold_start_witness :
  let s := cold_runtime (simple_vector 4) [mutator; mutator] in
  let s' := @allocation_profiler_start linux_x86_64 next_mapping s in
  alloc_profiling s = 0 ∧
  simple_vector_p (alloc_profile_data s) = true ∧
  alloc_profile_buffer s = 0 ∧
  profile_buffer_size s = 0 ∧
  @profile_size linux_x86_64 (alloc_profile_data s) ≠ 0 ∧
  os_mappings s' !! alloc_profile_buffer s' = Some (profile_buffer_size s').
Proof.
  intros s s'.
  assert (alloc_profiling s = 0) as Hp by reflexivity.
  assert (simple_vector_p (alloc_profile_data s) = true) as Hv by reflexivity.
  assert (alloc_profile_buffer s = 0) as Hb by reflexivity.
  assert (profile_buffer_size s = 0) as Hsz by reflexivity.
  assert (@profile_size linux_x86_64 (alloc_profile_data s) ≠ 0) as Hne
    by (vm_compute; discriminate).
  repeat (split; [assumption|]).
  destruct (@profiler_cold_start linux_x86_64 next_mapping s Hp Hv Hb Hsz Hne)
    as (_ & _ & _ & _ & Hlive & _).
  exact Hlive.
Defined.

Lemma profiler_starts_without_buffer_witness :
  let s := cold_runtime (simple_vector (2 ^ 30)) [mutator] in
  let s' := @allocation_profiler_start linux_x86_64 next_mapping s in
  alloc_profiling s = 0 ∧
  simple_vector_p (alloc_profile_data s) = true ∧
  alloc_profile_buffer s = 0 ∧
  profile_buffer_size s = 0 ∧
  @profile_size linux_x86_64 (alloc_profile_data s) = 0 ∧
  alloc_profiling s' = 1 ∧ alloc_profile_buffer s' = 0.
Proof.
  intros s s'.
  assert (alloc_profiling s = 0) as Hp by reflexivity.
  assert (simple_vector_p (alloc_profile_data s) = true) as Hv by reflexivity.
  assert (alloc_profile_buffer s = 0) as Hb by reflexivity.
  assert (profile_buffer_size s = 0) as Hsz by reflexivity.
  assert (@profile_size linux_x86_64 (alloc_profile_data s) = 0) as Hz
    by reflexivity.
  repeat (split; [assumption|]).
  destruct (@profiler_starts_without_buffer linux_x86_64 next_mapping s
              Hp Hv Hb Hsz Hz) as (H1 & H2 & _).
  split; [exact H1 | exact H2].
Defined.

(** * Protection mode, search limit, metaspace pointers *)

Section ProtectionProofs.
Context `{P : platform}.
Variables PAGE_TYPE_MASK PAGE_TYPE_CODE : Z.
Variable page_words_bits : Z.

Lemma protection_mode_same_type (h h' : heap) (j : Z) :
  (page_at h' j = page_at h j ∨
   ∃ pg pg', page_at h j = Ok pg ∧ page_at h' j = Ok pg' ∧
             type pg' = type pg) →
  protection_mode PAGE_TYPE_MASK PAGE_TYPE_CODE h' j
  = protection_mode PAGE_TYPE_MASK PAGE_TYPE_CODE h j.
Proof.
  unfold protection_mode. intros [->|(pg & pg' & -> & -> & Ht)]; [done|].
  simpl. by rewrite Ht.
Qed.

Lemma set_page_need_to_zero_frame (h h' : heap) (index : Z) (val : bool) :
  set_page_need_to_zero h index val = Ok h' →
  (∀ j, j ≠ index → page_at h' j = page_at h j) ∧
  ∃ pg pg', page_at h index = Ok pg ∧ page_at h' index = Ok pg' ∧
            need_zerofill pg' = val ∧ type pg' = type pg ∧
            words_used_ pg' = words_used_ pg ∧
            scan_start_offset_ pg' = scan_start_offset_ pg ∧
            gen pg' = gen pg.
Proof.
  unfold set_page_need_to_zero.
  destruct (page_at h index) as [pg| | |] eqn:E; simpl; try discriminate.
  intros [= <-]. pose proof E as [H0 Hl]%page_at_Ok. split.
  - intros j Hj. unfold page_at. simpl.
    destruct (Z.ltb_spec j 0); [done|].
    rewrite list_lookup_insert_ne by lia. done.
  - eexists pg, _. split; [done|]. split.
    + apply page_at_Ok. split; [done|]. simpl.
      apply list_lookup_insert_eq. by eapply lookup_lt_Some.
    + done.
Qed.

Lemma set_page_bytes_used_type (h h' : heap) (index val : Z) :
  set_page_bytes_used page_words_bits h index val = Ok h' →
  (∀ j, j ≠ index → page_at h' j = page_at h j) ∧
  ∃ pg pg', page_at h index = Ok pg ∧ page_at h' index = Ok pg' ∧
            type pg' = type pg.
Proof.
  unfold set_page_bytes_used.
  destruct (page_at h index) as [pg| | |] eqn:E; simpl; try discriminate.
  intros [= <-]. pose proof E as [H0 Hl]%page_at_Ok. split.
  - intros j Hj. unfold page_at. simpl.
    destruct (Z.ltb_spec j 0); [done|].
    rewrite list_lookup_insert_ne by lia. done.
  - eexists pg, _. split; [done|]. split.
    + apply page_at_Ok. split; [done|]. simpl.
      apply list_lookup_insert_eq. by eapply lookup_lt_Some.
    + done.
Qed.

(** X14.  The accessors that write a page-table entry leave the protection mode
    of every page as it was: recording a scan start, the bytes used or the
    need to zero a page never turns a hardware-protected page into a
    logically protected one or back. *)
Theorem protection_mode_kept (h h' : heap) (index j : Z) :
  (∃ o, set_page_scan_start_offset h index o = Ok h') ∨
  (∃ val, set_page_bytes_used page_words_bits h index val = Ok h') ∨
  (∃ val, set_page_need_to_zero h index val = Ok h') →
  protection_mode PAGE_TYPE_MASK PAGE_TYPE_CODE h' j
  = protection_mode PAGE_TYPE_MASK PAGE_TYPE_CODE h j.
Proof.
  intros Hop. apply protection_mode_same_type.
  destruct (decide (j = index)) as [->|Hne].
  - right. destruct Hop as [[o Ho]|[[val Hv]|[val Hv]]].
    + destruct (set_page_scan_start_offset_frame_core _ _ _ _ Ho)
        as (_ & pg & pg' & ? & ? & ?). eauto.
    + destruct (set_page_bytes_used_type _ _ _ _ Hv)
        as (_ & pg & pg' & ? & ? & ?). eauto.
    + destruct (set_page_need_to_zero_frame _ _ _ _ Hv)
        as (_ & pg & pg' & ? & ? & _ & ? & _). eauto.
  - left. destruct Hop as [[o Ho]|[[val Hv]|[val Hv]]].
    + by apply (set_page_scan_start_offset_frame_core _ _ _ _ Ho).
    + by apply (set_page_bytes_used_type _ _ _ _ Hv).
    + by apply (set_page_need_to_zero_frame _ _ _ _ Hv).
Qed.

End ProtectionProofs.

Lemma protection_mode_kept_witness :
  (∃ o, @set_page_scan_start_offset linux_x86_64 three_page_blank 1 o
        = Ok {| page_table :=
                  [used_page 0 4096; used_page 3 4096; used_page 0 10];
                next_free_page := 3 |}) ∧
  protection_mode 7 3
    {| page_table := [used_page 0 4096; used_page 3 4096; used_page 0 10];
       next_free_page := 3 |} 1
  = protection_mode 7 3 three_page_blank 1.
Proof.
  assert (∃ o, @set_page_scan_start_offset linux_x86_64 three_page_blank 1 o
               = Ok {| page_table :=
                         [used_page 0 4096; used_page 3 4096; used_page 0 10];
                       next_free_page := 3 |}) as Hop
    by (exists 32768; reflexivity).
  split; [exact Hop|].
  exact (@protection_mode_kept linux_x86_64 7 3 16 _ _ 1 1 (or_introl Hop)).
Defined.

Section SearchProofs.
Context `{P : platform}.
Variable gc_search_space3 : Z → Z → Z → Z.

Lemma lor_low_ones (p n : Z) :
  0 ≤ n → Z.lor p (2 ^ n - 1) = p - p mod 2 ^ n + (2 ^ n - 1).
Proof.
  intros Hn. pose proof (Z.add_lor_land p (2 ^ n - 1)) as H.
  replace (2 ^ n - 1) with (Z.ones n) in * by (rewrite Z.ones_equiv; lia).
  rewrite Z.land_ones in H by lia. lia.
Qed.

(** X25.  [gc_search_space] searches up to the end of the lowtag-aligned granule
    (the double word) that holds the pointer: the limit it passes on is the
    first multiple of [LOWTAG_MASK + 1] above the pointer. *)
Theorem gc_search_space_limit (start pointer n : Z) :
  0 ≤ n → LOWTAG_MASK = 2 ^ n - 1 →
  0 ≤ pointer → pointer + 2 ^ n < 2 ^ N_WORD_BITS →
  gc_search_space gc_search_space3 start pointer
  = gc_search_space3 pointer start ((pointer / 2 ^ n + 1) * 2 ^ n) ∧
  pointer < (pointer / 2 ^ n + 1) * 2 ^ n ≤ pointer + 2 ^ n.
Proof.
  intros Hn HM Hp Hfit.
  assert (0 < 2 ^ n) as Hpn by (apply Z.pow_pos_nonneg; lia).
  assert (pointer = 2 ^ n * (pointer / 2 ^ n) + pointer mod 2 ^ n) as Hdm
    by (apply Z.div_mod; lia).
  assert (0 ≤ pointer mod 2 ^ n < 2 ^ n) as Hm
    by (apply Z.mod_pos_bound; lia).
  split; [|lia].
  unfold gc_search_space. rewrite HM, lor_low_ones by done. f_equal.
  unfold uword. rewrite Z.mod_small by lia. lia.
Qed.

End SearchProofs.

Lemma gc_search_space_limit_witness :
  0 ≤ 4 ∧ @LOWTAG_MASK linux_x86_64 = 2 ^ 4 - 1 ∧ 0 ≤ 0x5010000F ∧
  0x5010000F + 2 ^ 4 < 2 ^ @N_WORD_BITS linux_x86_64 ∧
  @gc_search_space linux_x86_64 (λ _ _ limit, limit) static_base 0x5010000F
  = 0x50100010.
Proof.
  assert (0 ≤ 4) as Hn by lia.
  assert (@LOWTAG_MASK linux_x86_64 = 2 ^ 4 - 1) as HM by reflexivity.
  assert (0 ≤ 0x5010000F) as Hp by lia.
  assert (0x5010000F + 2 ^ 4 < 2 ^ @N_WORD_BITS linux_x86_64) as Hfit
    by (simpl; lia).
  repeat (split; [assumption|]).
  rewrite (proj1 (@gc_search_space_limit linux_x86_64 (λ _ _ limit, limit)
                    static_base 0x5010000F 4 Hn HM Hp Hfit)).
  reflexivity.
Defined.

Section MetaspaceProofs.
Context `{P : platform}.
Variable METASPACE_SLAB_SIZE : Z.
Variable INSTANCE_WIDETAG : Z.
Variable ALIGN_DOWN : Z → Z → Z.
Variable slab_at : Z → slab_header.
Variable widetag_of : Z → Z.

Lemma sint_small (z : Z) : - 2 ^ 31 ≤ z < 2 ^ 31 → sint z = z.
Proof. intros Hz. unfold sint. rewrite Z.mod_small; lia. Qed.

(** X24.  A pointer the function accepts lies in the chunk it names: for a slab
    with a positive chunk size, a non-zero result is the base of a chunk
    counted down from the end of the slab, within the slab's capacity, that
    holds an instance header, and the pointer lies above that base and at
    most one chunk size above it.  A pointer to the first byte of a chunk is
    therefore attributed to the chunk below.  An empty slab (capacity 0) is
    answered with 0 whatever its chunk size. *)
Theorem valid_metaspace_ptr_p_chunk (addr r : Z)
    (log : list metaspace_message) :
  let slab := ALIGN_DOWN addr METASPACE_SLAB_SIZE in
  let c := chunksize (slab_at slab) in
  let slab_end := slab + METASPACE_SLAB_SIZE in
  32 ≤ N_WORD_BITS →
  0 < METASPACE_SLAB_SIZE < 2 ^ 30 →
  METASPACE_SLAB_SIZE ≤ slab ≤ addr →
  addr < slab_end < 2 ^ N_WORD_BITS →
  0 < c ≤ METASPACE_SLAB_SIZE →
  valid_metaspace_ptr_p METASPACE_SLAB_SIZE INSTANCE_WIDETAG ALIGN_DOWN
    slab_at widetag_of addr = Ok (r, log) →
  (capacity (slab_at slab) = 0 → r = 0) ∧
  (r ≠ 0 →
   r < addr ≤ r + c ∧
   (slab_end - r) mod c = 0 ∧
   slab_end - capacity (slab_at slab) * c ≤ r ∧
   widetag_of r = INSTANCE_WIDETAG ∧
   last log = Some (word_is_good r)).
Proof.
  intros slab c slab_end HN HS Hslab Hend Hc.
  unfold valid_metaspace_ptr_p. fold slab. fold c.
  assert (2 ^ 32 ≤ 2 ^ N_WORD_BITS) by (apply Z.pow_le_mono_r; lia).
  destruct (Z.eqb_spec (capacity (slab_at slab)) 0) as [Hcap|Hcap].
  { intros [= <- <-]. split; done. }
  fold slab_end.
  rewrite (uword_small slab_end), (uword_small c),
    (uword_small (slab_end - addr)) by lia.
  destruct (Z.eqb_spec c 0); [lia|].
  set (q := (slab_end - addr) / c).
  assert (slab_end - addr = c * q + (slab_end - addr) mod c) as Hdm
    by (apply Z.div_mod; lia).
  assert (0 ≤ (slab_end - addr) mod c < c) as Hm
    by (apply Z.mod_pos_bound; lia).
  assert (0 ≤ q) as Hq by (apply Z.div_pos; lia).
  assert (q ≤ slab_end - addr) as Hqd by nia.
  rewrite (sint_small q) by lia.
  assert (0 ≤ (q + 1) * c ≤ 2 * METASPACE_SLAB_SIZE) as Hprod by nia.
  rewrite (sint_small ((q + 1) * c)) by lia.
  rewrite (uword_small (slab_end - (q + 1) * c)) by lia.
  destruct (Z.ltb_spec q (capacity (slab_at slab))) as [Hin|Hout].
  - destruct (Z.eqb_spec (widetag_of (slab_end - (q + 1) * c))
                INSTANCE_WIDETAG) as [Hw|Hw].
    + intros [= <- <-]. split; [done|]. intros _.
      split; [nia|]. split.
      { replace (slab_end - (slab_end - (q + 1) * c)) with ((q + 1) * c)
          by lia.
        apply Z.mod_mul. lia. }
      split; [nia|]. split; [done|]. done.
    + intros [= <- <-]. split; done.
  - intros [= <- <-]. split; done.
Qed.

End MetaspaceProofs.

Lemma valid_metaspace_ptr_p_chunk_witness :
  align_down 5955 2048 = 4096 ∧
  @valid_metaspace_ptr_p linux_x86_64 2048 1 align_down sample_slab
    all_instances 5955
  = Ok (5952, [slab_line 4096 64 10; word_is_good 5952]) ∧
  5952 < 5955 ≤ 5952 + 64.
Proof.
  assert (align_down 5955 2048 = 4096) as Hal by reflexivity.
  assert (@valid_metaspace_ptr_p linux_x86_64 2048 1 align_down sample_slab
            all_instances 5955
          = Ok (5952, [slab_line 4096 64 10; word_is_good 5952])) as Hrun
    by reflexivity.
  split; [exact Hal|]. split; [exact Hrun|].
  refine (proj1 (proj2 (@valid_metaspace_ptr_p_chunk linux_x86_64 2048 1
                          align_down sample_slab all_instances 5955 5952 _
                          _ _ _ _ _ Hrun) _));
    rewrite ?Hal; simpl; lia.
Defined.

(** A pointer to the first byte of the third chunk from the end is
    attributed to the fourth. *)
Example valid_metaspace_ptr_p_chunk_base :
  @valid_metaspace_ptr_p linux_x86_64 2048 1 align_down sample_slab
    all_instances (4096 + 2048 - 3 * 64)
  = Ok (4096 + 2048 - 4 * 64,
        [slab_line 4096 64 10; word_is_good (4096 + 2048 - 4 * 64)]).
Proof. reflexivity. Qed.

Section BumpAlignment.
Context `{P : platform}.

Lemma land_mask_mod (z n : Z) :
  0 ≤ n → Z.land z (2 ^ n - 1) = z mod 2 ^ n.
Proof.
  intros Hn. replace (2 ^ n - 1) with (Z.ones n) by (rewrite Z.ones_equiv; lia).
  by apply Z.land_ones.
Qed.

(** X16.  With assertions compiled in, the frontier of static space stays
    lowtag-aligned: from an aligned frontier, with other threads storing
    aligned values, every call that returns leaves an aligned frontier and
    returns an aligned pointer. *)
Theorem static_frontier_aligned
    (others : list (option Z)) (fp nbytes r cell n : Z) :
  NDEBUG = false →
  0 ≤ n ≤ N_WORD_BITS → LOWTAG_MASK = 2 ^ n - 1 →
  fp mod 2 ^ n = 0 →
  (∀ v, Some v ∈ others → v mod 2 ^ n = 0) →
  atomic_bump_static_space_free_ptr others fp nbytes = Ok (r, cell) →
  cell mod 2 ^ n = 0 ∧ r mod 2 ^ n = 0.
Proof.
  intros HND Hn HM Hfp Hothers Hres.
  assert (0 < 2 ^ n) as Hpn by (apply Z.pow_pos_nonneg; lia).
  assert (nbytes mod 2 ^ n = 0) as Hnb.
  { unfold atomic_bump_static_space_free_ptr, gc_assert in Hres.
    rewrite HND, HM, land_mask_mod in Hres by lia.
    destruct (Z.eqb_spec (nbytes mod 2 ^ n) 0); [done | discriminate]. }
  apply atomic_bump_returns in Hres as (claimed & Hin & Hcases).
  assert (claimed mod 2 ^ n = 0) as Hcl
    by (destruct Hin as [->|Hin]; [done | by apply Hothers]).
  destruct Hcases as [[-> ->]|(-> & -> & _)].
  - split; [done | by apply Z.mod_0_l; lia].
  - split; [|done]. unfold uword.
    replace (2 ^ N_WORD_BITS) with (2 ^ (N_WORD_BITS - n) * 2 ^ n)
      by (rewrite <- Z.pow_add_r by lia; f_equal; lia).
    assert (0 < 2 ^ (N_WORD_BITS - n)) by (apply Z.pow_pos_nonneg; lia).
    apply Z.mod_divide in Hcl as [a ->]; [|lia].
    apply Z.mod_divide in Hnb as [b ->]; [|lia].
    replace (a * 2 ^ n + b * 2 ^ n) with ((a + b) * 2 ^ n) by ring.
    rewrite Z.mul_mod_distr_r by lia. apply Z.mod_mul. lia.
Qed.

End BumpAlignment.

Lemma static_frontier_aligned_witness :
  @NDEBUG linux_x86_64 = false ∧
  0 ≤ 4 ≤ @N_WORD_BITS linux_x86_64 ∧
  @LOWTAG_MASK linux_x86_64 = 2 ^ 4 - 1 ∧
  static_base mod 2 ^ 4 = 0 ∧
  @atomic_bump_static_space_free_ptr linux_x86_64 [] static_base 48
  = Ok (static_base, static_base + 48) ∧
  (static_base + 48) mod 2 ^ 4 = 0.
Proof.
  assert (@NDEBUG linux_x86_64 = false) as HND by reflexivity.
  assert (0 ≤ 4 ≤ @N_WORD_BITS linux_x86_64) as Hn by (simpl; lia).
  assert (@LOWTAG_MASK linux_x86_64 = 2 ^ 4 - 1) as HM by reflexivity.
  assert (static_base mod 2 ^ 4 = 0) as Hfp by reflexivity.
  assert (∀ v, Some v ∈ @nil (option Z) → v mod 2 ^ 4 = 0) as Hothers
    by (intros v []%elem_of_nil).
  assert (@atomic_bump_static_space_free_ptr linux_x86_64 [] static_base 48
          = Ok (static_base, static_base + 48)) as Hres by reflexivity.
  repeat (split; [assumption|]).
  exact (proj1 (@static_frontier_aligned linux_x86_64 [] static_base 48 _ _ 4
                  HND Hn HM Hfp Hothers Hres)).
Defined.

Section DebugCheck.
Context `{P : platform}.

(** X11.  What the DEBUG cross-check enforces: with the check and the assertions
    compiled in, [page_ends_contiguous_block_p(p, g)] aborts exactly when
    the page is full and the next page does not start a block although the
    next page lies at or beyond [next_free_page], or is empty, or belongs to
    another generation than [g]; in every other case it returns. *)
Theorem page_ends_debug_check (h : heap) (p g : Z) (pg pg1 : page) :
  DEBUG = true → NDEBUG = false →
  page_at h p = Ok pg → page_at h (p + 1) = Ok pg1 →
  (page_ends_contiguous_block_p h p g = Lose ↔
   GENCGC_PAGE_WORDS ≤ words_used_ pg ∧
   scan_start_offset_ pg1 ≠ 0 ∧
   (next_free_page h ≤ p + 1 ∨ words_used_ pg1 = 0 ∨ gen pg1 ≠ g)) ∧
  (page_ends_contiguous_block_p h p g ≠ Lose →
   page_ends_contiguous_block_p h p g
   = Ok ((words_used_ pg <? GENCGC_PAGE_WORDS)
         || (scan_start_offset_ pg1 =? 0))).
Proof.
  intros HD HND E E1.
  unfold page_ends_contiguous_block_p, orelse, page_words_used,
    page_starts_contiguous_block_p, gc_assert.
  rewrite HD, HND, E, E1. simpl.
  destruct (Z.ltb_spec (words_used_ pg) GENCGC_PAGE_WORDS); simpl.
  { split; [|done]. split; [discriminate | lia]. }
  destruct (Z.eqb_spec (scan_start_offset_ pg1) 0); simpl.
  { destruct (_ >=? _); simpl; [|destruct (_ =? 0); simpl;
      [|destruct (negb _); simpl]]; (split; [|done]);
      (split; [discriminate | tauto]). }
  destruct (Z.geb_spec (p + 1) (next_free_page h)); simpl.
  { split; [|done]. split; [intros _; split; [lia|]; split; [done|]; lia
                           | done]. }
  destruct (Z.eqb_spec (words_used_ pg1) 0); simpl.
  { split; [|done]. split; [intros _; split; [lia|]; split; [done|]; tauto
                           | done]. }
  destruct (Z.eqb_spec (gen pg1) g); simpl.
  - split; [|done]. split; [discriminate|]. intros (_ & _ & [?|[?|?]]); lia.
  - split; [|done]. split; [|done]. intros _. split; [lia|]. tauto.
Qed.

End DebugCheck.

Lemma page_ends_debug_check_witness :
  @DEBUG debug_build = true ∧ @NDEBUG debug_build = false ∧
  page_at two_full_pages 0 = Ok (used_page 0 4096) ∧
  page_at two_full_pages (0 + 1) = Ok (used_page 3 4096) ∧
  @page_ends_contiguous_block_p debug_build two_full_pages 0 1 = Lose.
Proof.
  assert (@DEBUG debug_build = true) as HD by reflexivity.
  assert (@NDEBUG debug_build = false) as HND by reflexivity.
  assert (page_at two_full_pages 0 = Ok (used_page 0 4096)) as E
    by reflexivity.
  assert (page_at two_full_pages (0 + 1) = Ok (used_page 3 4096)) as E1
    by reflexivity.
  repeat (split; [assumption|]).
  apply (proj1 (@page_ends_debug_check debug_build two_full_pages 0 1 _ _
                  HD HND E E1)).
  split; [simpl; lia|]. split; [simpl; lia|].
  right. right. simpl. lia.
Defined.

Section RegionBlock.
Context `{P : platform}.

Lemma mark_region_words (start : Z) (n : nat) :
  ∀ h h' k, mark_region n h start k = Ok h' →
            ∀ i, page_words_used h' i = page_words_used h i.
Proof.
  induction n as [|n IH]; intros h h' k; simpl.
  { by intros [= <-]. }
  destruct (set_page_scan_start_offset h (start + k) _) as [h1| | |] eqn:E1;
    simpl; try discriminate.
  intros Hrest i. rewrite (IH _ _ _ Hrest).
  destruct (set_page_scan_start_offset_fields _ _ _ _ E1)
    as (_ & _ & Hother & pg & pg' & E & E' & _ & Hw & _).
  unfold page_words_used. destruct (decide (i = start + k)) as [->|Hne].
  - rewrite E, E'. simpl. by rewrite Hw.
  - by rewrite Hother.
Qed.

Lemma clipped_page_distance_zero (j : Z) :
  0 ≤ j → (clipped_page_distance j = 0 ↔ j = 0).
Proof.
  intros Hj. unfold clipped_page_distance, SCAN_START_OFS_MAX, UINT_MAX.
  destruct (Z.eqb_spec j 0); lia.
Qed.

(** X10.  Encoder and oracle agree on what a block is: after the entries of a
    region of [n] pages have been written front to back, with every page but
    the last full and the last one not, the first page starts a block, no
    other page of the region does, and every page of the region has the
    last page of the region as its final page (without the DEBUG
    cross-check). *)
Theorem marked_region_is_one_block (n : nat) (h h' : heap) (start : Z) :
  DEBUG = false → platform_wf →
  mark_region n h start 0 = Ok h' →
  (∀ j w, 0 ≤ j < Z.of_nat n - 1 →
          page_words_used h (start + j) = Ok w → GENCGC_PAGE_WORDS ≤ w) →
  (∀ w, page_words_used h (start + (Z.of_nat n - 1)) = Ok w →
        w < GENCGC_PAGE_WORDS) →
  (∀ j, 0 ≤ j < Z.of_nat n →
        page_starts_contiguous_block_p h' (start + j) = Ok (j =? 0)) ∧
  (∀ j, 0 ≤ j < Z.of_nat n →
        contiguous_block_final_page h' (start + j)
        = Ok (start + (Z.of_nat n - 1))).
Proof.
  intros HD Hwf Hmark Hfull Hlast.
  destruct (mark_region_entries start n Hwf h h' 0 ltac:(lia) Hmark)
    as [Hin _].
  pose proof (mark_region_words start n h h' 0 Hmark) as Hwords.
  assert (∀ j, 0 ≤ j < Z.of_nat n →
               page_starts_contiguous_block_p h' (start + j) = Ok (j =? 0))
    as Hstarts.
  { intros j Hj. destruct (Hin j) as (pg & E & Hs); [lia|].
    rewrite (page_starts_Ok _ _ _ E), Hs. f_equal.
    destruct (Z.eqb_spec j 0) as [->|Hnz]; [done|].
    apply Z.eqb_neq. rewrite clipped_page_distance_zero; lia. }
  split; [done|].
  assert (∀ j, 0 ≤ j < Z.of_nat n →
               ends_answer h' (start + j) = Ok (j =? Z.of_nat n - 1))
    as Hends.
  { intros j Hj. unfold ends_answer, orelse.
    destruct (Hin j) as (pg & E & _); [lia|].
    pose proof (Hwords (start + j)) as Hw.
    rewrite (page_words_used_Ok _ _ _ E) in Hw.
    rewrite (page_words_used_Ok _ _ _ E). simpl.
    destruct (Z.eqb_spec j (Z.of_nat n - 1)) as [->|Hne].
    - specialize (Hlast _ (eq_sym Hw)).
      by destruct (Z.ltb_spec (words_used_ pg) GENCGC_PAGE_WORDS); [|lia].
    - specialize (Hfull j _ ltac:(lia) (eq_sym Hw)).
      destruct (Z.ltb_spec (words_used_ pg) GENCGC_PAGE_WORDS); [lia|].
      replace (start + j + 1) with (start + (j + 1)) by lia.
      rewrite Hstarts by lia.
      by destruct (Z.eqb_spec (j + 1) 0); [lia|]. }
  intros j Hj. destruct (Hin j) as (pg & E & _); [lia|].
  apply (contiguous_block_final_page_iff h' (start + j) pg _ E).
  split; [lia|]. split.
  - rewrite page_ends_release, Hends by (done || lia).
    by rewrite Z.eqb_refl.
  - intros r Hr. rewrite page_ends_release by done.
    replace r with (start + (r - start)) by lia.
    rewrite Hends by lia.
    by destruct (Z.eqb_spec (r - start) (Z.of_nat n - 1)); [lia|].
Qed.

End RegionBlock.

Lemma marked_region_is_one_block_witness :
  @DEBUG linux_x86_64 = false ∧ @platform_wf linux_x86_64 ∧
  @mark_region linux_x86_64 3 three_page_blank 0 0 = Ok three_page_region ∧
  @contiguous_block_final_page linux_x86_64 three_page_region (0 + 1)
  = Ok (0 + (Z.of_nat 3 - 1)).
Proof.
  assert (@DEBUG linux_x86_64 = false) as HD by reflexivity.
  assert (@platform_wf linux_x86_64) as Hwf by (split; simpl; lia).
  assert (@mark_region linux_x86_64 3 three_page_blank 0 0
          = Ok three_page_region) as Hmark by reflexivity.
  repeat (split; [assumption|]).
  refine (proj2 (@marked_region_is_one_block linux_x86_64 3 three_page_blank
                   three_page_region 0 HD Hwf Hmark _ _) 1 _).
  - intros j w Hj.
    assert (j = 0 ∨ j = 1) as [->| ->] by lia; intros [= <-]; simpl; lia.
  - intros w [= <-]. simpl. lia.
  - simpl; lia.
Defined.

Section StartsAfterSet.
Context `{P : platform}.

(** X6.  Written by the encoder, read by the oracle: after
    [set_page_scan_start_offset(p, o)] has returned, the page starts a block
    exactly when [o] is less than one word.  For the offsets the collector
    uses (multiples of two words) that is the offset zero; an offset of 1 to
    [N_WORD_BYTES - 1] bytes is stored as 0 and marks a region start too. *)
Theorem starts_block_after_set (h h' : heap) (p o : Z) :
  platform_wf → 0 ≤ o →
  set_page_scan_start_offset h p o = Ok h' →
  page_starts_contiguous_block_p h' p = Ok (o <? N_WORD_BYTES).
Proof.
  intros Hwf Ho. pose proof Hwf as [HW HC HPB HWB HC32 HN].
  assert (0 < 2 ^ WORD_SHIFT) as HpW by (apply Z.pow_pos_nonneg; lia).
  assert (2 ^ WORD_SHIFT < 2 ^ GENCGC_CARD_SHIFT) as Hlt
    by (apply Z.pow_lt_mono_r; lia).
  (* the stored value is zero exactly when [o] is less than a word *)
  enough (∃ v, 0 ≤ v ≤ UINT_MAX ∧ (v = 0 ↔ o < N_WORD_BYTES) ∧
               (set_page_scan_start_offset h p o = Ok h' →
                store_scan_start h p v = Ok h')) as (v & Hv & Hz & Hst).
  { intros Hset%Hst.
    destruct (store_scan_start_read _ _ _ _ Hset) as (pg' & E' & Hs).
    unfold UINT_MAX in Hv. rewrite uint_small in Hs by lia.
    rewrite (page_starts_Ok _ _ _ E'), Hs. f_equal.
    destruct (Z.eqb_spec v 0); destruct (Z.ltb_spec o N_WORD_BYTES); lia. }
  unfold set_page_scan_start_offset, IS_ALIGNED, gc_assert,
    SCAN_START_OFS_MAX.
  destruct (Z.eqb_spec o 0) as [->|Hnz]; simpl.
  { exists 0. rewrite Z.shiftr_0_l. simpl. unfold UINT_MAX.
    split; [lia|]. split; [lia | done]. }
  destruct (Z.eqb_spec (o mod GENCGC_PAGE_BYTES) 0) as [Hpa|Hna]; simpl.
  - apply Z.mod_divide in Hpa as [k ->]; [|lia].
    assert (0 < k) by nia.
    rewrite scaled_page_aligned by (done || lia).
    exists (Z.min (2 * k + 1) UINT_MAX). unfold UINT_MAX.
    split; [lia|]. split; [nia|].
    destruct (Z.gtb_spec (2 * k + 1) (2 ^ 32 - 1)); simpl.
    + rewrite Z.min_r by lia. by destruct NDEBUG.
    + by rewrite Z.min_l by lia.
  - rewrite Z.lor_0_r, Z.shiftr_div_pow2, <- HWB by lia.
    assert (0 ≤ o / N_WORD_BYTES) by (apply Z.div_pos; lia).
    assert (o / N_WORD_BYTES = 0 ↔ o < N_WORD_BYTES) as Hsmall.
    { rewrite Z.div_small_iff by lia. lia. }
    exists (Z.min (o / N_WORD_BYTES) UINT_MAX). unfold UINT_MAX in *.
    split; [lia|]. split; [lia|].
    destruct (Z.gtb_spec (o / N_WORD_BYTES) (2 ^ 32 - 1)); simpl.
    + rewrite Z.min_r by lia. destruct NDEBUG; [done | discriminate].
    + by rewrite Z.min_l by lia.
Qed.

End StartsAfterSet.

Lemma starts_block_after_set_witness :
  @platform_wf linux_x86_64 ∧ 0 ≤ 7 ∧
  @set_page_scan_start_offset linux_x86_64 one_page_back 0 7
  = Ok one_page_heap ∧
  page_starts_contiguous_block_p one_page_heap 0 = Ok true.
Proof.
  assert (@platform_wf linux_x86_64) as Hwf by (split; simpl; lia).
  assert (0 ≤ 7) as Ho by lia.
  assert (@set_page_scan_start_offset linux_x86_64 one_page_back 0 7
          = Ok one_page_heap) as Hset by reflexivity.
  repeat (split; [assumption|]).
  exact (@starts_block_after_set linux_x86_64 one_page_back one_page_heap 0 7
           Hwf Ho Hset).
Defined.
